(** * RewriteMacros: aligning the raw and the preprocessed token streams

    A shallow embedding of [vendor/clang/Driver/RewriteMacros.cpp]: the
    token comparison [isSameToken], the raw cursor [GetNextRawTok] and the
    main loop of [RewriteMacrosInInput], which walks the raw tokens of the
    main file next to the preprocessed tokens and records text edits in a
    rewrite buffer.

    The lexer, the preprocessor, the source manager and the rewrite buffer
    are collaborators of this file.  They appear here through what the loop
    uses of them: a vector of raw tokens, a pull stream of preprocessed
    tokens that repeats end-of-file, the three source-manager queries, and
    the list of edits in the order they are issued. *)

From Stdlib Require Import List NArith String Ascii Bool Arith Lia.
Import ListNotations.

(** ** Tokens *)

(** The token kinds the loop tells apart, and a few more for examples. *)
Inductive TokenKind : Set :=
| tok_unknown
| tok_eof
| tok_comment
| tok_identifier
| tok_numeric_constant
| tok_string_literal
| tok_hash
| tok_l_paren
| tok_r_paren
| tok_semi
| tok_equal
| tok_star
| tok_plus
| tok_less
| tok_greater
| tok_kw_int.

Definition TokenKind_eq_dec (a b : TokenKind) : {a = b} + {a <> b}.
Proof. decide equality. Defined.

Definition kind_eqb (a b : TokenKind) : bool :=
  if TokenKind_eq_dec a b then true else false.

(** An [IdentifierInfo] is interned: there is one object per spelling, so
    comparing two pointers is comparing the two names. *)
Record IdentifierInfo : Set := mkII { getName : string }.

Definition II_eqb (a b : IdentifierInfo) : bool :=
  String.eqb (getName a) (getName b).

(** Equality of two possibly null [IdentifierInfo*]. *)
Definition IIptr_eqb (a b : option IdentifierInfo) : bool :=
  match a, b with
  | None, None => true
  | Some x, Some y => II_eqb x y
  | _, _ => false
  end.

(** A [SourceLocation] is an opaque 32-bit id that only the source manager
    can decode. *)
Definition SourceLocation : Set := N.

Record Token : Set := mkToken {
  getKind : TokenKind;
  getIdentifierInfo : option IdentifierInfo;
  getLocation : SourceLocation;
  getLength : N;
  isAtStartOfLine : bool;
  hasLeadingSpace : bool;
  (** the characters [Preprocessor::getSpelling] reads back for the token *)
  getSpelling : string
}.

(** [Token::is] and [Token::isNot]. *)
Definition is_ (T : Token) (K : TokenKind) : bool := kind_eqb (getKind T) K.
Definition isNot (T : Token) (K : TokenKind) : bool := negb (is_ T K).

(** ** The collaborators *)

Record SourceManager : Type := mkSM {
  getInstantiationLoc : SourceLocation -> SourceLocation;
  isFromMainFile : SourceLocation -> bool;
  getFileOffset : SourceLocation -> N
}.

(** The preprocessor as a pull source: the tokens not yet returned, and the
    location of the end-of-file token it returns from then on. *)
Record Preprocessor : Set := mkPP {
  Pending : list Token;
  EofLoc : SourceLocation
}.

Definition EofToken (L : SourceLocation) : Token :=
  mkToken tok_eof None L 0 false false EmptyString.

(** [PP.Lex(Tok)]: the next preprocessed token and the preprocessor after
    the call. *)
Definition Lex (P : Preprocessor) : Token * Preprocessor :=
  match Pending P with
  | [] => (EofToken (EofLoc P), P)
  | T :: Rest => (T, mkPP Rest (EofLoc P))
  end.

(** The two calls of [RewriteBuffer] the loop makes, in the order made. *)
Inductive Edit : Set :=
| InsertTextAfter (Offs : N) (Str : string)
| InsertTextBefore (Offs : N) (Str : string).

Definition EditOffset (E : Edit) : N :=
  match E with
  | InsertTextAfter Offs _ => Offs
  | InsertTextBefore Offs _ => Offs
  end.

(** ** Results of a run *)

Inductive Fault : Set :=
| OverranEof          (* the assertion of GetNextRawTok *)
| OutOfBounds         (* RawTokens[i] with i >= RawTokens.size() *)
| NullIdentifierInfo. (* II->getName() on a null II *)

Inductive Outcome (A : Type) : Type :=
| Done (a : A)
| Abort (f : Fault)
| OutOfFuel.

Arguments Done {A} a.
Arguments Abort {A} f.
Arguments OutOfFuel {A}.

Definition bind {A B : Type} (m : Outcome A) (k : A -> Outcome B) : Outcome B :=
  match m with
  | Done a => k a
  | Abort f => Abort f
  | OutOfFuel => OutOfFuel
  end.

Notation "x <- m ;; k" := (bind m (fun x => k))
  (at level 61, m at next level, right associativity).
Notation "' p <- m ;; k" := (bind m (fun x => let p := x in k))
  (at level 61, p pattern, m at next level, right associativity).

(** Arithmetic on [unsigned]. *)
Definition UINT_MOD : N := 4294967296.
Definition uadd (a b : N) : N := ((a + b) mod UINT_MOD)%N.

(** ** isSameToken *)

Definition isSameToken (RawTok PPTok : Token) : bool :=
  if kind_eqb (getKind PPTok) (getKind RawTok) &&
     IIptr_eqb (getIdentifierInfo PPTok) (getIdentifierInfo RawTok)
  then true
  else
    if (match getIdentifierInfo PPTok with Some _ => true | None => false end) &&
       IIptr_eqb (getIdentifierInfo PPTok) (getIdentifierInfo RawTok)
    then true
    else false.

(** ** GetNextRawTok *)

(** Returns the token and the advanced cursor. *)
Definition GetNextRawTok (RawTokens : list Token) (CurTok : nat)
    (ReturnComment : bool) : Outcome (Token * nat) :=
  if CurTok <? List.length RawTokens then
    match nth_error RawTokens CurTok with
    | None => Abort OutOfBounds
    | Some T =>
        let CurTok1 :=
          if negb ReturnComment && is_ T tok_comment then S CurTok else CurTok in
        match nth_error RawTokens CurTok1 with
        | None => Abort OutOfBounds
        | Some R => Done (R, S CurTok1)
        end
    end
  else Abort OverranEof.

(** ** The loop of RewriteMacrosInInput *)

Record State : Set := mkState {
  CurRawTok : nat;
  RawTok : Token;
  PPTok : Token;
  PP : Preprocessor;
  RB : list Edit
}.

Section Loop.

Variable SM : SourceManager.
Variable RawTokens : list Token.

Definition PPLocOf (T : Token) : SourceLocation :=
  getInstantiationLoc SM (getLocation T).
Definition PPOffsOf (T : Token) : N := getFileOffset SM (PPLocOf T).
Definition RawOffsOf (T : Token) : N := getFileOffset SM (getLocation T).
Definition FromMain (T : Token) : bool := isFromMainFile SM (PPLocOf T).

(** Lines 129-141: the edit for [#warning] and [#pragma mark]. *)
Definition NameIs (T : Token) (Str : string) : Outcome bool :=
  match getIdentifierInfo T with
  | None => Abort NullIdentifierInfo
  | Some II => Done (String.eqb (getName II) Str)
  end.

Definition CommentOutDirective (Hash : Token) (Cur : nat) (Buf : list Edit)
    : Outcome (list Edit) :=
  match nth_error RawTokens Cur with
  | None => Abort OutOfBounds
  | Some T1 =>
      if is_ T1 tok_identifier then
        w <- NameIs T1 "warning" ;;
        if w then Done (Buf ++ [InsertTextAfter (RawOffsOf Hash) "//"])
        else
          p <- NameIs T1 "pragma" ;;
          if p then
            match nth_error RawTokens (Cur + 1) with
            | None => Abort OutOfBounds
            | Some T2 =>
                if is_ T2 tok_identifier then
                  m <- NameIs T2 "mark" ;;
                  if m then Done (Buf ++ [InsertTextAfter (RawOffsOf Hash) "//"])
                  else Done Buf
                else Done Buf
            end
          else Done Buf
      else Done Buf
  end.

(** Lines 146-147: skip to the end of the directive line. *)
Fixpoint SkipLine (fuel : nat) (Tok : Token) (Cur : nat)
    : Outcome (Token * nat) :=
  if negb (isAtStartOfLine Tok) && isNot Tok tok_eof then
    match fuel with
    | O => OutOfFuel
    | S fuel' =>
        '(T, C) <- GetNextRawTok RawTokens Cur false ;;
        SkipLine fuel' T C
    end
  else Done (Tok, Cur).

(** Lines 172-185: the do-while of a deletion run.  Returns [EndPos], the
    raw token and the raw cursor. *)
Fixpoint DeletionRun (fuel : nat) (PPOffs : N) (PPT : Token)
    (RawOffs : N) (Tok : Token) (Cur : nat) : Outcome (N * Token * nat) :=
  match fuel with
  | O => OutOfFuel
  | S fuel' =>
      let EndPos := uadd RawOffs (getLength Tok) in
      '(T1, C1) <- GetNextRawTok RawTokens Cur true ;;
      let RawOffs1 := RawOffsOf T1 in
      if is_ T1 tok_comment then
        '(T2, C2) <- GetNextRawTok RawTokens C1 false ;;
        Done (EndPos, T2, C2)
      else if (RawOffs1 <=? PPOffs)%N && negb (isAtStartOfLine T1) &&
              (negb (PPOffs =? RawOffs1)%N || negb (isSameToken T1 PPT))
      then DeletionRun fuel' PPOffs PPT RawOffs1 T1 C1
      else Done (EndPos, T1, C1)
  end.

(** Lines 196-201: the while of an insertion run.  Returns the accumulated
    text, the preprocessed token and the preprocessor. *)
Fixpoint InsertionRun (fuel : nat) (RawOffs : N) (PPT : Token)
    (P : Preprocessor) (Expansion : string)
    : Outcome (string * Token * Preprocessor) :=
  if (PPOffsOf PPT <? RawOffs)%N then
    match fuel with
    | O => OutOfFuel
    | S fuel' =>
        let Expansion1 := (Expansion ++ String " " (getSpelling PPT))%string in
        let (T, P1) := Lex P in
        InsertionRun fuel' RawOffs T P1 Expansion1
    end
  else Done (Expansion, PPT, P).

(** The opener [" /*"+HasSpace] of length [2+!HasSpace]. *)
Definition Opener (HasSpace : bool) : string :=
  substring (Nat.b2n HasSpace) (2 + Nat.b2n (negb HasSpace)) " /*".

(** Lines 114-203: one iteration of the while loop. *)
Definition LoopBody (fuel : nat) (st : State) : Outcome State :=
  if negb (FromMain (PPTok st)) then
    let (T, P) := Lex (PP st) in
    Done (mkState (CurRawTok st) (RawTok st) T P (RB st))
  else if is_ (RawTok st) tok_hash && isAtStartOfLine (RawTok st) then
    Buf <- CommentOutDirective (RawTok st) (CurRawTok st) (RB st) ;;
    '(T, C) <- GetNextRawTok RawTokens (CurRawTok st) false ;;
    '(T1, C1) <- SkipLine fuel T C ;;
    Done (mkState C1 T1 (PPTok st) (PP st) Buf)
  else
    let PPOffs := PPOffsOf (PPTok st) in
    let RawOffs := RawOffsOf (RawTok st) in
    if (PPOffs =? RawOffs)%N && isSameToken (RawTok st) (PPTok st) then
      '(T, C) <- GetNextRawTok RawTokens (CurRawTok st) false ;;
      let (T', P) := Lex (PP st) in
      Done (mkState C T T' P (RB st))
    else if (RawOffs <=? PPOffs)%N then
      let HasSpace := hasLeadingSpace (RawTok st) in
      let Buf := RB st ++ [InsertTextAfter RawOffs (Opener HasSpace)] in
      '(EndPos, T, C) <-
         DeletionRun fuel PPOffs (PPTok st) RawOffs (RawTok st) (CurRawTok st) ;;
      Done (mkState C T (PPTok st) (PP st)
                    (Buf ++ [InsertTextBefore EndPos "*/"]))
    else
      let InsertPos := PPOffs in
      '(Expansion, T, P) <-
         InsertionRun fuel RawOffs (PPTok st) (PP st) EmptyString ;;
      Done (mkState (CurRawTok st) (RawTok st) T P
                    (RB st ++ [InsertTextBefore InsertPos
                                 (Expansion ++ " ")%string])).

(** Line 113: the loop condition. *)
Definition LoopCond (st : State) : bool :=
  isNot (RawTok st) tok_eof || isNot (PPTok st) tok_eof.

Fixpoint MainLoop (fuel : nat) (st : State) : Outcome State :=
  if LoopCond st then
    match fuel with
    | O => OutOfFuel
    | S fuel' => st' <- LoopBody fuel' st ;; MainLoop fuel' st'
    end
  else Done st.

(** Lines 98-105: the state the loop starts in. *)
Definition InitState (P : Preprocessor) : Outcome State :=
  '(T, C) <- GetNextRawTok RawTokens 0 false ;;
  let (T', P') := Lex P in
  Done (mkState C T T' P' []).

(** Lines 228-234: what is written out.  Modelled from the spec:
    [Rewriter::getRewriteBufferFor] is not in this file; the spec has it
    answer whether any edit was recorded for the main file, and the run
    reports no changes when none was. *)
Inductive Output : Set :=
| NoChanges
| Changed (Edits : list Edit).

Definition RewriteMacrosInInput (fuel : nat) (P : Preprocessor)
    : Outcome Output :=
  st0 <- InitState P ;;
  st <- MainLoop fuel st0 ;;
  match RB st with
  | [] => Done NoChanges
  | E :: Es => Done (Changed (E :: Es))
  end.

End Loop.

(** ** LexRawTokensFromMainFile *)

(** The raw lexer as a pull source: the tokens of the main file not yet
    returned, comments among them, and the end of the buffer, where it
    forms the end-of-file token. *)
Record Lexer : Set := mkLexer {
  LexPending : list Token;
  BufferEnd : SourceLocation
}.

(** [RawLex.LexFromRawLexer(RawTok)]. *)
Definition LexFromRawLexer (L : Lexer) : Token * Lexer :=
  match LexPending L with
  | [] => (EofToken (BufferEnd L), L)
  | T :: Rest => (T, mkLexer Rest (BufferEnd L))
  end.

(** [Token::setIdentifierInfo]. *)
Definition setIdentifierInfo (T : Token) (II : IdentifierInfo) : Token :=
  mkToken (getKind T) (Some II) (getLocation T) (getLength T)
          (isAtStartOfLine T) (hasLeadingSpace T) (getSpelling T).

Section Lexing.

(** [PP.LookUpIdentifierInfo]: the entry of the identifier table for the
    spelling of the token; it is never null. *)
Variable LookUpIdentifierInfo : Token -> IdentifierInfo.

(** Lines 79-80: an identifier without identifier info gets it looked up. *)
Definition ResolveIdentifier (RawTok : Token) : Token :=
  if is_ RawTok tok_identifier &&
     (match getIdentifierInfo RawTok with None => true | Some _ => false end)
  then setIdentifierInfo RawTok (LookUpIdentifierInfo RawTok)
  else RawTok.

(** Lines 73-83: the do-while that fills the vector. *)
Fixpoint LexRawTokensFromMainFile (fuel : nat) (RawLex : Lexer)
    (RawTokens : list Token) : Outcome (list Token) :=
  match fuel with
  | O => OutOfFuel
  | S fuel' =>
      let (Tok, RawLex1) := LexFromRawLexer RawLex in
      let RawTok := ResolveIdentifier Tok in
      let RawTokens1 := RawTokens ++ [RawTok] in
      if isNot RawTok tok_eof
      then LexRawTokensFromMainFile fuel' RawLex1 RawTokens1
      else Done RawTokens1
  end.

(** Lines 96-105 and the loop: the raw tokens are lexed into an empty
    vector and the loop runs over them. *)
Definition LexAndRewrite (SM : SourceManager) (fuel : nat) (RawLex : Lexer)
    (P : Preprocessor) : Outcome Output :=
  RawTokens <- LexRawTokensFromMainFile fuel RawLex [] ;;
  RewriteMacrosInInput SM RawTokens fuel P.

End Lexing.

(** ** Predicates the statements below use *)

(** The token is the identifier spelled [Name]. *)
Definition IsIdentifierNamed (T : Token) (Name : string) : bool :=
  is_ T tok_identifier &&
  match getIdentifierInfo T with
  | Some II => String.eqb (getName II) Name
  | None => false
  end.

(** The tokens after a [#] read [warning], or [pragma] and then [mark]. *)
Definition WarningOrPragmaMark (Next : list Token) : bool :=
  match Next with
  | [] => false
  | T1 :: Rest =>
      IsIdentifierNamed T1 "warning" ||
      (IsIdentifierNamed T1 "pragma" &&
       match Rest with
       | T2 :: _ => IsIdentifierNamed T2 "mark"
       | [] => false
       end)
  end.

(** The preprocessed tokens an insertion run takes: the longest prefix
    whose offsets are below the raw token's offset, and what is left. *)
Fixpoint TakeBelow (Below : Token -> bool) (Toks : list Token) : list Token :=
  match Toks with
  | [] => []
  | T :: Rest => if Below T then T :: TakeBelow Below Rest else []
  end.

Fixpoint DropBelow (Below : Token -> bool) (Toks : list Token) : list Token :=
  match Toks with
  | [] => []
  | T :: Rest => if Below T then DropBelow Below Rest else Toks
  end.

(** A space and the spelling, for every token of the run. *)
Fixpoint Render (Toks : list Token) : string :=
  match Toks with
  | [] => EmptyString
  | T :: Rest => (String " " (getSpelling T) ++ Render Rest)%string
  end.

(** The raw token list ends with an end-of-file token. *)
Definition EndsWithEof (RawTokens : list Token) (E : Token) : Prop :=
  exists Body, RawTokens = Body ++ [E] /\ is_ E tok_eof = true.

(** ** A file with no macro invocation *)

(** Whether the token lies on a directive line: it is a [#] that starts a
    line, or it follows on the line of one. *)
Definition OnDirectiveLine (inDirective : bool) (T : Token) : bool :=
  (is_ T tok_hash && isAtStartOfLine T) ||
  (inDirective && negb (isAtStartOfLine T)).

(** Modelled from the spec: the preprocessor is a collaborator whose code
    is not in this file.  For a main file with no macro invocation and no
    excluded text it returns the raw tokens up to end-of-file without the
    comments and without the directive lines, each of which runs from a
    line-initial [#] to the end of that line. *)
Fixpoint PlainExpansion (inDirective : bool) (Toks : list Token)
    : list Token :=
  match Toks with
  | [] => []
  | T :: Rest =>
      if is_ T tok_eof then []
      else if OnDirectiveLine inDirective T || is_ T tok_comment
      then PlainExpansion (OnDirectiveLine inDirective T) Rest
      else T :: PlainExpansion false Rest
  end.

(** ** Where the comments stand

    Asked for the next token, the raw cursor steps over a comment that is
    under it, one comment and no more, and returns the token after it
    whatever that token is.  What becomes of the token returned depends
    on what the loop is doing. *)
Inductive CursorMode : Set :=
| Aligning      (* matching raw tokens with preprocessed ones *)
| SkippingLine  (* skipping the rest of a directive line *)
| SkippingOn.   (* skipping on, past a comment that began the next line *)

Inductive CursorStep : Set :=
| Disturbed                 (* the loop is left with a token to edit *)
| AtEnd                     (* the end-of-file token *)
| GoesOn (m : CursorMode).

Definition OnLine (m : CursorMode) : bool :=
  match m with SkippingLine => true | _ => false end.

(** The token becomes the raw token of the loop.  A comment is wrapped
    in a comment of its own; a line-initial [#] starts a skip. *)
Definition Held (R : Token) : CursorStep :=
  if is_ R tok_comment then Disturbed
  else if is_ R tok_hash && isAtStartOfLine R then GoesOn SkippingLine
  else GoesOn Aligning.

(** The token is what the cursor returns.  A skip goes on over a token
    that does not start a line; past a comment that began the next line
    it goes on over tokens the preprocessor returns, unless they are
    comments. *)
Definition Returned (m : CursorMode) (R : Token) : CursorStep :=
  if is_ R tok_eof then AtEnd
  else
    match m with
    | Aligning => Held R
    | SkippingLine =>
        if isAtStartOfLine R then Held R else GoesOn SkippingLine
    | SkippingOn =>
        if isAtStartOfLine R then Held R
        else if is_ R tok_comment then GoesOn SkippingOn else Disturbed
    end.

(** The cursor steps over the comment [T]. *)
Definition SteppedOver (m : CursorMode) (T : Token) : CursorMode :=
  match m with
  | SkippingLine => if isAtStartOfLine T then SkippingOn else SkippingLine
  | _ => m
  end.

Definition AfterStep (k : CursorMode -> bool) (s : CursorStep) : bool :=
  match s with
  | Disturbed => false
  | AtEnd => true
  | GoesOn m => k m
  end.

(** The comments of [Toks] are where the cursor, asked for the token at
    the head of [Toks], steps over them: it never returns a comment for
    the loop to hold, and a skip over a directive line never runs on
    over tokens of the next line. *)
Fixpoint CursorOnTrack (m : CursorMode) (Toks : list Token) : bool :=
  match Toks with
  | [] => true
  | T :: Rest =>
      if is_ T tok_comment then
        match Rest with
        | [] => true
        | R :: Rest' =>
            AfterStep (fun m' => CursorOnTrack m' Rest')
                      (Returned (SteppedOver m T) R)
        end
      else AfterStep (fun m' => CursorOnTrack m' Rest) (Returned m T)
  end.

Definition OnTrackAfter (m : CursorMode) (R : Token) (Rest : list Token)
    : bool :=
  AfterStep (fun m' => CursorOnTrack m' Rest) (Returned m R).

(** No line-initial [#] is followed by [warning] or by [pragma mark]. *)
Fixpoint NoCommentedDirective (Toks : list Token) : bool :=
  match Toks with
  | [] => true
  | T :: Rest =>
      negb (is_ T tok_hash && isAtStartOfLine T && WarningOrPragmaMark Rest) &&
      NoCommentedDirective Rest
  end.

(** ** Edits and their offsets *)

(** The text an insertion run inserts.  The loop calls InsertTextBefore
    in two places only: with ["*/"] to close a deletion run, and with the
    accumulated expansion text. *)
Definition IsExpansionEdit (Ed : Edit) : bool :=
  match Ed with
  | InsertTextAfter _ _ => false
  | InsertTextBefore _ Str => negb (String.eqb Str "*/")
  end.

(** The other edits: [//] before a directive, the openers and closers of
    deletion runs. *)
Definition MarkerEdits (Buf : list Edit) : list Edit :=
  filter (fun Ed => negb (IsExpansionEdit Ed)) Buf.

(** No offset is smaller than an offset before it in the list. *)
Fixpoint NonDecreasing (l : list N) : Prop :=
  match l with
  | [] => True
  | a :: r => Forall (fun b => (a <= b)%N) r /\ NonDecreasing r
  end.

(** ** Well-formed runs *)

Section RunPredicates.

Variable SM : SourceManager.
Variable RawTokens : list Token.

(** No preprocessed token of the main file, the preprocessor's end-of-file
    token included, lies beyond the raw end-of-file token [E]; one at the
    offset of [E] is an end-of-file token that matches [E]. *)
Definition ExpansionWithinFile (E : Token) (P : Preprocessor) : Prop :=
  forall T, In T (EofToken (EofLoc P) :: Pending P) ->
    FromMain SM T = true ->
    (PPOffsOf SM T < RawOffsOf SM E)%N \/
    (PPOffsOf SM T = RawOffsOf SM E /\ is_ T tok_eof = true /\
     isSameToken E T = true).

(** The raw tokens are laid out one after the other in the file, whose
    offsets fit [unsigned]. *)
Definition InFileOrder : Prop :=
  forall i A B,
    nth_error RawTokens i = Some A -> nth_error RawTokens (S i) = Some B ->
    (RawOffsOf SM A + getLength A <= RawOffsOf SM B)%N /\
    (RawOffsOf SM A + getLength A < UINT_MOD)%N.

(** Every raw identifier has its identifier info, as the raw lexing
    pass of lines 79-80 leaves it. *)
Definition IdentifiersResolved : Prop :=
  forall T, In T RawTokens -> is_ T tok_identifier = true ->
    getIdentifierInfo T <> None.

(** The preprocessor's end-of-file token belongs to the main file and is
    not before any raw token, and no token it returns earlier is an
    end-of-file token. *)
Definition ExpansionEndsFile (P : Preprocessor) : Prop :=
  FromMain SM (EofToken (EofLoc P)) = true /\
  Forall (fun X => is_ X tok_eof = false) (Pending P) /\
  forall T, In T RawTokens ->
    (RawOffsOf SM T <= PPOffsOf SM (EofToken (EofLoc P)))%N.

(** The raw cursor is one past the raw token held in the state. *)
Definition RawInv (st : State) : Prop :=
  1 <= CurRawTok st /\ CurRawTok st <= List.length RawTokens /\
  nth_error RawTokens (pred (CurRawTok st)) = Some (RawTok st).

(** The preprocessed token held and the tokens pending come from the
    stream of [P0]. *)
Definition PPFrom (P0 : Preprocessor) (T : Token) (P : Preprocessor) : Prop :=
  EofLoc P = EofLoc P0 /\
  forall X, In X (T :: Pending P) -> In X (EofToken (EofLoc P0) :: Pending P0).

(** End-of-file comes last in the preprocessed stream, and only there. *)
Definition PPEnd (T : Token) (P : Preprocessor) : Prop :=
  (is_ T tok_eof = true -> T = EofToken (EofLoc P) /\ Pending P = []) /\
  Forall (fun X => is_ X tok_eof = false) (Pending P).

(** The preprocessed token stands for the raw token: it is a token of
    the main file, not the end-of-file token, at the same offset, and
    isSameToken accepts the pair. *)
Definition SameSpot (Raw PPT : Token) : Prop :=
  FromMain SM PPT = true /\
  is_ PPT tok_eof = false /\
  PPOffsOf SM PPT = RawOffsOf SM Raw /\
  isSameToken Raw PPT = true.

(** The preprocessor returns the raw tokens unexpanded, with tokens of
    other files in between wherever files are included, and then an
    end-of-file token of the main file. *)
Definition Unexpanded (P : Preprocessor) : Prop :=
  Forall2 SameSpot (PlainExpansion false RawTokens)
          (filter (FromMain SM) (Pending P)) /\
  FromMain SM (EofToken (EofLoc P)) = true.

(** The raw tokens stand at strictly increasing offsets: every token
    before the last takes at least one byte. *)
Definition StrictlyInOrder : Prop :=
  forall i j A B, i < j ->
    nth_error RawTokens i = Some A -> nth_error RawTokens j = Some B ->
    (RawOffsOf SM A < RawOffsOf SM B)%N.

(** Only the last raw token is an end-of-file token. *)
Definition EofOnlyLast : Prop :=
  forall i T, nth_error RawTokens i = Some T -> is_ T tok_eof = true ->
    S i = List.length RawTokens.

(** No edit so far, and the main-file tokens the preprocessor has yet to
    return stand for the raw tokens from the one held on. *)
Definition Aligned (L0 : SourceLocation) (st : State) : Prop :=
  RB st = [] /\ RawInv st /\
  exists L,
    Forall2 SameSpot
      (PlainExpansion false (skipn (pred (CurRawTok st)) RawTokens))
      (filter (FromMain SM) L) /\
    (PPTok st, PP st) = Lex (mkPP L L0).

(** What holds of every state of a run over an unexpanded file. *)
Definition PlainInv (L0 : SourceLocation) (st : State) : Prop :=
  Aligned L0 st /\
  is_ (RawTok st) tok_comment = false /\
  CursorOnTrack Aligning (skipn (pred (CurRawTok st)) RawTokens) = true.

(** What holds of every state of a run from [P0]. *)
Definition RunInv (P0 : Preprocessor) (st : State) : Prop :=
  RawInv st /\ PPFrom P0 (PPTok st) (PP st) /\ PPEnd (PPTok st) (PP st).

(** The marker edits issued so far are in order and not beyond the raw
    token held in the state. *)
Definition EditInv (st : State) : Prop :=
  1 <= CurRawTok st /\
  nth_error RawTokens (pred (CurRawTok st)) = Some (RawTok st) /\
  NonDecreasing (map EditOffset (MarkerEdits (RB st))) /\
  Forall (fun a => (a <= RawOffsOf SM (RawTok st))%N)
         (map EditOffset (MarkerEdits (RB st))).

(** How far the two cursors are from the end. *)
Definition RawLeft (st : State) : nat :=
  List.length RawTokens - CurRawTok st.

Definition ExpansionLeftOf (T : Token) (P : Preprocessor) : nat :=
  if is_ T tok_eof then 0 else S (List.length (Pending P)).

Definition ExpansionLeft (st : State) : nat :=
  ExpansionLeftOf (PPTok st) (PP st).

(** A bound on the iterations left of a run over an unexpanded file. *)
Definition StepsLeft (st : State) : nat :=
  RawLeft st + List.length (Pending (PP st)) +
  (if FromMain SM (PPTok st) then 0 else 1).

(** The states a run from [P] goes through. *)
Inductive Reachable (P : Preprocessor) : State -> Prop :=
| reach_init (st : State) :
    InitState RawTokens P = Done st -> Reachable P st
| reach_step (fuel : nat) (st st' : State) :
    Reachable P st -> LoopCond st = true ->
    LoopBody SM RawTokens fuel st = Done st' -> Reachable P st'.

End RunPredicates.

(** ** What the edits of a run look like *)

Definition StartsWithSpace (Str : string) : bool :=
  match Str with
  | String c _ => Ascii.eqb c " "
  | EmptyString => false
  end.

Fixpoint EndsWithSpace (Str : string) : bool :=
  match Str with
  | EmptyString => false
  | String c EmptyString => Ascii.eqb c " "
  | String _ Rest => EndsWithSpace Rest
  end.

(** The texts the loop can insert: [//], an opener, the closer, or a text
    with a space at both ends. *)
Definition WellShaped (Ed : Edit) : bool :=
  match Ed with
  | InsertTextAfter _ Str =>
      String.eqb Str "//" || String.eqb Str " /*" || String.eqb Str "/*"
  | InsertTextBefore _ Str =>
      String.eqb Str "*/" || (StartsWithSpace Str && EndsWithSpace Str)
  end.

Definition IsOpener (Ed : Edit) : bool :=
  match Ed with
  | InsertTextAfter _ Str => String.eqb Str " /*" || String.eqb Str "/*"
  | InsertTextBefore _ _ => false
  end.

Definition IsCloser (Ed : Edit) : bool :=
  match Ed with
  | InsertTextAfter _ _ => false
  | InsertTextBefore _ Str => String.eqb Str "*/"
  end.

(** Every opener is directly followed by a closer, and a closer stands
    nowhere else. *)
Fixpoint OpenersClosed (Buf : list Edit) : bool :=
  match Buf with
  | [] => true
  | Ed :: Rest =>
      if IsOpener Ed then
        match Rest with
        | Cl :: Rest' => IsCloser Cl && OpenersClosed Rest'
        | [] => false
        end
      else negb (IsCloser Ed) && OpenersClosed Rest
  end.

(** The longest prefix of tokens that are not end-of-file tokens. *)
Fixpoint BeforeEof (Toks : list Token) : list Token :=
  match Toks with
  | [] => []
  | T :: Rest => if is_ T tok_eof then [] else T :: BeforeEof Rest
  end.

(** The first end-of-file token of the list, or [Dflt]. *)
Fixpoint FirstEof (Dflt : Token) (Toks : list Token) : Token :=
  match Toks with
  | [] => Dflt
  | T :: Rest => if is_ T tok_eof then T else FirstEof Dflt Rest
  end.

(** The edit is not placed inside the bytes that lie after offset [From]
    and before offset [To]. *)
Definition OutsideOf (From To : N) (Ed : Edit) : Prop :=
  (EditOffset Ed <= From)%N \/ (To <= EditOffset Ed)%N.

Section ExtraPredicates.

Variable SM : SourceManager.
Variable RawTokens : list Token.

(** Where an edit is placed: [//] at a line-initial [#], an opener at a
    raw token, the closer at the end of a raw token and nowhere else, and
    a text that begins with a space, which the closer does not, at the
    offset of a preprocessed token of the main file. *)
Definition Anchored (Stream : list Token) (Ed : Edit) : Prop :=
  match Ed with
  | InsertTextAfter Offs Str =>
      exists T, In T RawTokens /\ Offs = RawOffsOf SM T /\
        ((Str = "//"%string /\ is_ T tok_hash = true /\
          isAtStartOfLine T = true) \/
         Str = Opener (hasLeadingSpace T))
  | InsertTextBefore Offs Str =>
      (Str = "*/"%string /\
       exists D, In D RawTokens /\
                 Offs = uadd (RawOffsOf SM D) (getLength D)) \/
      (StartsWithSpace Str = true /\
       exists T, In T Stream /\ FromMain SM T = true /\
                 Offs = PPOffsOf SM T)
  end.

(** The preprocessor returns no token of the main file from the bytes
    that lie after offset [From] and before offset [To]: the tokens of a
    directive line are used up by the directive. *)
Definition NothingReturnedWithin (From To : N) (P : Preprocessor) : Prop :=
  forall T, In T (EofToken (EofLoc P) :: Pending P) ->
    FromMain SM T = true ->
    (PPOffsOf SM T <= From)%N \/ (To <= PPOffsOf SM T)%N.

(** The edits one iteration adds, from the state it starts in. *)
Definition IterationEdits (st : State) (Delta : list Edit) : Prop :=
  Delta = [] \/
  (Delta = [InsertTextAfter (RawOffsOf SM (RawTok st)) "//"] /\
   is_ (RawTok st) tok_hash = true /\ isAtStartOfLine (RawTok st) = true) \/
  (exists EndPos D,
     Delta = [InsertTextAfter (RawOffsOf SM (RawTok st))
                (Opener (hasLeadingSpace (RawTok st)));
              InsertTextBefore EndPos "*/"] /\
     In D RawTokens /\
     EndPos = uadd (RawOffsOf SM D) (getLength D)) \/
  (exists Text,
     Delta = [InsertTextBefore (PPOffsOf SM (PPTok st)) Text] /\
     FromMain SM (PPTok st) = true /\
     StartsWithSpace Text = true /\ EndsWithSpace Text = true).

(** The raw token held is the one before the cursor, and the
    preprocessor has only moved forward in the stream of [P0]. *)
Definition CursorInv (P0 : Preprocessor) (st : State) : Prop :=
  1 <= CurRawTok st /\ CurRawTok st <= List.length RawTokens /\
  nth_error RawTokens (pred (CurRawTok st)) = Some (RawTok st) /\
  EofLoc (PP st) = EofLoc P0 /\
  (exists n, Pending (PP st) = skipn n (Pending P0)) /\
  In (PPTok st) (EofToken (EofLoc P0) :: Pending P0).

(** Where the preprocessor is, within the stream of [P0]. *)
Definition InStream (P0 : Preprocessor) (T : Token) (P : Preprocessor)
    : Prop :=
  EofLoc P = EofLoc P0 /\
  (exists n, Pending P = skipn n (Pending P0)) /\
  In T (EofToken (EofLoc P0) :: Pending P0).

(** What holds of the edits of every state of a run from [P0]. *)
Definition BufferInv (P0 : Preprocessor) (st : State) : Prop :=
  CursorInv P0 st /\
  Forall (fun Ed => WellShaped Ed = true) (RB st) /\
  OpenersClosed (RB st) = true /\
  Forall (Anchored (EofToken (EofLoc P0) :: Pending P0)) (RB st).

(** The condition on which a deletion run goes on after fetching [T]. *)
Definition StaysInRun (PO : N) (PPT T : Token) : bool :=
  (RawOffsOf SM T <=? PO)%N && negb (isAtStartOfLine T) &&
  (negb (PO =? RawOffsOf SM T)%N || negb (isSameToken T PPT)).

End ExtraPredicates.

(** ** Streams used in the examples *)

Module Examples.

Local Open Scope N_scope.

(** A source manager for examples: a location below [ForeignBase] is that
    offset of the main file, a location from [ForeignBase] on is an offset
    of an included file; every location is its own instantiation location. *)
Definition ForeignBase : N := 1000000.

Definition FileSM : SourceManager :=
  mkSM (fun L => L)
       (fun L => (L <? ForeignBase)%N)
       (fun L => if (L <? ForeignBase)%N then L else (L - ForeignBase)%N).

Definition Ident (Name : string) (Offs : N) (SOL Space : bool) : Token :=
  mkToken tok_identifier (Some (mkII Name)) Offs
          (N.of_nat (String.length Name)) SOL Space Name.

Definition Punct (K : TokenKind) (Text : string) (Offs : N)
    (SOL Space : bool) : Token :=
  mkToken K None Offs (N.of_nat (String.length Text)) SOL Space Text.

Definition Comment (Text : string) (Offs : N) (SOL Space : bool) : Token :=
  Punct tok_comment Text Offs SOL Space.

Definition RawEof (Offs : N) : Token :=
  mkToken tok_eof None Offs 0 false false EmptyString.

(** [X;] where the command line defines [X] as [1]. *)
Definition MacroX_raw : list Token :=
  [ Ident "X" 0 true false; Punct tok_semi ";" 1 false false; RawEof 2 ].

Definition MacroX_pp : Preprocessor :=
  mkPP [ Punct tok_numeric_constant "1" 0 true false;
         Punct tok_semi ";" 1 false false ] 2.

(** [EMPTY /*c*/ int z;] where [EMPTY] expands to nothing.  The
    preprocessor returns [int] as a keyword. *)
Definition Empty_raw : list Token :=
  [ Ident "EMPTY" 0 true false;
    Comment "/*c*/" 6 false true;
    Ident "int" 12 false true;
    Ident "z" 16 false true;
    Punct tok_semi ";" 17 false false;
    RawEof 18 ].

Definition Empty_pp : Preprocessor :=
  mkPP [ mkToken tok_kw_int (Some (mkII "int")) 12 3 false true "int";
         Ident "z" 16 false true;
         Punct tok_semi ";" 17 false false ] 18.

(** [#warning "old"], a line break, [int z;]. *)
Definition Warning_raw : list Token :=
  [ Punct tok_hash "#" 0 true false;
    Ident "warning" 1 false false;
    Punct tok_string_literal "'old'" 9 false true;
    Ident "int" 15 true false;
    Ident "z" 19 false true;
    Punct tok_semi ";" 20 false false;
    RawEof 21 ].

Definition Warning_pp : Preprocessor :=
  mkPP [ mkToken tok_kw_int (Some (mkII "int")) 15 3 true false "int";
         Ident "z" 19 false true;
         Punct tok_semi ";" 20 false false ] 21.

(** [#pragma mark here] and [#include <a>], each on a line of its own. *)
Definition Pragma_raw : list Token :=
  [ Punct tok_hash "#" 0 true false;
    Ident "pragma" 1 false false;
    Ident "mark" 8 false true;
    Ident "here" 13 false true;
    Punct tok_hash "#" 18 true false;
    Ident "include" 19 false false;
    Punct tok_less "<" 27 false true;
    Ident "a" 28 false false;
    Punct tok_greater ">" 29 false false;
    RawEof 31 ].

Definition Pragma_pp : Preprocessor := mkPP [] 31.

(** [int /*a*/ /*b*/ z;], no macro at all. *)
Definition TwoComments_raw : list Token :=
  [ Ident "int" 0 true false;
    Comment "/*a*/" 4 false true;
    Comment "/*b*/" 10 false true;
    Ident "z" 16 false true;
    Punct tok_semi ";" 17 false false;
    RawEof 18 ].

Definition TwoComments_pp : Preprocessor :=
  mkPP [ mkToken tok_kw_int (Some (mkII "int")) 0 3 true false "int";
         Ident "z" 16 false true;
         Punct tok_semi ";" 17 false false ] 18.

(** A comment, [#include <a>], [#define A] with two comments after it on
    the line, and [int z;]: no macro invocation.  The included file gives
    the preprocessor two tokens to return. *)
Definition Quiet_raw : list Token :=
  [ Comment "/*c*/" 0 true false;
    Punct tok_hash "#" 6 true false;
    Ident "include" 7 false false;
    Punct tok_less "<" 15 false true;
    Ident "a" 16 false false;
    Punct tok_greater ">" 17 false false;
    Punct tok_hash "#" 19 true false;
    Ident "define" 20 false false;
    Ident "A" 27 false true;
    Comment "/*a*/" 29 false true;
    Comment "/*b*/" 35 false true;
    Ident "int" 41 true false;
    Ident "z" 45 false true;
    Punct tok_semi ";" 46 false false;
    RawEof 48 ].

Definition Quiet_pp : Preprocessor :=
  mkPP [ Ident "extern" 1000000 true false;
         Punct tok_semi ";" 1000006 false false;
         mkToken tok_kw_int (Some (mkII "int")) 41 3 true false "int";
         Ident "z" 45 false true;
         Punct tok_semi ";" 46 false false ] 48.

(** [#define A], and on the next line a comment and [int z;]: no macro
    invocation. *)
Definition Overrun_raw : list Token :=
  [ Punct tok_hash "#" 0 true false;
    Ident "define" 1 false false;
    Ident "A" 8 false true;
    Comment "/*c*/" 10 true false;
    Ident "int" 16 false true;
    Ident "z" 20 false true;
    Punct tok_semi ";" 21 false false;
    RawEof 23 ].

Definition Overrun_pp : Preprocessor :=
  mkPP [ mkToken tok_kw_int (Some (mkII "int")) 16 3 false true "int";
         Ident "z" 20 false true;
         Punct tok_semi ";" 21 false false ] 23.

(** [#if 0], [int x;], [#endif] and [int z;], each on a line of its
    own: no macro invocation, and a line the preprocessor leaves out. *)
Definition Excluded_raw : list Token :=
  [ Punct tok_hash "#" 0 true false;
    Ident "if" 1 false false;
    Punct tok_numeric_constant "0" 4 false true;
    Ident "int" 6 true false;
    Ident "x" 10 false true;
    Punct tok_semi ";" 11 false false;
    Punct tok_hash "#" 13 true false;
    Ident "endif" 14 false false;
    Ident "int" 20 true false;
    Ident "z" 24 false true;
    Punct tok_semi ";" 25 false false;
    RawEof 27 ].

Definition Excluded_pp : Preprocessor :=
  mkPP [ mkToken tok_kw_int (Some (mkII "int")) 20 3 true false "int";
         Ident "z" 24 false true;
         Punct tok_semi ";" 25 false false ] 27.

(** [Warning_raw] as the preprocessor returns it. *)
Definition WarningPlain_pp : Preprocessor :=
  mkPP (PlainExpansion false Warning_raw) 21.

(** Two pairs of streams that no file gives, to see what the conditions
    on the preprocessed stream are for.  [X] alone, with a preprocessor
    whose end-of-file token lies one past the raw end-of-file token. *)
Definition Beyond_raw : list Token :=
  [ Ident "X" 0 true false; RawEof 1 ].

Definition Beyond_pp : Preprocessor := mkPP [] 2.

(** [X] at offset 4, with a preprocessor whose end-of-file token is at
    offset 0. *)
Definition Behind_raw : list Token :=
  [ Ident "X" 4 true true; RawEof 5 ].

Definition Behind_pp : Preprocessor := mkPP [] 0.

(** The identifier table of the examples: one entry per spelling. *)
Definition SpellingTable (T : Token) : IdentifierInfo :=
  mkII (getSpelling T).

(** The raw lexer over [X;]: the identifier comes without identifier
    info. *)
Definition MacroX_lexer : Lexer :=
  mkLexer [ mkToken tok_identifier None 0 1 true false "X";
            Punct tok_semi ";" 1 false false ] 2.

(** An empty main file whose preprocessor still has two tokens of an
    included file to return. *)
Definition Header_pp : Preprocessor :=
  mkPP [ Ident "extern" 1000000 true false;
         Punct tok_semi ";" 1000006 false false ] 0.

(** States of these runs: [_st0] is the state the loop starts in, and
    [_st1], [_st2] follow after one and two iterations. *)
Definition StateOf (o : Outcome State) : State :=
  match o with
  | Done s => s
  | _ => mkState 0 (RawEof 0) (RawEof 0) (mkPP [] 0) []
  end.

Definition Warning_st0 : State :=
  Eval vm_compute in StateOf (InitState Warning_raw Warning_pp).
Definition Warning_st1 : State :=
  Eval vm_compute in StateOf (LoopBody FileSM Warning_raw 10 Warning_st0).

Definition Empty_st0 : State :=
  Eval vm_compute in StateOf (InitState Empty_raw Empty_pp).
Definition Empty_st1 : State :=
  Eval vm_compute in StateOf (LoopBody FileSM Empty_raw 10 Empty_st0).

Definition Pragma_st0 : State :=
  Eval vm_compute in StateOf (InitState Pragma_raw Pragma_pp).
Definition Pragma_st1 : State :=
  Eval vm_compute in StateOf (LoopBody FileSM Pragma_raw 10 Pragma_st0).
Definition Pragma_st2 : State :=
  Eval vm_compute in StateOf (LoopBody FileSM Pragma_raw 10 Pragma_st1).

Definition MacroX_st0 : State :=
  Eval vm_compute in StateOf (InitState MacroX_raw MacroX_pp).
Definition MacroX_st1 : State :=
  Eval vm_compute in StateOf (LoopBody FileSM MacroX_raw 10 MacroX_st0).
Definition Behind_st0 : State :=
  Eval vm_compute in StateOf (InitState Behind_raw Behind_pp).

Definition MacroX_st2 : State :=
  Eval vm_compute in StateOf (LoopBody FileSM MacroX_raw 10 MacroX_st1).

End Examples.

(** * Properties *)

(** ** Comparing names and kinds *)

Lemma kind_eqb_eq (a b : TokenKind) : kind_eqb a b = true <-> a = b.
Proof.
  unfold kind_eqb. destruct (TokenKind_eq_dec a b); split; congruence.
Qed.

Lemma II_eqb_eq (a b : IdentifierInfo) : II_eqb a b = true <-> a = b.
Proof.
  destruct a as [n], b as [m]. unfold II_eqb. simpl.
  rewrite String.eqb_eq. split; congruence.
Qed.

Lemma IIptr_eqb_eq (a b : option IdentifierInfo) :
  IIptr_eqb a b = true <-> a = b.
Proof.
  destruct a as [x|], b as [y|]; simpl; try (split; congruence).
  rewrite II_eqb_eq. split; congruence.
Qed.

Lemma is_true_iff (T : Token) (K : TokenKind) :
  is_ T K = true <-> getKind T = K.
Proof. apply kind_eqb_eq. Qed.

(** C5: isSameToken holds exactly when the tokens have the same kind and
    the same (possibly null) identifier info, or share one non-null
    identifier info whatever their kinds. *)
Theorem isSameToken_iff (Raw PPT : Token) :
  isSameToken Raw PPT = true <->
  (getKind Raw = getKind PPT /\
   getIdentifierInfo Raw = getIdentifierInfo PPT) \/
  (exists II, getIdentifierInfo Raw = Some II /\
              getIdentifierInfo PPT = Some II).
Proof.
  unfold isSameToken. split.
  - intros H.
    destruct (kind_eqb (getKind PPT) (getKind Raw)) eqn:Hk;
    destruct (IIptr_eqb (getIdentifierInfo PPT) (getIdentifierInfo Raw)) eqn:Hi;
    simpl in H; try rewrite andb_false_r in H; try discriminate.
    + apply kind_eqb_eq in Hk. apply IIptr_eqb_eq in Hi.
      left. split; congruence.
    + apply IIptr_eqb_eq in Hi.
      destruct (getIdentifierInfo PPT) as [II|] eqn:Hp; [|discriminate].
      right. exists II. split; congruence.
  - intros [[Hk Hi] | [II [H1 H2]]].
    + assert (K : kind_eqb (getKind PPT) (getKind Raw) = true)
        by (apply kind_eqb_eq; congruence).
      assert (I : IIptr_eqb (getIdentifierInfo PPT) (getIdentifierInfo Raw) = true)
        by (apply IIptr_eqb_eq; congruence).
      rewrite K, I. reflexivity.
    + assert (I : IIptr_eqb (getIdentifierInfo PPT) (getIdentifierInfo Raw) = true)
        by (apply IIptr_eqb_eq; congruence).
      rewrite I, H2.
      destruct (kind_eqb (getKind PPT) (getKind Raw)); reflexivity.
Qed.

(** ** The raw cursor *)

Lemma nth_error_skipn (A : Type) (l : list A) (n : nat) (a : A) :
  nth_error l n = Some a -> skipn n l = a :: skipn (S n) l.
Proof.
  revert l. induction n as [|n IH]; intros [|x l] H; simpl in *;
    try discriminate.
  - congruence.
  - apply IH. exact H.
Qed.

Lemma GetNextRawTok_plain (l : list Token) (c : nat) (b : bool) (t : Token) :
  nth_error l c = Some t ->
  b = true \/ is_ t tok_comment = false ->
  GetNextRawTok l c b = Done (t, S c).
Proof.
  intros Hn Hb. unfold GetNextRawTok.
  assert (Hlt : c < List.length l) by (apply nth_error_Some; congruence).
  apply Nat.ltb_lt in Hlt. rewrite Hlt, Hn.
  assert (Hs : negb b && is_ t tok_comment = false).
  { destruct Hb as [-> | ->]; [reflexivity | apply andb_false_r]. }
  rewrite Hs, Hn. reflexivity.
Qed.

Lemma GetNextRawTok_skip (l : list Token) (c : nat) (k t : Token) :
  nth_error l c = Some k ->
  is_ k tok_comment = true ->
  nth_error l (S c) = Some t ->
  GetNextRawTok l c false = Done (t, S (S c)).
Proof.
  intros Hn Hk Ht. unfold GetNextRawTok.
  assert (Hlt : c < List.length l) by (apply nth_error_Some; congruence).
  apply Nat.ltb_lt in Hlt. rewrite Hlt, Hn, Hk. cbn [negb andb].
  rewrite Ht. reflexivity.
Qed.

Lemma GetNextRawTok_Done (l : list Token) (c : nat) (b : bool)
    (t : Token) (c' : nat) :
  GetNextRawTok l c b = Done (t, c') ->
  nth_error l (pred c') = Some t /\ c' <= List.length l /\
  (c' = S c /\ nth_error l c = Some t \/
   c' = S (S c) /\ b = false /\
   exists k, nth_error l c = Some k /\ is_ k tok_comment = true).
Proof.
  unfold GetNextRawTok. intros H.
  destruct (c <? List.length l) eqn:Hlt; [|discriminate].
  destruct (nth_error l c) as [k|] eqn:Hk; [|discriminate].
  destruct (negb b && is_ k tok_comment) eqn:Hs.
  - destruct (nth_error l (S c)) as [r|] eqn:Hr; [|discriminate].
    inversion H; subst. simpl. split; [exact Hr|]. split.
    + apply nth_error_Some. congruence.
    + right. apply andb_true_iff in Hs. destruct Hs as [Hb Hc].
      repeat split; [destruct b; [discriminate|reflexivity]|].
      exists k. split; [reflexivity | exact Hc].
  - rewrite Hk in H. inversion H; subst. simpl. split; [exact Hk|]. split.
    + apply Nat.ltb_lt in Hlt. lia.
    + left. split; reflexivity.
Qed.

Lemma GetNextRawTok_advances (l : list Token) (c : nat) (b : bool)
    (t : Token) (c' : nat) :
  GetNextRawTok l c b = Done (t, c') ->
  c < c' /\ c' <= S (S c) /\ c' <= List.length l /\
  nth_error l (pred c') = Some t.
Proof.
  intros H. apply GetNextRawTok_Done in H.
  destruct H as [Hn [Hl [[-> _] | [-> _]]]]; repeat split; auto; lia.
Qed.

Lemma EndsWithEof_last (l : list Token) (E : Token) :
  EndsWithEof l E ->
  nth_error l (pred (List.length l)) = Some E /\ 0 < List.length l.
Proof.
  intros [Body [-> _]]. rewrite length_app. simpl.
  replace (pred (List.length Body + 1)) with (List.length Body) by lia.
  rewrite nth_error_app2 by lia. rewrite Nat.sub_diag. simpl.
  split; [reflexivity | lia].
Qed.

Lemma comment_not_eof (t : Token) :
  is_ t tok_comment = true -> is_ t tok_eof = false.
Proof.
  intros H. apply is_true_iff in H. unfold is_. rewrite H. reflexivity.
Qed.

(** With the end-of-file token last, a comment is never the last token, so
    a call below the size of the vector returns. *)
Lemma GetNextRawTok_total (l : list Token) (E : Token) (c : nat) (b : bool) :
  EndsWithEof l E -> c < List.length l ->
  exists t c', GetNextRawTok l c b = Done (t, c').
Proof.
  intros HE Hlt.
  destruct (nth_error l c) as [k|] eqn:Hk;
    [|apply nth_error_None in Hk; lia].
  destruct (negb b && is_ k tok_comment) eqn:Hs.
  - apply andb_true_iff in Hs. destruct Hs as [Hb Hc].
    destruct b; [discriminate|].
    destruct (EndsWithEof_last _ _ HE) as [Hlast _].
    assert (Hne : c <> pred (List.length l)).
    { intros ->. rewrite Hlast in Hk. inversion Hk; subst.
      destruct HE as [_ [_ He]]. apply comment_not_eof in Hc. congruence. }
    destruct (nth_error l (S c)) as [t|] eqn:Ht;
      [|apply nth_error_None in Ht; lia].
    exists t, (S (S c)). eapply GetNextRawTok_skip; eauto.
  - exists k, (S c). apply GetNextRawTok_plain; [exact Hk|].
    destruct b; [left; reflexivity | right; exact Hs].
Qed.

(** C10: with ReturnComment false and the cursor on the first of two
    consecutive comments, one comment is skipped and the second comment is
    the token returned. *)
Theorem GetNextRawTok_returns_second_comment (RawTokens : list Token)
    (CurTok : nat) (C1 C2 : Token) :
  nth_error RawTokens CurTok = Some C1 ->
  nth_error RawTokens (S CurTok) = Some C2 ->
  is_ C1 tok_comment = true ->
  is_ C2 tok_comment = true ->
  GetNextRawTok RawTokens CurTok false = Done (C2, S (S CurTok)) /\
  is_ C2 tok_comment = true.
Proof.
  intros H1 H2 K1 K2. split; [|exact K2].
  eapply GetNextRawTok_skip; eauto.
Qed.

(** ** Strings *)

Lemma append_nil_right (s : string) : (s ++ "")%string = s.
Proof. induction s as [|a s IH]; simpl; [reflexivity | now rewrite IH]. Qed.

Lemma append_associative (a b c : string) :
  ((a ++ b) ++ c)%string = (a ++ (b ++ c))%string.
Proof. induction a as [|x a IH]; simpl; [reflexivity | now rewrite IH]. Qed.

(** ** One iteration, branch by branch *)

Section Branches.

Variable SM : SourceManager.
Variable RawTokens : list Token.

#[local] Abbreviation RawOffs := (RawOffsOf SM).
#[local] Abbreviation PPOffs := (PPOffsOf SM).

Lemma CommentOutDirective_Done (Hash : Token) (Cur : nat)
    (Buf Buf' : list Edit) :
  CommentOutDirective SM RawTokens Hash Cur Buf = Done Buf' ->
  Buf' = Buf ++ (if WarningOrPragmaMark (skipn Cur RawTokens)
                 then [InsertTextAfter (RawOffs Hash) "//"] else []).
Proof.
  unfold CommentOutDirective, WarningOrPragmaMark, IsIdentifierNamed, NameIs.
  destruct (nth_error RawTokens Cur) as [T1|] eqn:H1; [|discriminate].
  rewrite (nth_error_skipn _ _ _ _ H1).
  remember (skipn (S Cur) RawTokens) as R1 eqn:HR1.
  destruct (is_ T1 tok_identifier); simpl;
    [|intros H; inversion H; now rewrite app_nil_r].
  destruct (getIdentifierInfo T1) as [II1|]; simpl; [|discriminate].
  destruct (getName II1 =? "warning")%string; simpl;
    [intros H; now inversion H|].
  destruct (getName II1 =? "pragma")%string; simpl;
    [|intros H; inversion H; now rewrite app_nil_r].
  replace (Cur + 1) with (S Cur) by lia.
  destruct (nth_error RawTokens (S Cur)) as [T2|] eqn:H2; [|discriminate].
  rewrite (nth_error_skipn _ _ _ _ H2) in HR1. subst R1.
  destruct (is_ T2 tok_identifier); simpl;
    [|intros H; inversion H; now rewrite app_nil_r].
  destruct (getIdentifierInfo T2) as [II2|]; simpl; [|discriminate].
  destruct (getName II2 =? "mark")%string; simpl;
    intros H; inversion H; [reflexivity | now rewrite app_nil_r].
Qed.

(** What a deletion run returns: its end position is the end of a token
    of the run, and the token it stops on lies after that token. *)
Lemma DeletionRun_Done (fuel : nat) (PO : N) (PPT : Token) :
  forall (RO : N) (Tok : Token) (Cur : nat) (EndPos : N) (T : Token) (C : nat),
  DeletionRun SM RawTokens fuel PO PPT RO Tok Cur = Done (EndPos, T, C) ->
  Cur < C /\ C <= List.length RawTokens /\
  nth_error RawTokens (pred C) = Some T /\
  (EndPos = uadd RO (getLength Tok) \/
   exists k D, Cur <= k /\ S k < C /\ nth_error RawTokens k = Some D /\
               EndPos = uadd (RawOffs D) (getLength D)).
Proof.
  induction fuel as [|fuel IH]; intros RO Tok Cur EndPos T C; simpl;
    [discriminate|].
  destruct (GetNextRawTok RawTokens Cur true) as [[T1 C1]| |] eqn:G1; simpl;
    try discriminate.
  destruct (GetNextRawTok_Done _ _ _ _ _ G1) as [N1 [L1 [[E1 M1] | [_ [B _]]]]];
    [subst C1 | discriminate].
  destruct (is_ T1 tok_comment) eqn:K1.
  - destruct (GetNextRawTok RawTokens (S Cur) false) as [[T2 C2]| |] eqn:G2;
      simpl; try discriminate.
    intros H. inversion H; subst.
    destruct (GetNextRawTok_advances _ _ _ _ _ G2) as [A1 [A2 [A3 A4]]].
    repeat split; auto; lia.
  - match goal with |- context [if ?c then _ else _] => destruct c end.
    + intros H. apply IH in H. destruct H as [A1 [A2 [A3 A4]]].
      repeat split; auto; try lia.
      right. destruct A4 as [-> | [k [D [K1' [K2 [K3 K4]]]]]].
      * exists Cur, T1. repeat split; auto; lia.
      * exists k, D. repeat split; auto; lia.
    + intros H. inversion H; subst. simpl. repeat split; auto.
Qed.

(** The tokens a deletion run deletes: the raw token held and those
    after it up to the token [Stop] at index [j], the first fetched that
    is a comment or that the loop condition turns down.  The end position
    is the end of [Last], the token before [Stop]. *)
Lemma DeletionRun_span (fuel : nat) (PO : N) (PPT : Token) :
  forall (Tok : Token) (Cur : nat) (EndPos : N) (T : Token) (C : nat),
  1 <= Cur -> nth_error RawTokens (pred Cur) = Some Tok ->
  DeletionRun SM RawTokens fuel PO PPT (RawOffs Tok) Tok Cur
    = Done (EndPos, T, C) ->
  exists j Last Stop,
    Cur <= j /\
    nth_error RawTokens (pred j) = Some Last /\
    nth_error RawTokens j = Some Stop /\
    (forall i X, Cur <= i < j -> nth_error RawTokens i = Some X ->
       is_ X tok_comment = false /\ StaysInRun SM PO PPT X = true) /\
    (is_ Stop tok_comment = true \/ StaysInRun SM PO PPT Stop = false) /\
    EndPos = uadd (RawOffs Last) (getLength Last).
Proof.
  induction fuel as [|fuel IH]; intros Tok Cur EndPos T C H1 HTok; simpl;
    [discriminate|].
  destruct (GetNextRawTok RawTokens Cur true) as [[T1 C1]| |] eqn:G1; simpl;
    try discriminate.
  destruct (GetNextRawTok_Done _ _ _ _ _ G1) as [_ [_ [[E1 M1] | [_ [B _]]]]];
    [subst C1 | discriminate].
  destruct (is_ T1 tok_comment) eqn:K1.
  - destruct (GetNextRawTok RawTokens (S Cur) false) as [[T2 C2]| |];
      simpl; try discriminate.
    intros H. inversion H; subst.
    exists Cur, Tok, T1. split; [lia|]. split; [exact HTok|].
    split; [exact M1|]. split; [intros i X Hi; lia|]. auto.
  - fold (StaysInRun SM PO PPT T1).
    destruct (StaysInRun SM PO PPT T1) eqn:Hgo.
    + intros H.
      destruct (IH T1 (S Cur) EndPos T C ltac:(lia) M1 H)
        as [j [Last [Stop [J1 [J2 [J3 [J4 [J5 J6]]]]]]]].
      exists j, Last, Stop. split; [lia|]. split; [exact J2|].
      split; [exact J3|]. split; [|auto].
      intros i X Hi HX. destruct (Nat.eq_dec i Cur) as [->|Hne].
      * assert (X = T1) by congruence. subst. auto.
      * apply (J4 i X); auto. lia.
    + intros H. inversion H; subst.
      exists Cur, Tok, T. split; [lia|]. split; [exact HTok|].
      split; [exact M1|]. split; [intros i X Hi; lia|]. auto.
Qed.

(** The insertion loop cannot return while the preprocessor repeats an
    end-of-file token that lies below the raw offset. *)
Lemma InsertionRun_stuck (fuel : nat) (RO : N) (L : SourceLocation)
    (Ex : string) :
  (PPOffs (EofToken L) <? RO)%N = true ->
  InsertionRun SM fuel RO (EofToken L) (mkPP [] L) Ex = OutOfFuel.
Proof.
  intros Hb. revert Ex. induction fuel as [|fuel IH]; intros Ex; simpl;
    rewrite Hb; [reflexivity|].
  unfold Lex. simpl. apply IH.
Qed.

Lemma InsertionRun_Done (fuel : nat) (RO : N) :
  forall (PPT : Token) (P : Preprocessor) (Ex Ex' : string)
         (T : Token) (P' : Preprocessor),
  InsertionRun SM fuel RO PPT P Ex = Done (Ex', T, P') ->
  let Below := fun t => (PPOffs t <? RO)%N in
  Ex' = (Ex ++ Render (TakeBelow Below (PPT :: Pending P)))%string /\
  T = hd (EofToken (EofLoc P)) (DropBelow Below (PPT :: Pending P)) /\
  P' = mkPP (tl (DropBelow Below (PPT :: Pending P))) (EofLoc P).
Proof.
  induction fuel as [|fuel IH]; intros PPT [Pend L] Ex Ex' T P'; simpl.
  - destruct (PPOffs PPT <? RO)%N; [discriminate|].
    intros H. inversion H; subst. simpl.
    now rewrite append_nil_right.
  - destruct (PPOffs PPT <? RO)%N eqn:Hb.
    + unfold Lex. simpl. destruct Pend as [|T1 Rest]; simpl.
      * destruct (PPOffs (EofToken L) <? RO)%N eqn:He.
        -- rewrite InsertionRun_stuck by exact He. discriminate.
        -- destruct fuel; simpl; rewrite He; intros H; inversion H; subst;
             now rewrite append_nil_right.
      * intros H. apply IH in H. simpl in H.
        destruct H as [H1 [H2 H3]]. subst.
        rewrite append_associative. simpl. auto.
    + intros H. inversion H; subst. simpl.
      now rewrite append_nil_right.
Qed.

End Branches.

(** ** The whole loop: the raw cursor stays inside the vector *)

Section Safety.

Variable SM : SourceManager.
Variable RawTokens : list Token.
Variable E : Token.
Hypothesis HE : EndsWithEof RawTokens E.

#[local] Abbreviation RawOffs := (RawOffsOf SM).
#[local] Abbreviation PPOffs := (PPOffsOf SM).

Lemma E_is_eof : is_ E tok_eof = true.
Proof. destruct HE as [_ [_ H]]. exact H. Qed.

Lemma at_size_is_E (C : nat) (T : Token) :
  C = List.length RawTokens ->
  nth_error RawTokens (pred C) = Some T -> T = E.
Proof.
  intros -> H. destruct (EndsWithEof_last _ _ HE) as [Hl _]. congruence.
Qed.

Lemma not_eof_below_size (C : nat) (T : Token) :
  C <= List.length RawTokens ->
  nth_error RawTokens (pred C) = Some T ->
  is_ T tok_eof = false ->
  C < List.length RawTokens.
Proof.
  intros Hle Hn Hk.
  destruct (Nat.eq_dec C (List.length RawTokens)) as [Heq|Hne]; [|lia].
  rewrite (at_size_is_E _ _ Heq Hn), E_is_eof in Hk. discriminate.
Qed.

Lemma Lex_PPFrom (P0 : Preprocessor) (T : Token) (P : Preprocessor) :
  PPFrom P0 T P -> PPFrom P0 (fst (Lex P)) (snd (Lex P)).
Proof.
  intros [Hl Hin]. unfold Lex. destruct P as [Pend L]. simpl in *.
  destruct Pend as [|X Rest]; simpl; split; auto.
  - intros Y [<- | []]. left. now rewrite Hl.
  - intros Y HY. apply Hin. right. exact HY.
Qed.

Lemma InsertionRun_keeps (Q : Token -> Preprocessor -> Prop) (RO : N) :
  (forall T P, Q T P -> Q (fst (Lex P)) (snd (Lex P))) ->
  forall (fuel : nat) (PPT : Token) (P : Preprocessor) (Ex Ex' : string)
         (T : Token) (P' : Preprocessor),
  Q PPT P ->
  InsertionRun SM fuel RO PPT P Ex = Done (Ex', T, P') -> Q T P'.
Proof.
  intros HQ. induction fuel as [|fuel IH]; intros PPT P Ex Ex' T P' H0; simpl.
  - destruct (PPOffs PPT <? RO)%N; [discriminate|].
    intros H. now inversion H; subst.
  - destruct (PPOffs PPT <? RO)%N.
    + specialize (HQ _ _ H0). destruct (Lex P) as [T1 P1]. simpl in HQ.
      apply IH. exact HQ.
    + intros H. now inversion H; subst.
Qed.

Lemma InsertionRun_no_abort (fuel : nat) (RO : N) :
  forall (PPT : Token) (P : Preprocessor) (Ex : string) (f : Fault),
  InsertionRun SM fuel RO PPT P Ex <> Abort f.
Proof.
  induction fuel as [|fuel IH]; intros PPT P Ex f; simpl;
    destruct (PPOffs PPT <? RO)%N; try discriminate.
  destruct (Lex P) as [T1 P1]. apply IH.
Qed.

(** The skip over a directive line never leaves the vector. *)
Lemma SkipLine_run (fuel : nat) :
  forall (T : Token) (C : nat),
  1 <= C -> C <= List.length RawTokens ->
  nth_error RawTokens (pred C) = Some T ->
  match SkipLine RawTokens fuel T C with
  | Done (T', C') =>
      C <= C' /\ C' <= List.length RawTokens /\
      nth_error RawTokens (pred C') = Some T'
  | Abort _ => False
  | OutOfFuel => fuel < List.length RawTokens - C
  end.
Proof.
  induction fuel as [|fuel IH]; intros T C H1 H2 H3; simpl;
    destruct (negb (isAtStartOfLine T) && isNot T tok_eof) eqn:Hc;
    try (repeat split; auto; fail).
  - apply andb_true_iff in Hc. destruct Hc as [_ Hk].
    apply negb_true_iff in Hk.
    pose proof (not_eof_below_size _ _ H2 H3 Hk). lia.
  - apply andb_true_iff in Hc. destruct Hc as [_ Hk].
    apply negb_true_iff in Hk.
    pose proof (not_eof_below_size _ _ H2 H3 Hk) as Hlt.
    destruct (GetNextRawTok_total _ _ _ false HE Hlt) as [T' [C' G]].
    rewrite G. simpl.
    destruct (GetNextRawTok_advances _ _ _ _ _ G) as [A1 [A2 [A3 A4]]].
    specialize (IH T' C'). 
    destruct (SkipLine RawTokens fuel T' C') as [[T2 C2]| |].
    + destruct IH as [B1 [B2 B3]]; try lia; auto. repeat split; auto; lia.
    + apply IH; auto; lia.
    + assert (fuel < List.length RawTokens - C') by (apply IH; auto; lia).
      lia.
Qed.

(** A deletion run never leaves the vector when the preprocessed token
    does not lie beyond the raw end-of-file token. *)
Lemma DeletionRun_run (PPT : Token) :
  (PPOffs PPT < RawOffs E)%N \/
  (PPOffs PPT = RawOffs E /\ isSameToken E PPT = true) ->
  forall (fuel : nat) (RO : N) (Tok : Token) (Cur : nat),
  Cur < List.length RawTokens ->
  match DeletionRun SM RawTokens fuel (PPOffs PPT) PPT RO Tok Cur with
  | Done (_, T, C) =>
      Cur < C /\ C <= List.length RawTokens /\
      nth_error RawTokens (pred C) = Some T
  | Abort _ => False
  | OutOfFuel => fuel < List.length RawTokens - Cur
  end.
Proof.
  intros Hpp. induction fuel as [|fuel IH]; intros RO Tok Cur Hlt; simpl;
    [lia|].
  destruct (nth_error RawTokens Cur) as [T1|] eqn:H1;
    [|apply nth_error_None in H1; lia].
  rewrite (GetNextRawTok_plain _ _ true _ H1) by (left; reflexivity). simpl.
  assert (Hnl : is_ T1 tok_eof = false -> S Cur < List.length RawTokens).
  { intros Hk. apply (not_eof_below_size (S Cur) T1); auto. }
  destruct (is_ T1 tok_comment) eqn:Hc.
  - specialize (Hnl (comment_not_eof _ Hc)).
    destruct (GetNextRawTok_total _ _ _ false HE Hnl) as [T2 [C2 G]].
    rewrite G. simpl.
    destruct (GetNextRawTok_advances _ _ _ _ _ G) as [A1 [A2 [A3 A4]]].
    repeat split; auto; lia.
  - match goal with |- context [if ?c then _ else _] => destruct c eqn:Hgo end.
    + assert (Hs : S Cur < List.length RawTokens).
      { destruct (Nat.eq_dec (S Cur) (List.length RawTokens)) as [Heq|]; [|lia].
        exfalso.
        assert (T1 = E) by (apply (at_size_is_E (S Cur)); auto). subst T1.
        apply andb_true_iff in Hgo. destruct Hgo as [Hgo Hd].
        apply andb_true_iff in Hgo. destruct Hgo as [Hle _].
        apply N.leb_le in Hle.
        destruct Hpp as [Hb | [Heq' Hsame]]; [lia|].
        rewrite Hsame in Hd.
        assert ((PPOffs PPT =? RawOffs E)%N = true) by (apply N.eqb_eq; auto).
        rewrite H in Hd. discriminate. }
      specialize (IH (RawOffs T1) T1 (S Cur) Hs).
      destruct (DeletionRun SM RawTokens fuel (PPOffs PPT) PPT (RawOffs T1) T1 (S Cur))
        as [[[EP T] C]| |]; auto.
      * destruct IH as [B1 [B2 B3]]. repeat split; auto; lia.
      * lia.
    + simpl. repeat split; auto; lia.
Qed.

(** The look at the tokens after a [#] stays inside the vector. *)
Lemma CommentOutDirective_run (Hash : Token) (Cur : nat) (Buf : list Edit) :
  Cur < List.length RawTokens ->
  match CommentOutDirective SM RawTokens Hash Cur Buf with
  | Done _ => True
  | Abort f => f = NullIdentifierInfo
  | OutOfFuel => False
  end.
Proof.
  intros Hlt. unfold CommentOutDirective, NameIs.
  destruct (nth_error RawTokens Cur) as [T1|] eqn:H1;
    [|apply nth_error_None in H1; lia].
  destruct (is_ T1 tok_identifier) eqn:Hi; simpl; auto.
  destruct (getIdentifierInfo T1) as [II1|]; simpl; auto.
  destruct (getName II1 =? "warning")%string; simpl; auto.
  destruct (getName II1 =? "pragma")%string; simpl; auto.
  assert (Hk : is_ T1 tok_eof = false).
  { apply is_true_iff in Hi. unfold is_. rewrite Hi. reflexivity. }
  assert (Hs : S Cur < List.length RawTokens)
    by (apply (not_eof_below_size (S Cur) T1); auto).
  replace (Cur + 1) with (S Cur) by lia.
  destruct (nth_error RawTokens (S Cur)) as [T2|] eqn:H2;
    [|apply nth_error_None in H2; lia].
  destruct (is_ T2 tok_identifier); simpl; auto.
  destruct (getIdentifierInfo T2) as [II2|]; simpl; auto.
  destruct (getName II2 =? "mark")%string; simpl; auto.
Qed.

Variable P0 : Preprocessor.
Hypothesis HP : ExpansionWithinFile SM E P0.

Lemma within_file (T : Token) (P : Preprocessor) (X : Token) :
  PPFrom P0 T P -> In X (T :: Pending P) -> FromMain SM X = true ->
  (PPOffs X < RawOffs E)%N \/
  (PPOffs X = RawOffs E /\ is_ X tok_eof = true /\ isSameToken E X = true).
Proof.
  intros [_ Hin] HX Hm. apply HP; auto.
Qed.

(** With the raw cursor at the size of the vector and the loop still
    running, the preprocessed token of the main file lies before the raw
    end-of-file token. *)
Lemma at_size_behind (st : State) :
  RawInv RawTokens st -> PPFrom P0 (PPTok st) (PP st) ->
  LoopCond st = true -> FromMain SM (PPTok st) = true ->
  CurRawTok st = List.length RawTokens ->
  RawTok st = E /\ (PPOffs (PPTok st) < RawOffs E)%N.
Proof.
  intros [R1 [R2 R3]] HF HC Hm Heq.
  assert (HT : RawTok st = E) by (apply (at_size_is_E (CurRawTok st)); auto).
  split; [exact HT|].
  destruct (within_file _ _ (PPTok st) HF (or_introl eq_refl) Hm)
    as [Hb | [_ [Hk _]]]; [exact Hb|].
  unfold LoopCond, isNot in HC. rewrite HT, E_is_eof, Hk in HC.
  discriminate.
Qed.

(** One iteration from a state of the run: what it returns, and where it
    can stop short. *)
Lemma LoopBody_step (fuel : nat) (st : State) :
  RawInv RawTokens st -> PPFrom P0 (PPTok st) (PP st) ->
  LoopCond st = true ->
  match LoopBody SM RawTokens fuel st with
  | Done st' =>
      RawInv RawTokens st' /\ PPFrom P0 (PPTok st') (PP st') /\
      ((CurRawTok st < CurRawTok st' /\
        ((PPTok st', PP st') = (PPTok st, PP st) \/
         (PPTok st', PP st') = Lex (PP st))) \/
       (CurRawTok st' = CurRawTok st /\ RawTok st' = RawTok st /\
        FromMain SM (PPTok st) = false /\
        (PPTok st', PP st') = Lex (PP st)) \/
       (CurRawTok st' = CurRawTok st /\ RawTok st' = RawTok st /\
        (PPOffs (PPTok st) < RawOffs (RawTok st))%N /\
        exists Ex,
          InsertionRun SM fuel (RawOffs (RawTok st)) (PPTok st) (PP st) ""
            = Done (Ex, PPTok st', PP st')))
  | Abort f =>
      f = NullIdentifierInfo /\
      CommentOutDirective SM RawTokens (RawTok st) (CurRawTok st) (RB st)
        = Abort NullIdentifierInfo
  | OutOfFuel =>
      fuel < RawLeft RawTokens st \/
      InsertionRun SM fuel (RawOffs (RawTok st)) (PPTok st) (PP st) ""
        = OutOfFuel
  end.
Proof.
  intros HR HF HC. pose proof HR as [R1 [R2 R3]].
  unfold LoopBody, RawLeft.
  destruct (FromMain SM (PPTok st)) eqn:Hm; simpl.
  2:{ pose proof (Lex_PPFrom _ _ _ HF) as HL.
      destruct (Lex (PP st)) as [T P]. simpl in HL.
      split; [exact HR|]. split; [exact HL|].
      right. left. simpl. auto. }
  assert (Hsz : CurRawTok st = List.length RawTokens ->
                RawTok st = E /\ (PPOffs (PPTok st) < RawOffs E)%N)
    by (apply at_size_behind; auto).
  destruct (is_ (RawTok st) tok_hash && isAtStartOfLine (RawTok st)) eqn:Hd.
  - (* a directive line *)
    assert (Hlt : CurRawTok st < List.length RawTokens).
    { apply (not_eof_below_size (CurRawTok st) (RawTok st)); auto.
      apply andb_true_iff in Hd. destruct Hd as [Hh _].
      apply is_true_iff in Hh. unfold is_. rewrite Hh. reflexivity. }
    pose proof (CommentOutDirective_run (RawTok st) (CurRawTok st) (RB st) Hlt)
      as HD.
    destruct (CommentOutDirective SM RawTokens (RawTok st) (CurRawTok st) (RB st))
      as [Buf|f|]; simpl; [|subst f; auto|contradiction].
    destruct (GetNextRawTok_total _ _ _ false HE Hlt) as [T [C G]].
    rewrite G. simpl.
    destruct (GetNextRawTok_advances _ _ _ _ _ G) as [A1 [A2 [A3 A4]]].
    assert (HS := SkipLine_run fuel T C ltac:(lia) A3 A4).
    destruct (SkipLine RawTokens fuel T C) as [[T1 C1]| |]; simpl.
    + destruct HS as [B1 [B2 B3]].
      split; [repeat split; simpl; auto; lia|]. split; [exact HF|].
      left. simpl. split; [lia | left; reflexivity].
    + contradiction.
    + left. lia.
  - destruct ((PPOffs (PPTok st) =? RawOffs (RawTok st))%N &&
              isSameToken (RawTok st) (PPTok st)) eqn:Hs.
    + (* the same token on both sides *)
      assert (Hlt : CurRawTok st < List.length RawTokens).
      { destruct (Nat.eq_dec (CurRawTok st) (List.length RawTokens))
          as [Heq|]; [|lia].
        destruct (Hsz Heq) as [HT Hb]. exfalso.
        apply andb_true_iff in Hs. destruct Hs as [Hq _].
        apply N.eqb_eq in Hq. rewrite HT in Hq. lia. }
      destruct (GetNextRawTok_total _ _ _ false HE Hlt) as [T [C G]].
      rewrite G. simpl.
      destruct (GetNextRawTok_advances _ _ _ _ _ G) as [A1 [A2 [A3 A4]]].
      pose proof (Lex_PPFrom _ _ _ HF) as HL.
      destruct (Lex (PP st)) as [T' P]. simpl in HL.
      split; [repeat split; simpl; auto; lia|]. split; [exact HL|].
      left. simpl. split; [lia | right; reflexivity].
    + destruct (RawOffs (RawTok st) <=? PPOffs (PPTok st))%N eqn:Hle.
      * (* a deletion run *)
        assert (Hlt : CurRawTok st < List.length RawTokens).
        { destruct (Nat.eq_dec (CurRawTok st) (List.length RawTokens))
            as [Heq|]; [|lia].
          destruct (Hsz Heq) as [HT Hb]. exfalso.
          apply N.leb_le in Hle. rewrite HT in Hle. lia. }
        assert (Hpp : (PPOffs (PPTok st) < RawOffs E)%N \/
                      (PPOffs (PPTok st) = RawOffs E /\
                       isSameToken E (PPTok st) = true)).
        { destruct (within_file _ _ (PPTok st) HF (or_introl eq_refl) Hm)
            as [Hb | [Hq [_ Hsm]]]; auto. }
        pose proof (DeletionRun_run (PPTok st) Hpp fuel
                      (RawOffs (RawTok st)) (RawTok st) (CurRawTok st) Hlt)
          as HDel.
        destruct (DeletionRun SM RawTokens fuel (PPOffs (PPTok st)) (PPTok st)
                    (RawOffs (RawTok st)) (RawTok st) (CurRawTok st))
          as [[[EP T] C]| |]; simpl.
        -- destruct HDel as [B1 [B2 B3]].
           split; [repeat split; simpl; auto; lia|]. split; [exact HF|].
           left. simpl. split; [lia | left; reflexivity].
        -- contradiction.
        -- left. exact HDel.
      * (* an insertion run *)
        apply N.leb_gt in Hle.
        destruct (InsertionRun SM fuel (RawOffs (RawTok st)) (PPTok st) (PP st) "")
          as [[[Ex T] P]|f|] eqn:HI; simpl.
        -- split; [exact HR|]. split.
           ++ apply (InsertionRun_keeps (PPFrom P0) (RawOffs (RawTok st))
                       (Lex_PPFrom P0) fuel _ _ _ _ _ _ HF HI).
           ++ right. right. repeat split; auto. exists Ex. reflexivity.
        -- exfalso. exact (InsertionRun_no_abort _ _ _ _ _ _ HI).
        -- right. reflexivity.
Qed.

Lemma MainLoop_no_overrun (fuel : nat) :
  forall st : State,
  RawInv RawTokens st -> PPFrom P0 (PPTok st) (PP st) ->
  MainLoop SM RawTokens fuel st <> Abort OverranEof /\
  MainLoop SM RawTokens fuel st <> Abort OutOfBounds.
Proof.
  induction fuel as [|fuel IH]; intros st HR HF; simpl;
    destruct (LoopCond st) eqn:HC; try (split; discriminate).
  pose proof (LoopBody_step fuel st HR HF HC) as HS.
  destruct (LoopBody SM RawTokens fuel st) as [st'|f|]; simpl.
  - destruct HS as [HR' [HF' _]]. apply IH; auto.
  - destruct HS as [-> _]. split; discriminate.
  - split; discriminate.
Qed.

Lemma InitState_run :
  exists st, InitState RawTokens P0 = Done st /\
             RawInv RawTokens st /\ PPFrom P0 (PPTok st) (PP st) /\
             (PPTok st, PP st) = Lex P0 /\ RB st = [].
Proof.
  unfold InitState.
  destruct (EndsWithEof_last _ _ HE) as [_ Hpos].
  destruct (GetNextRawTok_total _ _ _ false HE Hpos) as [T [C G]].
  rewrite G. simpl.
  destruct (GetNextRawTok_advances _ _ _ _ _ G) as [A1 [A2 [A3 A4]]].
  assert (HL : PPFrom P0 (fst (Lex P0)) (snd (Lex P0))).
  { unfold Lex, PPFrom.
    destruct (Pending P0) as [|X Rest] eqn:HPend; simpl; split; auto;
      intros Y HY; simpl in *; rewrite ?HPend in *; simpl in *; tauto. }
  destruct (Lex P0) as [T' P']. simpl in HL.
  eexists. split; [reflexivity|]. simpl.
  split; [repeat split; simpl; auto; lia|].
  split; [exact HL|]. split; reflexivity.
Qed.

End Safety.

(** C9: given that the raw token list ends with an end-of-file token, no
    call of GetNextRawTok made by the loop, whether from the loop itself,
    from a deletion run or from the skip over a directive line, has the
    cursor at or past the size of the vector, and no other read of the
    vector is past its end.  The two streams are read from the same main
    file (lines 67 and 103-105), which is what [ExpansionWithinFile]
    says of the preprocessed one: none of its main-file tokens lies
    beyond the raw end-of-file token, and one at that offset is the
    end-of-file token. *)
Theorem raw_cursor_never_overruns (SM : SourceManager)
    (RawTokens : list Token) (E : Token) (P : Preprocessor) (fuel : nat) :
  EndsWithEof RawTokens E ->
  ExpansionWithinFile SM E P ->
  RewriteMacrosInInput SM RawTokens fuel P <> Abort OverranEof /\
  RewriteMacrosInInput SM RawTokens fuel P <> Abort OutOfBounds.
Proof.
  intros HE HP. unfold RewriteMacrosInInput.
  destruct (InitState_run RawTokens E HE P) as [st0 [H0 [HR [HF _]]]].
  rewrite H0. simpl.
  pose proof (MainLoop_no_overrun SM RawTokens E HE P HP fuel st0 HR HF)
    as [N1 N2].
  destruct (MainLoop SM RawTokens fuel st0) as [st|f|]; simpl.
  - destruct (RB st); split; discriminate.
  - split; congruence.
  - split; discriminate.
Qed.

(** ** The whole loop: progress and termination *)

Section Termination.

Variable SM : SourceManager.
Variable RawTokens : list Token.
Variable E : Token.
Variable P0 : Preprocessor.
Hypothesis HE : EndsWithEof RawTokens E.
Hypothesis HI : IdentifiersResolved RawTokens.
Hypothesis HP : ExpansionWithinFile SM E P0.
Hypothesis HF : ExpansionEndsFile SM RawTokens P0.

#[local] Abbreviation RawOffs := (RawOffsOf SM).
#[local] Abbreviation PPOffs := (PPOffsOf SM).

Lemma Lex_PPEnd (T : Token) (P : Preprocessor) :
  PPEnd T P -> PPEnd (fst (Lex P)) (snd (Lex P)).
Proof.
  intros [_ Hall]. unfold Lex, PPEnd.
  destruct (Pending P) as [|X Rest] eqn:HPend; simpl.
  - rewrite HPend. auto.
  - inversion Hall; subst. split; [|assumption].
    intros HX. congruence.
Qed.

Lemma Lex_left (T : Token) (P : Preprocessor) :
  PPEnd T P ->
  ExpansionLeftOf (fst (Lex P)) (snd (Lex P)) <= ExpansionLeftOf T P /\
  (is_ T tok_eof = false ->
   ExpansionLeftOf (fst (Lex P)) (snd (Lex P)) < ExpansionLeftOf T P).
Proof.
  intros [Hend Hall]. unfold Lex, ExpansionLeftOf.
  destruct (is_ T tok_eof) eqn:HT.
  - destruct (Hend eq_refl) as [_ ->]. simpl. split; [lia | discriminate].
  - destruct (Pending P) as [|X Rest]; simpl.
    + split; [lia | intros _; lia].
    + destruct (is_ X tok_eof); split; try intros _; lia.
Qed.

Lemma InsertionRun_terminates (RO : N) (L : SourceLocation) :
  (PPOffs (EofToken L) <? RO)%N = false ->
  forall (fuel : nat) (PPT : Token) (P : Preprocessor) (Ex : string),
  PPEnd PPT P -> EofLoc P = L -> ExpansionLeftOf PPT P <= fuel ->
  exists Ex' T P',
    InsertionRun SM fuel RO PPT P Ex = Done (Ex', T, P') /\
    ExpansionLeftOf T P' <= ExpansionLeftOf PPT P /\
    ((PPOffs PPT <? RO)%N = true ->
     ExpansionLeftOf T P' < ExpansionLeftOf PPT P).
Proof.
  intros Hs. induction fuel as [|fuel IH]; intros PPT P Ex HEnd HL Hfuel;
    simpl; destruct (PPOffs PPT <? RO)%N eqn:Hb;
    try (exists Ex, PPT, P; repeat split; auto; discriminate).
  - exfalso. unfold ExpansionLeftOf in Hfuel.
    destruct (is_ PPT tok_eof) eqn:HT; [|lia].
    destruct HEnd as [Hend _]. destruct (Hend HT) as [-> _].
    rewrite HL in Hb. congruence.
  - assert (HT : is_ PPT tok_eof = false).
    { destruct (is_ PPT tok_eof) eqn:HT; [|reflexivity].
      destruct HEnd as [Hend _]. destruct (Hend HT) as [-> _].
      rewrite HL in Hb. congruence. }
    pose proof (Lex_PPEnd _ _ HEnd) as HEnd1.
    pose proof (Lex_left _ _ HEnd) as [_ Hlt]. specialize (Hlt HT).
    assert (HL1 : EofLoc (snd (Lex P)) = L).
    { unfold Lex. destruct (Pending P); simpl; auto. }
    destruct (Lex P) as [T1 P1]. simpl in *.
    destruct (IH T1 P1 (Ex ++ String " " (getSpelling PPT))%string
                HEnd1 HL1 ltac:(lia)) as [Ex' [T [P' [H1 [H2 _]]]]].
    exists Ex', T, P'. split; [exact H1|]. split; [lia | intros _; lia].
Qed.

Lemma CommentOutDirective_resolved (Hash : Token) (Cur : nat)
    (Buf : list Edit) :
  CommentOutDirective SM RawTokens Hash Cur Buf <> Abort NullIdentifierInfo.
Proof.
  unfold CommentOutDirective, NameIs.
  destruct (nth_error RawTokens Cur) as [T1|] eqn:H1; [|discriminate].
  destruct (is_ T1 tok_identifier) eqn:Hi; simpl; [|discriminate].
  pose proof (HI T1 (nth_error_In _ _ H1) Hi) as N1.
  destruct (getIdentifierInfo T1) as [II1|]; [|congruence]. simpl.
  destruct (getName II1 =? "warning")%string; simpl; [discriminate|].
  destruct (getName II1 =? "pragma")%string; simpl; [|discriminate].
  destruct (nth_error RawTokens (Cur + 1)) as [T2|] eqn:H2; [|discriminate].
  destruct (is_ T2 tok_identifier) eqn:Hi2; simpl; [|discriminate].
  pose proof (HI T2 (nth_error_In _ _ H2) Hi2) as N2.
  destruct (getIdentifierInfo T2) as [II2|]; [|congruence]. simpl.
  destruct (getName II2 =? "mark")%string; discriminate.
Qed.

Lemma sentinel_not_below (st : State) :
  RunInv RawTokens P0 st ->
  (PPOffs (EofToken (EofLoc (PP st))) <? RawOffs (RawTok st))%N = false.
Proof.
  intros [[_ [_ Hn]] [[HL _] _]]. rewrite HL.
  destruct HF as [_ [_ Hall]].
  apply N.ltb_ge. apply Hall. eapply nth_error_In. exact Hn.
Qed.

Lemma LoopBody_progress (fuel : nat) (st : State) :
  RunInv RawTokens P0 st -> LoopCond st = true ->
  RawLeft RawTokens st + ExpansionLeft st <= fuel ->
  exists st',
    LoopBody SM RawTokens fuel st = Done st' /\ RunInv RawTokens P0 st' /\
    CurRawTok st <= CurRawTok st' /\
    ExpansionLeft st' <= ExpansionLeft st /\
    (CurRawTok st < CurRawTok st' \/ ExpansionLeft st' < ExpansionLeft st).
Proof.
  intros HInv HC Hfuel. pose proof HInv as [HR [HFr HEnd]].
  pose proof (LoopBody_step SM RawTokens E HE P0 HP fuel st HR HFr HC) as HS.
  pose proof (sentinel_not_below st HInv) as Hsn.
  assert (HTerm := InsertionRun_terminates (RawOffs (RawTok st))
                     (EofLoc (PP st)) Hsn fuel (PPTok st) (PP st) ""
                     HEnd eq_refl).
  unfold ExpansionLeft in *.
  destruct (LoopBody SM RawTokens fuel st) as [st'|f|].
  - exists st'. split; [reflexivity|].
    destruct HS as [HR' [HF' Hcase]].
    pose proof (Lex_PPEnd _ _ HEnd) as HLE.
    pose proof (Lex_left _ _ HEnd) as [HL1 HL2].
    assert (Hgoal :
      PPEnd (PPTok st') (PP st') /\
      CurRawTok st <= CurRawTok st' /\
      ExpansionLeftOf (PPTok st') (PP st')
        <= ExpansionLeftOf (PPTok st) (PP st) /\
      (CurRawTok st < CurRawTok st' \/
       ExpansionLeftOf (PPTok st') (PP st')
         < ExpansionLeftOf (PPTok st) (PP st))).
    { destruct Hcase as [[Hlt [Hsame | Hlex]]
                        | [[Hc [_ [Hm Hlex]]] | [Hc [_ [Hb [Ex Hrun]]]]]].
      + inversion Hsame as [[Ha Hb]]. rewrite Ha, Hb.
        split; [exact HEnd | lia].
      + destruct (Lex (PP st)) as [T P]. inversion Hlex as [[Ha Hb]].
        rewrite Ha, Hb. simpl in *. split; [exact HLE | lia].
      + assert (HT : is_ (PPTok st) tok_eof = false).
        { destruct (is_ (PPTok st) tok_eof) eqn:HT; [|reflexivity].
          destruct HEnd as [Hend _]. destruct (Hend HT) as [Hq _].
          destruct HFr as [HL _]. destruct HF as [Hmain _].
          unfold FromMain in *. rewrite Hq, HL, Hmain in Hm. discriminate. }
        specialize (HL2 HT).
        destruct (Lex (PP st)) as [T P]. inversion Hlex as [[Ha Hb]].
        rewrite Ha, Hb. simpl in *. split; [exact HLE | lia].
      + destruct (HTerm ltac:(lia)) as [Ex' [T [P' [H1 [H2 H3]]]]].
        rewrite Hrun in H1. inversion H1; subst.
        apply N.ltb_lt in Hb. specialize (H3 Hb).
        split; [|lia].
        apply (InsertionRun_keeps SM PPEnd (RawOffs (RawTok st)) Lex_PPEnd
                 fuel _ _ _ _ _ _ HEnd Hrun). }
    destruct Hgoal as [G1 G2].
    split; [split; [exact HR' | split; [exact HF' | exact G1]] | exact G2].
  - exfalso. destruct HS as [_ Hab].
    exact (CommentOutDirective_resolved _ _ _ Hab).
  - exfalso. destruct HS as [Hlt | Hrun]; [unfold RawLeft in *; lia|].
    destruct (HTerm ltac:(lia)) as [Ex' [T [P' [H1 _]]]]. congruence.
Qed.

Lemma MainLoop_terminates (fuel : nat) :
  forall st : State,
  RunInv RawTokens P0 st -> RawLeft RawTokens st + ExpansionLeft st < fuel ->
  exists st', MainLoop SM RawTokens fuel st = Done st' /\
              LoopCond st' = false.
Proof.
  induction fuel as [|fuel IH]; intros st HInv Hfuel; [lia|].
  simpl. destruct (LoopCond st) eqn:HC; [|exists st; auto].
  destruct (LoopBody_progress fuel st HInv HC ltac:(lia))
    as [st' [H1 [H2 [H3 [H4 H5]]]]].
  rewrite H1. simpl. apply IH; [exact H2|].
  unfold RawLeft in *. destruct H2 as [[_ [Hle _]] _].
  destruct HInv as [[_ [Hle0 _]] _]. lia.
Qed.

Lemma InitState_RunInv (st : State) :
  InitState RawTokens P0 = Done st -> RunInv RawTokens P0 st.
Proof.
  intros H0.
  destruct (InitState_run RawTokens E HE P0) as [st0 [H1 [HR [HFr [HL _]]]]].
  assert (st0 = st) by congruence. subst st0.
  split; [exact HR|]. split; [exact HFr|].
  assert (HEnd : PPEnd (fst (Lex P0)) (snd (Lex P0))).
  { destruct HF as [_ [Hall _]]. unfold Lex, PPEnd.
    destruct (Pending P0) as [|X Rest] eqn:HPend; simpl.
    - rewrite HPend. auto.
    - inversion Hall; subst. split; [|assumption]. intros HX. congruence. }
  rewrite <- HL in HEnd. exact HEnd.
Qed.

Lemma Reachable_RunInv (st : State) :
  Reachable SM RawTokens P0 st -> RunInv RawTokens P0 st.
Proof.
  induction 1 as [st H0 | fuel st st' Hr IH HC Hb].
  - apply InitState_RunInv. exact H0.
  - pose proof IH as [HR [HFr HEnd]].
    pose proof (LoopBody_step SM RawTokens E HE P0 HP fuel st HR HFr HC) as HS.
    rewrite Hb in HS. destruct HS as [HR' [HF' Hcase]].
    split; [exact HR'|]. split; [exact HF'|].
    pose proof (Lex_PPEnd _ _ HEnd) as HLE.
    destruct Hcase as [[_ [Hsame | Hlex]]
                      | [[_ [_ [_ Hlex]]] | [_ [_ [_ [Ex Hrun]]]]]].
    + inversion Hsame as [[Ha Hc]]. rewrite Ha, Hc. exact HEnd.
    + destruct (Lex (PP st)) as [T P]. inversion Hlex as [[Ha Hc]].
      rewrite Ha, Hc. exact HLE.
    + destruct (Lex (PP st)) as [T P]. inversion Hlex as [[Ha Hc]].
      rewrite Ha, Hc. exact HLE.
    + apply (InsertionRun_keeps SM PPEnd (RawOffs (RawTok st)) Lex_PPEnd
               fuel _ _ _ _ _ _ HEnd Hrun).
Qed.

End Termination.

Lemma MainLoop_exit (SM : SourceManager) (RawTokens : list Token)
    (fuel : nat) :
  forall st st' : State,
  MainLoop SM RawTokens fuel st = Done st' -> LoopCond st' = false.
Proof.
  induction fuel as [|fuel IH]; intros st st'; simpl;
    destruct (LoopCond st) eqn:HC; try discriminate;
    try (intros H; inversion H; subst; exact HC).
  destruct (LoopBody SM RawTokens fuel st) as [st1| |]; simpl;
    try discriminate.
  apply IH.
Qed.

Lemma LoopCond_false (st : State) :
  LoopCond st = false <->
  is_ (RawTok st) tok_eof = true /\ is_ (PPTok st) tok_eof = true.
Proof.
  unfold LoopCond, isNot.
  destruct (is_ (RawTok st) tok_eof), (is_ (PPTok st) tok_eof); simpl;
    intuition congruence.
Qed.

(** C8: for every input the loop terminates with both current tokens at
    end-of-file; every iteration moves the raw cursor or the preprocessor
    forward, neither ever goes back, and the loop runs on exactly while
    one of the two current tokens is not end-of-file.  An input is a
    main file, read twice (lines 67 and 103-105): the raw list ends with
    its end-of-file token, every raw identifier has identifier info, no
    preprocessed token of the main file lies beyond the raw end-of-file
    token, and the preprocessor's end-of-file token comes last, belongs
    to the main file and is not before any raw token. *)
Theorem alignment_loop_terminates (SM : SourceManager)
    (RawTokens : list Token) (E : Token) (P : Preprocessor) :
  EndsWithEof RawTokens E ->
  IdentifiersResolved RawTokens ->
  ExpansionWithinFile SM E P ->
  ExpansionEndsFile SM RawTokens P ->
  (exists fuel st0 st,
     InitState RawTokens P = Done st0 /\
     MainLoop SM RawTokens fuel st0 = Done st /\
     is_ (RawTok st) tok_eof = true /\ is_ (PPTok st) tok_eof = true) /\
  (forall st, Reachable SM RawTokens P st -> LoopCond st = true ->
     exists fuel0, forall fuel, fuel0 <= fuel ->
     exists st',
       LoopBody SM RawTokens fuel st = Done st' /\
       CurRawTok st <= CurRawTok st' /\
       ExpansionLeft st' <= ExpansionLeft st /\
       (CurRawTok st < CurRawTok st' \/
        ExpansionLeft st' < ExpansionLeft st)) /\
  (forall fuel st,
     (LoopCond st = false -> MainLoop SM RawTokens fuel st = Done st) /\
     (forall st', MainLoop SM RawTokens fuel st = Done st' ->
                  is_ (RawTok st') tok_eof = true /\
                  is_ (PPTok st') tok_eof = true)).
Proof.
  intros HE HI HP HF. split; [|split].
  - destruct (InitState_run RawTokens E HE P) as [st0 [H0 _]].
    pose proof (InitState_RunInv SM RawTokens E P HE HF st0 H0) as HInv.
    destruct (MainLoop_terminates SM RawTokens E P HE HI HP HF
                (S (RawLeft RawTokens st0 + ExpansionLeft st0)) st0 HInv
                ltac:(lia)) as [st [H1 H2]].
    exists (S (RawLeft RawTokens st0 + ExpansionLeft st0)), st0, st.
    apply LoopCond_false in H2. tauto.
  - intros st Hr HC.
    pose proof (Reachable_RunInv SM RawTokens E P HE HP HF st Hr) as HInv.
    exists (RawLeft RawTokens st + ExpansionLeft st). intros fuel Hfuel.
    destruct (LoopBody_progress SM RawTokens E P HE HI HP HF fuel st HInv HC
                Hfuel) as [st' [H1 [_ H2]]].
    exists st'. split; [exact H1 | exact H2].
  - intros fuel st. split.
    + intros HC. destruct fuel; simpl; rewrite HC; reflexivity.
    + intros st' H. apply LoopCond_false.
      eapply MainLoop_exit. exact H.
Qed.

(** ** The whole loop: the order of the edits *)

Lemma NonDecreasing_snoc (l : list N) (x : N) :
  NonDecreasing l -> Forall (fun a => (a <= x)%N) l ->
  NonDecreasing (l ++ [x]).
Proof.
  induction l as [|a l IH]; simpl; intros Hn Hb.
  - split; [constructor | exact I].
  - destruct Hn as [H1 H2]. inversion Hb; subst. split.
    + apply Forall_app. split; [exact H1 | constructor; [assumption | constructor]].
    + apply IH; assumption.
Qed.

Lemma Forall_le_trans (l : list N) (x y : N) :
  Forall (fun a => (a <= x)%N) l -> (x <= y)%N ->
  Forall (fun a => (a <= y)%N) l.
Proof.
  intros H Hxy. eapply Forall_impl; [|exact H]. simpl. intros a Ha. lia.
Qed.

Lemma MarkerEdits_snoc (Buf : list Edit) (Ed : Edit) :
  MarkerEdits (Buf ++ [Ed]) =
  MarkerEdits Buf ++ (if IsExpansionEdit Ed then [] else [Ed]).
Proof.
  unfold MarkerEdits. rewrite filter_app. simpl.
  destruct (IsExpansionEdit Ed); reflexivity.
Qed.

Section EditOrder.

Variable SM : SourceManager.
Variable RawTokens : list Token.
Hypothesis HO : InFileOrder SM RawTokens.

#[local] Abbreviation RawOffs := (RawOffsOf SM).
#[local] Abbreviation PPOffs := (PPOffsOf SM).

Lemma file_order_after (j : nat) :
  forall (i : nat) (A B : Token),
  i < j -> nth_error RawTokens i = Some A -> nth_error RawTokens j = Some B ->
  (RawOffs A + getLength A <= RawOffs B)%N.
Proof.
  induction j as [|j IH]; intros i A B Hlt HA HB; [lia|].
  destruct (Nat.eq_dec i j) as [->|Hne].
  - apply (HO j A B HA HB).
  - destruct (nth_error RawTokens j) as [M|] eqn:HM.
    + pose proof (IH i A M ltac:(lia) HA eq_refl).
      pose proof (HO j M B HM HB) as [H1 _]. lia.
    + apply nth_error_None in HM.
      assert (S j < List.length RawTokens) by (apply nth_error_Some; congruence).
      lia.
Qed.

Lemma file_order_from (i j : nat) (A B : Token) :
  i <= j -> nth_error RawTokens i = Some A -> nth_error RawTokens j = Some B ->
  (RawOffs A <= RawOffs B)%N.
Proof.
  intros Hle HA HB. destruct (Nat.eq_dec i j) as [->|Hne].
  - assert (A = B) by congruence. subst. lia.
  - pose proof (file_order_after j i A B ltac:(lia) HA HB). lia.
Qed.

(** The end of a token that has a successor, in [unsigned]. *)
Lemma end_of_token (k : nat) (D : Token) :
  nth_error RawTokens k = Some D -> S k < List.length RawTokens ->
  uadd (RawOffs D) (getLength D) = (RawOffs D + getLength D)%N.
Proof.
  intros HD Hlt.
  destruct (nth_error RawTokens (S k)) as [B|] eqn:HB;
    [|apply nth_error_None in HB; lia].
  destruct (HO k D B HD HB) as [_ Hb].
  unfold uadd. apply N.mod_small. exact Hb.
Qed.

Lemma SkipLine_Done (fuel : nat) :
  forall (T : Token) (C : nat) (T' : Token) (C' : nat),
  nth_error RawTokens (pred C) = Some T ->
  SkipLine RawTokens fuel T C = Done (T', C') ->
  C <= C' /\ nth_error RawTokens (pred C') = Some T'.
Proof.
  induction fuel as [|fuel IH]; intros T C T' C' HT; simpl;
    destruct (negb (isAtStartOfLine T) && isNot T tok_eof);
    try discriminate;
    try (intros H; inversion H; subst; split; [lia | exact HT]).
  destruct (GetNextRawTok RawTokens C false) as [[T1 C1]| |] eqn:G; simpl;
    try discriminate.
  destruct (GetNextRawTok_advances _ _ _ _ _ G) as [A1 [A2 [A3 A4]]].
  intros H. destruct (IH _ _ _ _ A4 H) as [B1 B2]. split; [lia | exact B2].
Qed.

Lemma LoopBody_EditInv (fuel : nat) (st st' : State) :
  EditInv SM RawTokens st ->
  LoopBody SM RawTokens fuel st = Done st' ->
  EditInv SM RawTokens st'.
Proof.
  intros [I1 [I2 [I3 I4]]]. unfold LoopBody, EditInv.
  destruct (FromMain SM (PPTok st)); simpl.
  2:{ destruct (Lex (PP st)) as [T P]. intros H. inversion H; subst; simpl.
      auto. }
  destruct (is_ (RawTok st) tok_hash && isAtStartOfLine (RawTok st)).
  - (* a directive line *)
    destruct (CommentOutDirective SM RawTokens (RawTok st) (CurRawTok st) (RB st))
      as [Buf| |] eqn:HD; simpl; try discriminate.
    apply CommentOutDirective_Done in HD.
    destruct (GetNextRawTok RawTokens (CurRawTok st) false)
      as [[T C]| |] eqn:G; simpl; try discriminate.
    destruct (GetNextRawTok_advances _ _ _ _ _ G) as [A1 [A2 [A3 A4]]].
    destruct (SkipLine RawTokens fuel T C) as [[T1 C1]| |] eqn:HS; simpl;
      try discriminate.
    destruct (SkipLine_Done _ _ _ _ _ A4 HS) as [B1 B2].
    intros H. inversion H; subst; simpl.
    assert (Hle : (RawOffs (RawTok st) <= RawOffs T1)%N)
      by (apply (file_order_from (pred (CurRawTok st)) (pred C1)); auto; lia).
    split; [lia|]. split; [exact B2|].
    destruct (WarningOrPragmaMark (skipn (CurRawTok st) RawTokens)).
    + rewrite MarkerEdits_snoc. simpl. rewrite map_app. simpl. split.
      * apply NonDecreasing_snoc; assumption.
      * apply Forall_app. split.
        -- eapply Forall_le_trans; eauto.
        -- constructor; [exact Hle | constructor].
    + rewrite app_nil_r. split; [exact I3|].
      eapply Forall_le_trans; eauto.
  - destruct ((PPOffs (PPTok st) =? RawOffs (RawTok st))%N &&
              isSameToken (RawTok st) (PPTok st)).
    + (* the same token on both sides *)
      destruct (GetNextRawTok RawTokens (CurRawTok st) false)
        as [[T C]| |] eqn:G; simpl; try discriminate.
      destruct (GetNextRawTok_advances _ _ _ _ _ G) as [A1 [A2 [A3 A4]]].
      destruct (Lex (PP st)) as [T' P]. intros H. inversion H; subst; simpl.
      split; [lia|]. split; [exact A4|]. split; [exact I3|].
      eapply Forall_le_trans; eauto.
      apply (file_order_from (pred (CurRawTok st)) (pred C)); auto; lia.
    + destruct (RawOffs (RawTok st) <=? PPOffs (PPTok st))%N.
      * (* a deletion run *)
        destruct (DeletionRun SM RawTokens fuel (PPOffs (PPTok st)) (PPTok st)
                    (RawOffs (RawTok st)) (RawTok st) (CurRawTok st))
          as [[[EP T] C]| |] eqn:HDel; simpl; try discriminate.
        destruct (DeletionRun_Done _ _ _ _ _ _ _ _ _ _ _ HDel)
          as [D1 [D2 [D3 D4]]].
        intros H. inversion H; subst; simpl.
        assert (HEP : (RawOffs (RawTok st) <= EP)%N /\ (EP <= RawOffs T)%N).
        { destruct D4 as [-> | [k [D [K1 [K2 [K3 ->]]]]]].
          - rewrite (end_of_token (pred (CurRawTok st)) (RawTok st)) by (auto; lia).
            split; [lia|].
            apply (file_order_after (pred C) (pred (CurRawTok st))); auto; lia.
          - rewrite (end_of_token k D) by (auto; lia).
            pose proof (file_order_from (pred (CurRawTok st)) k _ _
                          ltac:(lia) I2 K3).
            split; [lia|].
            apply (file_order_after (pred C) k); auto; lia. }
        destruct HEP as [E1 E2].
        split; [lia|]. split; [exact D3|].
        rewrite !MarkerEdits_snoc. simpl.
        rewrite <- app_assoc. simpl. rewrite map_app. simpl.
        replace [RawOffs (RawTok st); EP] with ([RawOffs (RawTok st)] ++ [EP])
          by reflexivity.
        rewrite app_assoc. split.
        -- apply NonDecreasing_snoc.
           ++ apply NonDecreasing_snoc; assumption.
           ++ apply Forall_app. split.
              ** eapply Forall_le_trans; eauto.
              ** constructor; [exact E1 | constructor].
        -- apply Forall_app. split.
           ++ apply Forall_app. split.
              ** eapply Forall_le_trans; eauto. lia.
              ** constructor; [lia | constructor].
           ++ constructor; [exact E2 | constructor].
      * (* an insertion run *)
        destruct (InsertionRun SM fuel (RawOffs (RawTok st)) (PPTok st) (PP st) "")
          as [[[Ex T] P]| |] eqn:HIns; simpl; try discriminate.
        assert (HEx : IsExpansionEdit
                        (InsertTextBefore (PPOffs (PPTok st)) (Ex ++ " ")%string)
                      = true).
        { destruct fuel as [|fuel]; simpl in HIns;
            destruct (PPOffs (PPTok st) <? RawOffs (RawTok st))%N eqn:Hb.
          - discriminate.
          - inversion HIns; subst. reflexivity.
          - destruct (Lex (PP st)) as [T1 P1].
            apply InsertionRun_Done in HIns. destruct HIns as [-> _].
            reflexivity.
          - inversion HIns; subst. reflexivity. }
        intros H. inversion H; subst; simpl.
        rewrite MarkerEdits_snoc, HEx, app_nil_r. auto.
Qed.

Lemma MainLoop_EditInv (fuel : nat) :
  forall st st' : State,
  EditInv SM RawTokens st ->
  MainLoop SM RawTokens fuel st = Done st' ->
  EditInv SM RawTokens st'.
Proof.
  induction fuel as [|fuel IH]; intros st st' HI; simpl;
    destruct (LoopCond st); try discriminate;
    try (intros H; inversion H; subst; exact HI).
  destruct (LoopBody SM RawTokens fuel st) as [st1| |] eqn:HB; simpl;
    try discriminate.
  apply IH. eapply LoopBody_EditInv; eauto.
Qed.

End EditOrder.

Lemma Reachable_EditInv (SM : SourceManager) (RawTokens : list Token)
    (P : Preprocessor) (st : State) :
  InFileOrder SM RawTokens ->
  Reachable SM RawTokens P st -> EditInv SM RawTokens st.
Proof.
  intros HO. induction 1 as [st H0 | fuel st st' Hr IH HC Hb].
  - unfold InitState in H0.
    destruct (GetNextRawTok RawTokens 0 false) as [[T C]| |] eqn:G;
      simpl in H0; try discriminate.
    destruct (GetNextRawTok_advances _ _ _ _ _ G) as [A1 [A2 [A3 A4]]].
    destruct (Lex P) as [T' P']. inversion H0; subst.
    unfold EditInv. simpl. repeat split; auto; try lia.
  - eapply LoopBody_EditInv; eauto.
Qed.

(** C4, as the code has it: for raw tokens laid out in file order, the
    offsets of the edits that directive handling and deletion runs issue
    (the [//] markers, the comment openers and the closers) are
    non-decreasing in the order of issue, at every point of the run and
    in its result: none of them is issued at an offset smaller than that
    of one issued before it.  The text of an insertion run is left out:
    it is inserted at the preprocessed token's offset, which can lie
    before the closer issued just before. *)
Theorem marker_edit_offsets_nondecreasing (SM : SourceManager)
    (RawTokens : list Token) (P : Preprocessor) :
  InFileOrder SM RawTokens ->
  (forall st, Reachable SM RawTokens P st ->
     NonDecreasing (map EditOffset (MarkerEdits (RB st)))) /\
  (forall fuel Edits,
     RewriteMacrosInInput SM RawTokens fuel P = Done (Changed Edits) ->
     NonDecreasing (map EditOffset (MarkerEdits Edits))).
Proof.
  intros HO. split.
  - intros st Hr.
    destruct (Reachable_EditInv SM RawTokens P st HO Hr) as [_ [_ [Hs _]]].
    exact Hs.
  - intros fuel Edits. unfold RewriteMacrosInInput, InitState.
    destruct (GetNextRawTok RawTokens 0 false) as [[T C]| |] eqn:G; simpl;
      try discriminate.
    destruct (GetNextRawTok_advances _ _ _ _ _ G) as [A1 [A2 [A3 A4]]].
    destruct (Lex P) as [T' P']. simpl.
    destruct (MainLoop SM RawTokens fuel (mkState C T T' P' []))
      as [st| |] eqn:HM; simpl; try discriminate.
    assert (HI : EditInv SM RawTokens (mkState C T T' P' [])).
    { unfold EditInv. simpl. repeat split; auto; try lia. }
    pose proof (MainLoop_EditInv SM RawTokens HO fuel _ _ HI HM)
      as [_ [_ [Hs _]]].
    destruct (RB st) as [|Ed Es] eqn:HRB; intros H; inversion H; subst.
    exact Hs.
Qed.

(** ** The whole loop: a file with no macro invocation *)

Lemma comment_not_hash (T : Token) :
  is_ T tok_comment = true -> is_ T tok_hash = false.
Proof.
  intros H. apply is_true_iff in H. unfold is_. rewrite H. reflexivity.
Qed.

Lemma hash_not_eof (T : Token) :
  is_ T tok_hash = true -> is_ T tok_eof = false.
Proof.
  intros H. apply is_true_iff in H. unfold is_. rewrite H. reflexivity.
Qed.

Lemma eof_not_comment (T : Token) :
  is_ T tok_eof = true -> is_ T tok_comment = false.
Proof.
  intros H. apply is_true_iff in H. unfold is_. rewrite H. reflexivity.
Qed.

Lemma PlainExpansion_eof (b : bool) (X : Token) (R : list Token) :
  is_ X tok_eof = true -> PlainExpansion b (X :: R) = [].
Proof. intros H. simpl. rewrite H. reflexivity. Qed.

Lemma PlainExpansion_comment (b : bool) (X : Token) (R : list Token) :
  is_ X tok_comment = true ->
  PlainExpansion b (X :: R) = PlainExpansion (OnDirectiveLine b X) R.
Proof.
  intros H. simpl. rewrite (comment_not_eof _ H), H, orb_true_r. reflexivity.
Qed.

Lemma PlainExpansion_directive (b : bool) (X : Token) (R : list Token) :
  is_ X tok_eof = false -> OnDirectiveLine b X = true ->
  PlainExpansion b (X :: R) = PlainExpansion true R.
Proof. intros H1 H2. simpl. rewrite H1, H2. reflexivity. Qed.

Lemma PlainExpansion_plain (X : Token) (R : list Token) :
  is_ X tok_eof = false -> is_ X tok_comment = false ->
  is_ X tok_hash && isAtStartOfLine X = false ->
  PlainExpansion false (X :: R) = X :: PlainExpansion false R.
Proof.
  intros H1 H2 H3. simpl. unfold OnDirectiveLine. rewrite H1, H2, H3.
  reflexivity.
Qed.

(** A token that starts a line, or the end-of-file token, reads the same
    on and off a directive line. *)
Lemma PlainExpansion_line_start (b : bool) (T : Token) (R : list Token) :
  isAtStartOfLine T = true \/ is_ T tok_eof = true ->
  PlainExpansion b (T :: R) = PlainExpansion false (T :: R).
Proof.
  intros Hs. cbn [PlainExpansion].
  destruct (is_ T tok_eof) eqn:He; [reflexivity|].
  destruct Hs as [Hs|Hs]; [|discriminate].
  unfold OnDirectiveLine. rewrite Hs.
  destruct b, (is_ T tok_hash); reflexivity.
Qed.

Lemma Returned_line_start (m : CursorMode) (T : Token) :
  isAtStartOfLine T = true \/ is_ T tok_eof = true ->
  Returned m T = Returned Aligning T.
Proof.
  intros Hs. unfold Returned.
  destruct (is_ T tok_eof) eqn:He; [reflexivity|].
  destruct Hs as [Hs|Hs]; [|discriminate].
  rewrite Hs. destruct m; reflexivity.
Qed.

(** A token on the way of a skip: the preprocessor returns nothing for
    it, and the skip goes on in the same manner. *)
Lemma Returned_skipped (m : CursorMode) (T : Token) (R : list Token) :
  m <> Aligning ->
  isAtStartOfLine T = false -> is_ T tok_eof = false ->
  OnTrackAfter m T R = true ->
  CursorOnTrack m R = true /\
  PlainExpansion (OnLine m) (T :: R) = PlainExpansion (OnLine m) R.
Proof.
  intros Hm Hs Hk. unfold OnTrackAfter, Returned. rewrite Hk, Hs.
  destruct m; [congruence| |]; cbn [AfterStep OnLine].
  - intros H. split; [exact H|].
    apply PlainExpansion_directive; [exact Hk|].
    unfold OnDirectiveLine. rewrite Hs. apply orb_true_r.
  - destruct (is_ T tok_comment) eqn:Hc; cbn [AfterStep]; [|discriminate].
    intros H. split; [exact H|].
    rewrite (PlainExpansion_comment false T R Hc). unfold OnDirectiveLine.
    rewrite (comment_not_hash _ Hc). reflexivity.
Qed.

Lemma OnTrack_held (T : Token) (R : list Token) :
  OnTrackAfter Aligning T R = true ->
  is_ T tok_comment = false /\ CursorOnTrack Aligning (T :: R) = true.
Proof.
  intros H.
  assert (Hc : is_ T tok_comment = false).
  { unfold OnTrackAfter, Returned, Held in H.
    destruct (is_ T tok_eof) eqn:He; [apply eof_not_comment; exact He|].
    destruct (is_ T tok_comment); [discriminate | reflexivity]. }
  split; [exact Hc|]. cbn [CursorOnTrack]. rewrite Hc. exact H.
Qed.

Lemma OnLine_stepped (m : CursorMode) (K : Token) :
  is_ K tok_comment = true ->
  OnDirectiveLine (OnLine m) K = OnLine (SteppedOver m K).
Proof.
  intros Hc. unfold OnDirectiveLine. rewrite (comment_not_hash _ Hc).
  destruct m; simpl; try reflexivity.
  destruct (isAtStartOfLine K); reflexivity.
Qed.

Lemma SteppedOver_skipping (m : CursorMode) (K : Token) :
  (m = Aligning -> SteppedOver m K = Aligning) /\
  (m <> Aligning -> SteppedOver m K <> Aligning).
Proof.
  destruct m; simpl; split; try congruence.
  destruct (isAtStartOfLine K); congruence.
Qed.

Lemma skipn_pred (l : list Token) (C : nat) (T : Token) :
  1 <= C -> nth_error l (pred C) = Some T ->
  skipn (pred C) l = T :: skipn C l.
Proof.
  intros H1 Hn. rewrite (nth_error_skipn _ _ _ _ Hn).
  replace (S (pred C)) with C by lia. reflexivity.
Qed.

Lemma NoCommentedDirective_at (l : list Token) :
  NoCommentedDirective l = true ->
  forall (i : nat) (H : Token),
  nth_error l i = Some H ->
  is_ H tok_hash && isAtStartOfLine H = true ->
  WarningOrPragmaMark (skipn (S i) l) = false.
Proof.
  induction l as [|T l IH]; intros Hn i H Hi Hh.
  - destruct i; discriminate.
  - cbn [NoCommentedDirective] in Hn. apply andb_true_iff in Hn.
    destruct Hn as [Hn1 Hn2]. destruct i as [|i]; simpl in Hi.
    + inversion Hi; subst. rewrite Hh in Hn1. simpl in Hn1.
      apply negb_true_iff in Hn1. exact Hn1.
    + change (skipn (S (S i)) (T :: l)) with (skipn (S i) l).
      apply (IH Hn2 i H Hi Hh).
Qed.

(** The preprocessor's next token, when none of the second list has been
    returned and its main-file tokens are those of the first. *)
Lemma Lex_main (SM : SourceManager) (L0 : SourceLocation)
    (L : list Token) (T : Token) (P : Preprocessor) :
  FromMain SM (EofToken L0) = true ->
  (T, P) = Lex (mkPP L L0) ->
  (FromMain SM T = false ->
   exists L', L = T :: L' /\ P = mkPP L' L0 /\
              filter (FromMain SM) L = filter (FromMain SM) L') /\
  (FromMain SM T = true ->
   (L = [] /\ T = EofToken L0 /\ P = mkPP [] L0) \/
   (exists L', L = T :: L' /\ P = mkPP L' L0 /\
               filter (FromMain SM) L = T :: filter (FromMain SM) L')).
Proof.
  intros HM HL. unfold Lex in HL. simpl in HL.
  destruct L as [|X L']; inversion HL; subst; split; intros Hm.
  - congruence.
  - left. auto.
  - exists L'. simpl. rewrite Hm. auto.
  - right. exists L'. simpl. rewrite Hm. auto.
Qed.

Section Plain.

Variable SM : SourceManager.
Variable RawTokens : list Token.
Variable E : Token.
Variable L0 : SourceLocation.
Hypothesis HE : EndsWithEof RawTokens E.
Hypothesis HI : IdentifiersResolved RawTokens.
Hypothesis HW : NoCommentedDirective RawTokens = true.
Hypothesis HM : FromMain SM (EofToken L0) = true.

#[local] Abbreviation RawOffs := (RawOffsOf SM).
#[local] Abbreviation PPOffs := (PPOffsOf SM).

(** The cursor steps over one comment at most, and with the comments
    where it steps over them that is enough. *)
Lemma fetch_step (m : CursorMode) (C : nat) :
  C < List.length RawTokens ->
  CursorOnTrack m (skipn C RawTokens) = true ->
  exists T' C' m1,
    GetNextRawTok RawTokens C false = Done (T', C') /\
    C < C' /\ C' <= List.length RawTokens /\
    nth_error RawTokens (pred C') = Some T' /\
    (m = Aligning -> m1 = Aligning) /\
    (m <> Aligning -> m1 <> Aligning) /\
    PlainExpansion (OnLine m1) (skipn (pred C') RawTokens)
      = PlainExpansion (OnLine m) (skipn C RawTokens) /\
    OnTrackAfter m1 T' (skipn C' RawTokens) = true.
Proof.
  intros Hlt Hca.
  destruct (nth_error RawTokens C) as [X|] eqn:HX;
    [|apply nth_error_None in HX; lia].
  rewrite (nth_error_skipn _ _ _ _ HX) in Hca |- *.
  cbn [CursorOnTrack] in Hca.
  destruct (is_ X tok_comment) eqn:Hc.
  - assert (Hs : S C < List.length RawTokens).
    { apply (not_eof_below_size RawTokens E HE (S C) X); auto.
      apply comment_not_eof. exact Hc. }
    destruct (nth_error RawTokens (S C)) as [Y|] eqn:HY;
      [|apply nth_error_None in HY; lia].
    rewrite (nth_error_skipn _ _ _ _ HY) in Hca |- *.
    exists Y, (S (S C)), (SteppedOver m X). cbn [pred].
    rewrite (nth_error_skipn _ _ _ _ HY).
    destruct (SteppedOver_skipping m X) as [S1 S2].
    split; [eapply GetNextRawTok_skip; eauto|].
    split; [lia|]. split; [lia|]. split; [exact HY|].
    split; [exact S1|]. split; [exact S2|]. split; [|exact Hca].
    rewrite (PlainExpansion_comment (OnLine m) X _ Hc).
    rewrite (OnLine_stepped m X Hc). reflexivity.
  - exists X, (S C), m. cbn [pred].
    rewrite (nth_error_skipn _ _ _ _ HX).
    split; [apply GetNextRawTok_plain; auto|].
    repeat split; auto; lia.
Qed.

(** The skip over a directive line ends on the token the preprocessor
    goes on with. *)
Lemma SkipLine_plain (fuel : nat) :
  forall (m : CursorMode) (T : Token) (C : nat),
  m <> Aligning ->
  1 <= C -> C <= List.length RawTokens ->
  nth_error RawTokens (pred C) = Some T ->
  OnTrackAfter m T (skipn C RawTokens) = true ->
  List.length RawTokens - C <= fuel ->
  exists T1 C1,
    SkipLine RawTokens fuel T C = Done (T1, C1) /\
    C <= C1 /\ C1 <= List.length RawTokens /\
    nth_error RawTokens (pred C1) = Some T1 /\
    is_ T1 tok_comment = false /\
    PlainExpansion false (skipn (pred C1) RawTokens)
      = PlainExpansion (OnLine m) (skipn (pred C) RawTokens) /\
    CursorOnTrack Aligning (skipn (pred C1) RawTokens) = true.
Proof.
  assert (Hstop : forall (m : CursorMode) (T : Token) (C : nat),
            1 <= C -> C <= List.length RawTokens ->
            nth_error RawTokens (pred C) = Some T ->
            OnTrackAfter m T (skipn C RawTokens) = true ->
            negb (isAtStartOfLine T) && isNot T tok_eof = false ->
            exists T1 C1,
              Done (T, C) = Done (T1, C1) /\
              C <= C1 /\ C1 <= List.length RawTokens /\
              nth_error RawTokens (pred C1) = Some T1 /\
              is_ T1 tok_comment = false /\
              PlainExpansion false (skipn (pred C1) RawTokens)
                = PlainExpansion (OnLine m) (skipn (pred C) RawTokens) /\
              CursorOnTrack Aligning (skipn (pred C1) RawTokens) = true).
  { intros m T C H1 H2 Hn Hot Hgo. exists T, C.
    rewrite (skipn_pred _ _ _ H1 Hn).
    assert (Hs : isAtStartOfLine T = true \/ is_ T tok_eof = true).
    { unfold isNot in Hgo.
      destruct (isAtStartOfLine T), (is_ T tok_eof); simpl in Hgo; auto;
        discriminate. }
    unfold OnTrackAfter in Hot. rewrite (Returned_line_start m T Hs) in Hot.
    destruct (OnTrack_held T _ Hot) as [Q1 Q2].
    rewrite (PlainExpansion_line_start (OnLine m) T _ Hs).
    repeat split; auto. }
  induction fuel as [|fuel IH]; intros m T C Hm H1 H2 Hn Hot Hfuel;
    cbn [SkipLine];
    destruct (negb (isAtStartOfLine T) && isNot T tok_eof) eqn:Hgo;
    try (apply Hstop; assumption).
  - apply andb_true_iff in Hgo. destruct Hgo as [_ Hk].
    apply negb_true_iff in Hk.
    pose proof (not_eof_below_size RawTokens E HE _ _ H2 Hn Hk). lia.
  - apply andb_true_iff in Hgo. destruct Hgo as [Hsl Hk].
    apply negb_true_iff in Hsl. apply negb_true_iff in Hk.
    pose proof (not_eof_below_size RawTokens E HE _ _ H2 Hn Hk) as Hlt.
    destruct (Returned_skipped m T _ Hm Hsl Hk Hot) as [Hca HPE].
    destruct (fetch_step m C Hlt Hca)
      as [T' [C' [m1 [G [A1 [A2 [A3 [_ [A4 [A5 A6]]]]]]]]]].
    rewrite G. cbn [bind].
    destruct (IH m1 T' C' (A4 Hm) ltac:(lia) A2 A3 A6 ltac:(lia))
      as [T1 [C1 [B1 [B2 [B3 [B4 [B5 [B6 B7]]]]]]]].
    exists T1, C1. rewrite (skipn_pred _ _ _ H1 Hn), HPE, B6, A5.
    repeat split; auto; lia.
Qed.

(** One iteration over an unexpanded file: a token of another file is
    dropped, a directive line is skipped without an edit, any other raw
    token matches the preprocessed one. *)
Lemma LoopBody_plain (fuel : nat) (st : State) :
  PlainInv SM RawTokens L0 st -> LoopCond st = true ->
  StepsLeft SM RawTokens st <= fuel ->
  exists st',
    LoopBody SM RawTokens fuel st = Done st' /\
    PlainInv SM RawTokens L0 st' /\
    StepsLeft SM RawTokens st' < StepsLeft SM RawTokens st.
Proof.
  intros [[Hrb [HR [L [HL Hlex]]]] [Hnc Hca]] HC Hfuel.
  pose proof HR as [R1 [R2 R3]]. unfold StepsLeft, RawLeft in *.
  destruct (Lex_main SM L0 L _ _ HM Hlex) as [Hforeign Hmain].
  unfold LoopBody.
  destruct (FromMain SM (PPTok st)) eqn:Hm; cbn [negb].
  - (* a token of the main file *)
    rewrite (skipn_pred _ _ _ R1 R3) in Hca, HL.
    assert (Hk : is_ (RawTok st) tok_eof = false).
    { destruct (is_ (RawTok st) tok_eof) eqn:Hk; [|reflexivity].
      exfalso. rewrite (PlainExpansion_eof _ _ _ Hk) in HL.
      assert (HF : [] = filter (FromMain SM) L) by (inversion HL; congruence).
      destruct (Hmain eq_refl) as [[_ [Ha _]] | [L' [_ [_ Hf]]]].
      - unfold LoopCond, isNot in HC. rewrite Hk, Ha in HC. discriminate.
      - rewrite Hf in HF. discriminate. }
    assert (Hlt : CurRawTok st < List.length RawTokens)
      by (apply (not_eof_below_size RawTokens E HE _ _ R2 R3 Hk)).
    cbn [CursorOnTrack] in Hca. rewrite Hnc in Hca.
    fold (OnTrackAfter Aligning (RawTok st) (skipn (CurRawTok st) RawTokens))
      in Hca.
    unfold OnTrackAfter, Returned, Held in Hca. rewrite Hk, Hnc in Hca.
    destruct (is_ (RawTok st) tok_hash && isAtStartOfLine (RawTok st)) eqn:Hd;
      cbn [AfterStep] in Hca.
    + (* a directive line *)
      assert (HDone : CommentOutDirective SM RawTokens (RawTok st)
                        (CurRawTok st) (RB st) = Done (RB st)).
      { pose proof (CommentOutDirective_run SM RawTokens E HE (RawTok st)
                      (CurRawTok st) (RB st) Hlt) as Hrun.
        pose proof (CommentOutDirective_resolved SM RawTokens HI (RawTok st)
                      (CurRawTok st) (RB st)) as Hres.
        destruct (CommentOutDirective SM RawTokens (RawTok st) (CurRawTok st)
                    (RB st)) as [Buf|f|] eqn:HD.
        - apply CommentOutDirective_Done in HD.
          pose proof (NoCommentedDirective_at RawTokens HW _ _ R3 Hd) as Hno.
          replace (S (pred (CurRawTok st))) with (CurRawTok st) in Hno by lia.
          rewrite Hno, app_nil_r in HD. now subst.
        - subst f. contradiction.
        - contradiction. }
      rewrite HDone. cbn [bind].
      assert (Hdl : OnDirectiveLine false (RawTok st) = true)
        by (unfold OnDirectiveLine; rewrite Hd; reflexivity).
      rewrite (PlainExpansion_directive false _ _ Hk Hdl) in HL.
      destruct (fetch_step SkippingLine (CurRawTok st) Hlt Hca)
        as [T [C [m1 [G [A1 [A2 [A3 [_ [A4 [A5 A6]]]]]]]]]].
      rewrite G. cbn [bind].
      destruct (SkipLine_plain fuel m1 T C (A4 ltac:(discriminate))
                  ltac:(lia) A2 A3 A6 ltac:(lia))
        as [T1 [C1 [B1 [B2 [B3 [B4 [B5 [B6 B7]]]]]]]].
      rewrite B1. cbn [bind].
      eexists. split; [reflexivity|]. split; [|simpl; rewrite Hm; lia].
      unfold PlainInv, Aligned. simpl.
      split; [|split; [exact B5 | exact B7]].
      split; [exact Hrb|]. split; [repeat split; simpl; auto; lia|].
      exists L. split; [|exact Hlex]. rewrite B6, A5. exact HL.
    + (* any other token *)
      rewrite (PlainExpansion_plain _ _ Hk Hnc Hd) in HL.
      destruct (Hmain eq_refl) as [[-> _] | [L' [-> [HP Hf]]]];
        [inversion HL|].
      rewrite Hf in HL.
      inversion HL as [|x p xs ys [_ [_ [Hoffs Hsame]]] HL' Hx1 Hx2]; subst.
      rewrite Hoffs, N.eqb_refl, Hsame. cbn [andb].
      destruct (fetch_step Aligning (CurRawTok st) Hlt Hca)
        as [T [C [m1 [G [A1 [A2 [A3 [A4 [_ [A5 A6]]]]]]]]]].
      rewrite (A4 eq_refl) in A5, A6.
      destruct (OnTrack_held T _ A6) as [Q1 Q2].
      rewrite G. cbn [bind]. rewrite HP.
      destruct (Lex {| Pending := L'; EofLoc := L0 |}) as [T' P'] eqn:HLex.
      eexists. split; [reflexivity|]. split.
      * unfold PlainInv, Aligned. simpl.
        split; [|split; [exact Q1|];
                 rewrite (skipn_pred RawTokens C T ltac:(lia) A3); exact Q2].
        split; [exact Hrb|]. split; [repeat split; simpl; auto; lia|].
        exists L'. split; [|symmetry; exact HLex].
        cbn [OnLine] in A5. rewrite A5. exact HL'.
      * simpl. unfold Lex in HLex. simpl in HLex.
        destruct L' as [|Y L'']; inversion HLex; subst; simpl.
        -- rewrite HM. lia.
        -- destruct (FromMain SM T'); lia.
  - (* a token of another file *)
    destruct (Hforeign eq_refl) as [L' [-> [HP Hf]]].
    rewrite HP. destruct (Lex {| Pending := L'; EofLoc := L0 |})
      as [T' P'] eqn:HLex.
    eexists. split; [reflexivity|]. split.
    + unfold PlainInv, Aligned. simpl.
      split; [|split; [exact Hnc | exact Hca]].
      split; [exact Hrb|]. split; [exact HR|].
      exists L'. split; [|symmetry; exact HLex]. rewrite <- Hf. exact HL.
    + simpl. unfold Lex in HLex. simpl in HLex.
      destruct L' as [|Y L'']; inversion HLex; subst; simpl.
      * rewrite HM. lia.
      * destruct (FromMain SM T'); lia.
Qed.

Lemma MainLoop_plain (fuel : nat) :
  forall st : State,
  PlainInv SM RawTokens L0 st -> StepsLeft SM RawTokens st < fuel ->
  exists st', MainLoop SM RawTokens fuel st = Done st' /\ RB st' = [].
Proof.
  induction fuel as [|fuel IH]; intros st HInv Hfuel; [lia|].
  simpl. destruct (LoopCond st) eqn:HC.
  - destruct (LoopBody_plain fuel st HInv HC ltac:(lia)) as [st' [H1 [H2 H3]]].
    rewrite H1. simpl. apply IH; [exact H2 | lia].
  - exists st. split; [reflexivity|]. destruct HInv as [[Hrb _] _]. exact Hrb.
Qed.

(** The state the loop starts in, over an unexpanded file. *)
Lemma InitState_plain (P : Preprocessor) :
  EofLoc P = L0 ->
  Forall2 (SameSpot SM) (PlainExpansion false RawTokens)
          (filter (FromMain SM) (Pending P)) ->
  CursorOnTrack Aligning RawTokens = true ->
  exists st0,
    InitState RawTokens P = Done st0 /\ PlainInv SM RawTokens L0 st0 /\
    StepsLeft SM RawTokens st0
      <= List.length RawTokens + S (List.length (Pending P)).
Proof.
  intros HL0 HU HC.
  destruct (EndsWithEof_last _ _ HE) as [_ Hpos].
  destruct (fetch_step Aligning 0 Hpos HC)
    as [T [C [m1 [G [A1 [A2 [A3 [A4 [_ [A5 A6]]]]]]]]]].
  rewrite (A4 eq_refl) in A5, A6.
  destruct (OnTrack_held T _ A6) as [Q1 Q2].
  unfold InitState. rewrite G. cbn [bind].
  destruct (Lex P) as [T' P'] eqn:HLex.
  eexists. split; [reflexivity|]. split.
  - unfold PlainInv, Aligned. simpl.
    split; [|split; [exact Q1|];
             rewrite (skipn_pred RawTokens C T ltac:(lia) A3); exact Q2].
    split; [reflexivity|]. split; [repeat split; simpl; auto; lia|].
    exists (Pending P). split.
    + cbn [OnLine] in A5. rewrite A5. exact HU.
    + rewrite <- HLex, <- HL0. destruct P; reflexivity.
  - unfold StepsLeft, RawLeft. simpl.
    unfold Lex in HLex. destruct (Pending P) as [|Y R] eqn:HP;
      inversion HLex; subst; simpl; try rewrite HP; simpl;
      match goal with |- context [if ?c then _ else _] => destruct c end;
      lia.
Qed.

End Plain.

(** ** One iteration, branch by branch *)

Section Claims.

Variable SM : SourceManager.
Variable RawTokens : list Token.

#[local] Abbreviation RawOffs := (RawOffsOf SM).
#[local] Abbreviation PPOffs := (PPOffsOf SM).

(** C6: a deletion run issues two edits and no more.  The first is the
    opener at the offset of the first deleted raw token, the raw token
    held: [" /*"] when that token has no leading space and ["/*"] when it
    has.  The second is the closer ["*/"] at the position where the run
    ended: the end of [Last], the last token deleted, which is the token
    before [Stop], the first token after the raw token held that is a
    comment or that the loop condition turns down.  The run returns when
    the raw list ends with end-of-file and the preprocessed token does
    not lie beyond that token. *)
Theorem deletion_run_edits (fuel : nat) (st : State) :
  FromMain SM (PPTok st) = true ->
  is_ (RawTok st) tok_hash && isAtStartOfLine (RawTok st) = false ->
  (PPOffs (PPTok st) =? RawOffs (RawTok st))%N &&
    isSameToken (RawTok st) (PPTok st) = false ->
  (RawOffs (RawTok st) <= PPOffs (PPTok st))%N ->
  RawInv RawTokens st ->
  (forall st', LoopBody SM RawTokens fuel st = Done st' ->
     exists j Last Stop,
       CurRawTok st <= j /\
       nth_error RawTokens (pred j) = Some Last /\
       nth_error RawTokens j = Some Stop /\
       (forall i X, CurRawTok st <= i < j ->
          nth_error RawTokens i = Some X ->
          is_ X tok_comment = false /\
          StaysInRun SM (PPOffs (PPTok st)) (PPTok st) X = true) /\
       (is_ Stop tok_comment = true \/
        StaysInRun SM (PPOffs (PPTok st)) (PPTok st) Stop = false) /\
       RB st' = RB st ++
         [InsertTextAfter (RawOffs (RawTok st))
            (if hasLeadingSpace (RawTok st) then "/*" else " /*");
          InsertTextBefore (uadd (RawOffs Last) (getLength Last)) "*/"]) /\
  (forall E, EndsWithEof RawTokens E ->
     is_ (RawTok st) tok_eof = false ->
     (PPOffs (PPTok st) < RawOffs E)%N \/
     (PPOffs (PPTok st) = RawOffs E /\ isSameToken E (PPTok st) = true) ->
     RawLeft RawTokens st <= fuel ->
     exists st', LoopBody SM RawTokens fuel st = Done st').
Proof.
  intros Hm Hd Hn Hle [R1 [R2 R3]]. unfold LoopBody. rewrite Hm, Hd, Hn. simpl.
  apply N.leb_le in Hle. rewrite Hle. split.
  - intros st'.
    destruct (DeletionRun SM RawTokens fuel (PPOffs (PPTok st)) (PPTok st)
                (RawOffs (RawTok st)) (RawTok st) (CurRawTok st))
      as [[[EndPos T] C]| |] eqn:HD; simpl; try discriminate.
    destruct (DeletionRun_span SM RawTokens fuel _ _ _ _ _ _ _ R1 R3 HD)
      as [j [Last [Stop [J1 [J2 [J3 [J4 [J5 J6]]]]]]]].
    intros H. inversion H; subst; simpl.
    exists j, Last, Stop. repeat split; auto; try (apply (J4 i X); auto).
    rewrite <- app_assoc. simpl.
    destruct (hasLeadingSpace (RawTok st)); reflexivity.
  - intros E HE Hk Hpp Hfuel. unfold RawLeft in Hfuel.
    assert (Hlt : CurRawTok st < List.length RawTokens)
      by (apply (not_eof_below_size RawTokens E HE _ _ R2 R3 Hk)).
    pose proof (DeletionRun_run SM RawTokens E HE (PPTok st) Hpp fuel
                  (RawOffs (RawTok st)) (RawTok st) (CurRawTok st) Hlt) as HD.
    destruct (DeletionRun SM RawTokens fuel (PPOffs (PPTok st)) (PPTok st)
                (RawOffs (RawTok st)) (RawTok st) (CurRawTok st))
      as [[[EndPos T] C]| |]; simpl.
    + eexists. reflexivity.
    + contradiction.
    + lia.
Qed.

(** C2, as the code has it: when the token a deletion run fetches is a
    comment, the run ends at once; the raw cursor steps past the comment,
    and the end position of the run is the end of the token deleted just
    before the comment.  With the raw tokens in file order that position
    is not after the start of the comment, so the closer goes in front of
    the comment and the comment stays outside the closed span. *)
Theorem deletion_run_stops_before_comment (fuel : nat) (PO : N) (PPT : Token)
    (RO : N) (Tok : Token) (Cur : nat) (E Cmt : Token) :
  EndsWithEof RawTokens E ->
  nth_error RawTokens Cur = Some Cmt ->
  is_ Cmt tok_comment = true ->
  (exists T C,
     DeletionRun SM RawTokens (S fuel) PO PPT RO Tok Cur
       = Done (uadd RO (getLength Tok), T, C) /\
     GetNextRawTok RawTokens (S Cur) false = Done (T, C) /\
     S Cur < C) /\
  (InFileOrder SM RawTokens -> 1 <= Cur ->
   nth_error RawTokens (pred Cur) = Some Tok -> RO = RawOffs Tok ->
   (uadd RO (getLength Tok) <= RawOffs Cmt)%N).
Proof.
  intros HE Hn Hc. split.
  - simpl.
    rewrite (GetNextRawTok_plain _ _ true _ Hn) by (left; reflexivity). simpl.
    rewrite Hc.
    assert (Hlt : S Cur < List.length RawTokens).
    { apply (not_eof_below_size RawTokens E HE (S Cur) Cmt).
      - assert (Cur < List.length RawTokens)
          by (apply nth_error_Some; congruence).
        lia.
      - exact Hn.
      - apply comment_not_eof. exact Hc. }
    destruct (GetNextRawTok_total _ _ _ false HE Hlt) as [T [C G]].
    exists T, C. rewrite G. simpl.
    destruct (GetNextRawTok_advances _ _ _ _ _ G) as [A _].
    repeat split; auto.
  - intros HO H1 Ht ->.
    assert (Hlt : Cur < List.length RawTokens)
      by (apply nth_error_Some; congruence).
    rewrite (end_of_token SM RawTokens HO (pred Cur) Tok Ht) by lia.
    apply (HO (pred Cur) Tok Cmt Ht).
    replace (S (pred Cur)) with Cur by lia. exact Hn.
Qed.

(** C1, as the code has it: when the raw token's offset is greater than
    the preprocessed token's offset, the iteration takes the preprocessed
    tokens one after the other while their offset stays below the raw
    token's offset, collects a space and the spelling for each, adds one
    space at the end, and issues the whole text as one edit.  The edit is
    an insertion before the offset the preprocessed token had when the run
    began, and the raw cursor stays where it was.  The run returns when
    the preprocessor's end-of-file token comes last and is not below the
    raw token's offset. *)
Theorem insertion_run_edit (fuel : nat) (st : State) :
  FromMain SM (PPTok st) = true ->
  is_ (RawTok st) tok_hash && isAtStartOfLine (RawTok st) = false ->
  (PPOffs (PPTok st) < RawOffs (RawTok st))%N ->
  let Below := fun t => (PPOffs t <? RawOffs (RawTok st))%N in
  let Stream := PPTok st :: Pending (PP st) in
  (forall st', LoopBody SM RawTokens fuel st = Done st' ->
     RB st' = RB st ++
       [InsertTextBefore (PPOffs (PPTok st))
          (Render (TakeBelow Below Stream) ++ " ")%string] /\
     TakeBelow Below Stream <> [] /\
     PPTok st' = hd (EofToken (EofLoc (PP st))) (DropBelow Below Stream) /\
     Pending (PP st') = tl (DropBelow Below Stream) /\
     CurRawTok st' = CurRawTok st /\
     RawTok st' = RawTok st) /\
  (PPEnd (PPTok st) (PP st) ->
   Below (EofToken (EofLoc (PP st))) = false ->
   ExpansionLeft st <= fuel ->
   exists st', LoopBody SM RawTokens fuel st = Done st').
Proof.
  intros Hm Hd Hlt Below Stream. unfold LoopBody. rewrite Hm, Hd. simpl.
  assert (Hne : (PPOffs (PPTok st) =? RawOffs (RawTok st))%N = false)
    by (apply N.eqb_neq; lia).
  assert (Hle : (RawOffs (RawTok st) <=? PPOffs (PPTok st))%N = false)
    by (apply N.leb_gt; exact Hlt).
  rewrite Hne, Hle. simpl. split.
  - intros st'.
    destruct (InsertionRun SM fuel (RawOffs (RawTok st)) (PPTok st) (PP st) "")
      as [[[Ex T] P]| |] eqn:Hr; simpl; try discriminate.
    apply InsertionRun_Done in Hr. simpl in Hr. destruct Hr as [H1 [H2 H3]].
    intros H. inversion H; subst; simpl.
    apply N.ltb_lt in Hlt. subst Below Stream. simpl. rewrite Hlt in *. simpl.
    repeat split; auto. discriminate.
  - intros HEnd Hs Hfuel.
    destruct (InsertionRun_terminates SM (RawOffs (RawTok st))
                (EofLoc (PP st)) Hs fuel (PPTok st) (PP st) ""
                HEnd eq_refl Hfuel) as [Ex [T [P [H1 _]]]].
    rewrite H1. simpl. eexists. reflexivity.
Qed.

End Claims.

(** * Further properties of the code *)

(** ** isSameToken as a relation *)

Lemma isSameToken_bool (Raw PPT : Token) :
  isSameToken Raw PPT =
  IIptr_eqb (getIdentifierInfo PPT) (getIdentifierInfo Raw) &&
  (kind_eqb (getKind PPT) (getKind Raw) ||
   match getIdentifierInfo PPT with Some _ => true | None => false end).
Proof.
  unfold isSameToken.
  destruct (kind_eqb (getKind PPT) (getKind Raw)),
           (IIptr_eqb (getIdentifierInfo PPT) (getIdentifierInfo Raw)),
           (getIdentifierInfo PPT); reflexivity.
Qed.

Lemma IIptr_eqb_refl (a : option IdentifierInfo) : IIptr_eqb a a = true.
Proof. apply IIptr_eqb_eq. reflexivity. Qed.

Lemma IIptr_eqb_sym (a b : option IdentifierInfo) :
  IIptr_eqb a b = IIptr_eqb b a.
Proof.
  destruct (IIptr_eqb a b) eqn:H1, (IIptr_eqb b a) eqn:H2; auto.
  - apply IIptr_eqb_eq in H1. subst. rewrite IIptr_eqb_refl in H2.
    discriminate.
  - apply IIptr_eqb_eq in H2. subst. rewrite IIptr_eqb_refl in H1.
    discriminate.
Qed.

Lemma kind_eqb_refl (a : TokenKind) : kind_eqb a a = true.
Proof. apply kind_eqb_eq. reflexivity. Qed.

Lemma kind_eqb_sym (a b : TokenKind) : kind_eqb a b = kind_eqb b a.
Proof.
  unfold kind_eqb.
  destruct (TokenKind_eq_dec a b), (TokenKind_eq_dec b a); congruence.
Qed.

(** X1: isSameToken is an equivalence on tokens: every token is the same
    as itself, the order of the two arguments does not matter although
    only the second one is tested for a null identifier info, and two
    tokens that are each the same as a third are the same. *)
Theorem isSameToken_equivalence :
  (forall A, isSameToken A A = true) /\
  (forall A B, isSameToken A B = isSameToken B A) /\
  (forall A B C, isSameToken A B = true -> isSameToken B C = true ->
                 isSameToken A C = true).
Proof.
  split; [|split].
  - intros A. rewrite isSameToken_bool, IIptr_eqb_refl, kind_eqb_refl.
    reflexivity.
  - intros A B. rewrite !isSameToken_bool.
    rewrite (IIptr_eqb_sym (getIdentifierInfo B)),
            (kind_eqb_sym (getKind B)).
    destruct (IIptr_eqb (getIdentifierInfo A) (getIdentifierInfo B)) eqn:HI;
      [|reflexivity].
    apply IIptr_eqb_eq in HI. rewrite HI. reflexivity.
  - intros A B C. rewrite !isSameToken_bool. intros H1 H2.
    apply andb_true_iff in H1. destruct H1 as [I1 K1].
    apply andb_true_iff in H2. destruct H2 as [I2 K2].
    apply IIptr_eqb_eq in I1. apply IIptr_eqb_eq in I2.
    rewrite I2, I1 in K2. rewrite I1 in K1.
    rewrite I2, I1, IIptr_eqb_refl. cbn [andb].
    destruct (getIdentifierInfo A) as [II|]; [apply orb_true_r|].
    rewrite orb_false_r in *.
    apply kind_eqb_eq in K1. apply kind_eqb_eq in K2.
    apply kind_eqb_eq. congruence.
Qed.

(** ** The raw cursor at the ends of the vector *)

(** X2: GetNextRawTok stops on its assertion exactly when the cursor is
    at or past the size of the vector.  The one other fault is a read past
    the end that no assertion guards: comments are to be skipped and the
    cursor is on a comment that is the last token of the vector. *)
Theorem GetNextRawTok_faults (RawTokens : list Token) (CurTok : nat)
    (ReturnComment : bool) (f : Fault) :
  GetNextRawTok RawTokens CurTok ReturnComment = Abort f <->
  (f = OverranEof /\ List.length RawTokens <= CurTok) \/
  (f = OutOfBounds /\ ReturnComment = false /\
   S CurTok = List.length RawTokens /\
   exists K, nth_error RawTokens CurTok = Some K /\
             is_ K tok_comment = true).
Proof.
  unfold GetNextRawTok.
  destruct (CurTok <? List.length RawTokens) eqn:Hlt.
  - apply Nat.ltb_lt in Hlt.
    destruct (nth_error RawTokens CurTok) as [K|] eqn:HK;
      [|apply nth_error_None in HK; lia].
    destruct (negb ReturnComment && is_ K tok_comment) eqn:Hs.
    + apply andb_true_iff in Hs. destruct Hs as [Hb Hc].
      apply negb_true_iff in Hb.
      destruct (nth_error RawTokens (S CurTok)) as [R|] eqn:HR.
      * split; [discriminate|].
        intros [[_ Hle] | [_ [_ [Heq _]]]]; [lia|].
        assert (S CurTok < List.length RawTokens)
          by (apply nth_error_Some; congruence).
        lia.
      * apply nth_error_None in HR. split.
        -- intros H. inversion H; subst. right.
           repeat split; auto; [lia|]. exists K. auto.
        -- intros [[_ Hle] | [-> _]]; [lia | reflexivity].
    + rewrite HK. split; [discriminate|].
      intros [[_ Hle] | [_ [Hb [_ [K' [HK' Hc]]]]]]; [lia|].
      assert (K' = K) by congruence. subst K'.
      rewrite Hb, Hc in Hs. discriminate.
  - apply Nat.ltb_ge in Hlt. split.
    + intros H. inversion H; subst. left. auto.
    + intros [[-> _] | [_ [_ [Heq _]]]]; [reflexivity | lia].
Qed.

(** X3: a comment comes back from a call that was to skip comments only
    as the second of two comments in a row; a call that is to return
    comments returns the token under the cursor and moves on by one. *)
Theorem GetNextRawTok_comment_returned (RawTokens : list Token)
    (CurTok : nat) (ReturnComment : bool) (T : Token) (C : nat) :
  GetNextRawTok RawTokens CurTok ReturnComment = Done (T, C) ->
  (ReturnComment = true ->
   nth_error RawTokens CurTok = Some T /\ C = S CurTok) /\
  (ReturnComment = false -> is_ T tok_comment = true ->
   exists K, nth_error RawTokens CurTok = Some K /\
             is_ K tok_comment = true /\
             nth_error RawTokens (S CurTok) = Some T /\
             C = S (S CurTok)).
Proof.
  intros H. destruct (GetNextRawTok_Done _ _ _ _ _ H)
    as [Hn [_ [[-> Hk] | [-> [Hb [K [HK Hc]]]]]]].
  - split; [auto|].
    intros Hb Hc. exfalso. subst ReturnComment.
    unfold GetNextRawTok in H.
    destruct (CurTok <? List.length RawTokens); [|discriminate].
    rewrite Hk in H. simpl in H. rewrite Hc in H.
    destruct (nth_error RawTokens (S CurTok)); [|discriminate].
    inversion H. lia.
  - split; [intros Hb'; congruence|].
    intros _ _. exists K. simpl in Hn. auto.
Qed.

(** ** LexRawTokensFromMainFile *)

Section LexingFacts.

Variable LookUp : Token -> IdentifierInfo.

Lemma ResolveIdentifier_kind (T : Token) (K : TokenKind) :
  is_ (ResolveIdentifier LookUp T) K = is_ T K.
Proof.
  unfold ResolveIdentifier.
  destruct (is_ T tok_identifier &&
            match getIdentifierInfo T with None => true | Some _ => false end);
    reflexivity.
Qed.

Lemma ResolveIdentifier_resolved (T : Token) :
  is_ T tok_identifier = true ->
  getIdentifierInfo (ResolveIdentifier LookUp T) <> None.
Proof.
  intros Hi. unfold ResolveIdentifier. rewrite Hi. simpl.
  destruct (getIdentifierInfo T) eqn:HT; simpl; congruence.
Qed.

Lemma ResolveIdentifier_other (T : Token) :
  is_ T tok_identifier = false -> ResolveIdentifier LookUp T = T.
Proof. intros Hi. unfold ResolveIdentifier. rewrite Hi. reflexivity. Qed.

Lemma FirstEof_is_eof (L : SourceLocation) (Pend : list Token) :
  is_ (FirstEof (EofToken L) Pend) tok_eof = true.
Proof.
  induction Pend as [|T Pend IH]; simpl; [reflexivity|].
  destruct (is_ T tok_eof) eqn:HT; auto.
Qed.

Lemma eof_not_identifier (T : Token) :
  is_ T tok_eof = true -> is_ T tok_identifier = false.
Proof.
  intros H. apply is_true_iff in H. unfold is_. rewrite H. reflexivity.
Qed.

(** What the loop returns, by the fuel it has. *)
Lemma LexRawTokensFromMainFile_result (Pend : list Token) :
  forall (L : SourceLocation) (Acc : list Token) (fuel : nat),
  (fuel <= List.length (BeforeEof Pend) ->
   LexRawTokensFromMainFile LookUp fuel (mkLexer Pend L) Acc = OutOfFuel) /\
  (List.length (BeforeEof Pend) < fuel ->
   LexRawTokensFromMainFile LookUp fuel (mkLexer Pend L) Acc =
   Done (Acc ++ map (ResolveIdentifier LookUp) (BeforeEof Pend)
             ++ [FirstEof (EofToken L) Pend])).
Proof.
  induction Pend as [|T Pend IH]; intros L Acc fuel.
  - split; intros Hf; destruct fuel as [|fuel]; simpl in *;
      try reflexivity; lia.
  - destruct fuel as [|fuel]; [split; [reflexivity | simpl; lia]|].
    cbn [LexRawTokensFromMainFile LexFromRawLexer LexPending BufferEnd
         BeforeEof FirstEof].
    unfold isNot. rewrite ResolveIdentifier_kind.
    destruct (is_ T tok_eof) eqn:HT; cbn [negb].
    + split; [simpl; lia|]. intros _.
      rewrite (ResolveIdentifier_other T (eof_not_identifier T HT)).
      reflexivity.
    + destruct (IH L (Acc ++ [ResolveIdentifier LookUp T]) fuel) as [H1 H2].
      split; intros Hf; simpl in Hf.
      * apply H1. lia.
      * rewrite H2 by lia. rewrite <- app_assoc. reflexivity.
Qed.

End LexingFacts.

(** X4: given fuel, LexRawTokensFromMainFile returns, and what it returns
    is the vector it was given followed by the lexer's tokens in their
    order, comments among them, up to the first end-of-file token and that
    token; an identifier that came without identifier info has it looked
    up, and no other token is changed. *)
Theorem LexRawTokensFromMainFile_returns (LookUp : Token -> IdentifierInfo)
    (RawLex : Lexer) (RawTokens : list Token) :
  (exists fuel0, forall fuel, fuel0 <= fuel ->
     LexRawTokensFromMainFile LookUp fuel RawLex RawTokens =
     Done (RawTokens
           ++ map (ResolveIdentifier LookUp) (BeforeEof (LexPending RawLex))
           ++ [FirstEof (EofToken (BufferEnd RawLex)) (LexPending RawLex)])) /\
  (forall T, is_ T tok_identifier = false \/ getIdentifierInfo T <> None ->
             ResolveIdentifier LookUp T = T).
Proof.
  split.
  - exists (S (List.length (BeforeEof (LexPending RawLex)))).
    intros fuel Hf. destruct RawLex as [Pend L]. simpl in *.
    apply (LexRawTokensFromMainFile_result LookUp Pend L RawTokens fuel).
    lia.
  - intros T [Hi | Hn]; unfold ResolveIdentifier.
    + rewrite Hi. reflexivity.
    + destruct (getIdentifierInfo T); [|congruence].
      rewrite andb_false_r. reflexivity.
Qed.

Lemma BeforeEof_no_eof (Pend : list Token) :
  Forall (fun X => is_ X tok_eof = false) (BeforeEof Pend).
Proof.
  induction Pend as [|T Pend IH]; simpl; [constructor|].
  destruct (is_ T tok_eof) eqn:HT; constructor; assumption.
Qed.

Lemma FirstEof_resolved (L : SourceLocation) (Pend : list Token) :
  is_ (FirstEof (EofToken L) Pend) tok_identifier = false.
Proof. apply eof_not_identifier. apply FirstEof_is_eof. Qed.

Lemma lexed_shape (LookUp : Token -> IdentifierInfo) (RawLex : Lexer)
    (fuel : nat) (RawTokens : list Token) :
  LexRawTokensFromMainFile LookUp fuel RawLex [] = Done RawTokens ->
  RawTokens =
    map (ResolveIdentifier LookUp) (BeforeEof (LexPending RawLex))
    ++ [FirstEof (EofToken (BufferEnd RawLex)) (LexPending RawLex)].
Proof.
  destruct RawLex as [Pend L]. simpl. intros H.
  destruct (LexRawTokensFromMainFile_result LookUp Pend L [] fuel) as [H1 H2].
  destruct (Nat.le_gt_cases fuel (List.length (BeforeEof Pend))) as [Hle|Hgt].
  - rewrite (H1 Hle) in H. discriminate.
  - rewrite (H2 Hgt) in H. inversion H. reflexivity.
Qed.

Lemma lexed_ends_with_eof (LookUp : Token -> IdentifierInfo) (RawLex : Lexer)
    (fuel : nat) (RawTokens : list Token) :
  LexRawTokensFromMainFile LookUp fuel RawLex [] = Done RawTokens ->
  EndsWithEof RawTokens
    (FirstEof (EofToken (BufferEnd RawLex)) (LexPending RawLex)).
Proof.
  intros H. rewrite (lexed_shape _ _ _ _ H).
  eexists. split; [reflexivity | apply FirstEof_is_eof].
Qed.

Lemma lexed_resolved (LookUp : Token -> IdentifierInfo) (RawLex : Lexer)
    (fuel : nat) (RawTokens : list Token) :
  LexRawTokensFromMainFile LookUp fuel RawLex [] = Done RawTokens ->
  IdentifiersResolved RawTokens.
Proof.
  intros H. rewrite (lexed_shape _ _ _ _ H).
  intros T HIn Hi. apply in_app_or in HIn. destruct HIn as [HIn | [<- | []]].
  - apply in_map_iff in HIn. destruct HIn as [X [<- _]].
    rewrite ResolveIdentifier_kind in Hi.
    apply ResolveIdentifier_resolved. exact Hi.
  - rewrite FirstEof_resolved in Hi. discriminate.
Qed.

(** X5: the vector LexRawTokensFromMainFile fills from empty ends with an
    end-of-file token, has no end-of-file token before it, and has
    identifier info on every identifier: what the loop over the raw
    tokens relies on. *)
Theorem lexed_tokens_well_formed (LookUp : Token -> IdentifierInfo)
    (RawLex : Lexer) (fuel : nat) (RawTokens : list Token) :
  LexRawTokensFromMainFile LookUp fuel RawLex [] = Done RawTokens ->
  (exists Body E,
     RawTokens = Body ++ [E] /\ is_ E tok_eof = true /\
     Forall (fun X => is_ X tok_eof = false) Body) /\
  IdentifiersResolved RawTokens.
Proof.
  intros H. split; [|eapply lexed_resolved; eauto].
  rewrite (lexed_shape _ _ _ _ H).
  eexists. eexists. split; [reflexivity|]. split; [apply FirstEof_is_eof|].
  apply Forall_forall. intros X HX. apply in_map_iff in HX.
  destruct HX as [Y [<- HY]]. rewrite ResolveIdentifier_kind.
  pose proof (BeforeEof_no_eof (LexPending RawLex)) as HB.
  rewrite Forall_forall in HB. apply HB. exact HY.
Qed.

(** ** Lexing and the loop together *)

Lemma MainLoop_no_fault (SM : SourceManager) (RawTokens : list Token)
    (E : Token) (P0 : Preprocessor) :
  EndsWithEof RawTokens E -> IdentifiersResolved RawTokens ->
  ExpansionWithinFile SM E P0 ->
  forall (fuel : nat) (st : State) (f : Fault),
  RawInv RawTokens st -> PPFrom P0 (PPTok st) (PP st) ->
  MainLoop SM RawTokens fuel st <> Abort f.
Proof.
  intros HE HI HP. induction fuel as [|fuel IH]; intros st f HR HF; simpl;
    destruct (LoopCond st) eqn:HC; try discriminate.
  pose proof (LoopBody_step SM RawTokens E HE P0 HP fuel st HR HF HC) as HS.
  destruct (LoopBody SM RawTokens fuel st) as [st'|f'|]; simpl.
  - destruct HS as [HR' [HF' _]]. apply IH; auto.
  - destruct HS as [_ Hab]. exfalso.
    exact (CommentOutDirective_resolved SM RawTokens HI _ _ _ Hab).
  - discriminate.
Qed.

(** X6: when the raw tokens come from LexRawTokensFromMainFile and no
    preprocessed token of the main file lies beyond the end-of-file token
    the raw lexer ended on, the run stops on no fault at all: no assertion
    fires, no read leaves the vector, and no null identifier info is
    dereferenced. *)
Theorem LexAndRewrite_no_fault (SM : SourceManager)
    (LookUp : Token -> IdentifierInfo) (RawLex : Lexer) (P : Preprocessor)
    (fuel : nat) (f : Fault) :
  ExpansionWithinFile SM
    (FirstEof (EofToken (BufferEnd RawLex)) (LexPending RawLex)) P ->
  LexAndRewrite LookUp SM fuel RawLex P <> Abort f.
Proof.
  intros HP. unfold LexAndRewrite.
  destruct (LexRawTokensFromMainFile LookUp fuel RawLex []) as [RawTokens|f'|]
    eqn:HL; simpl; [| |discriminate].
  - pose proof (lexed_ends_with_eof _ _ _ _ HL) as HE.
    pose proof (lexed_resolved _ _ _ _ HL) as HI.
    unfold RewriteMacrosInInput.
    destruct (InitState_run RawTokens _ HE P) as [st0 [H0 [HR [HF _]]]].
    rewrite H0. simpl.
    pose proof (MainLoop_no_fault SM RawTokens _ P HE HI HP fuel st0 f HR HF)
      as HN.
    destruct (MainLoop SM RawTokens fuel st0) as [st|f''|]; simpl.
    + destruct (RB st); discriminate.
    + congruence.
    + discriminate.
  - exfalso. destruct RawLex as [Pend L].
    destruct (LexRawTokensFromMainFile_result LookUp Pend L [] fuel)
      as [H1 H2].
    destruct (Nat.le_gt_cases fuel (List.length (BeforeEof Pend)))
      as [Hle|Hgt]; [rewrite (H1 Hle) in HL | rewrite (H2 Hgt) in HL];
      discriminate.
Qed.

(** ** What one iteration does to the cursors and to the buffer *)

Lemma skipn_cons_next (A : Type) (l : list A) (n : nat) (a : A) (r : list A) :
  skipn n l = a :: r -> In a l /\ skipn (S n) l = r.
Proof.
  revert l. induction n as [|n IH]; intros [|x l] H; simpl in *;
    try discriminate.
  - inversion H; subst. auto.
  - destruct (IH l H) as [H1 H2]. auto.
Qed.

Lemma EndsWithSpace_append (Str : string) :
  EndsWithSpace (Str ++ " ") = true.
Proof.
  induction Str as [|c Str IH]; [reflexivity|].
  simpl. destruct (Str ++ " ")%string eqn:HS; [|exact IH].
  destruct Str; discriminate.
Qed.

Lemma space_first_not_closer (Str : string) :
  StartsWithSpace Str = true -> (Str =? "*/")%string = false.
Proof.
  destruct Str as [|c Str]; simpl; [discriminate|].
  intros H. apply Ascii.eqb_eq in H. subst c. reflexivity.
Qed.

Lemma SkipLine_stops (RawTokens : list Token) (fuel : nat) :
  forall (T : Token) (C : nat) (T' : Token) (C' : nat),
  SkipLine RawTokens fuel T C = Done (T', C') ->
  C <= C' /\
  (isAtStartOfLine T' = true \/ is_ T' tok_eof = true).
Proof.
  induction fuel as [|fuel IH]; intros T C T' C'; simpl;
    destruct (negb (isAtStartOfLine T) && isNot T tok_eof) eqn:Hgo;
    try discriminate;
    try (intros H; inversion H; subst; split; [lia|];
         unfold isNot in Hgo;
         destruct (isAtStartOfLine T'), (is_ T' tok_eof); simpl in Hgo; auto;
         discriminate).
  destruct (GetNextRawTok RawTokens C false) as [[T1 C1]| |] eqn:G; simpl;
    try discriminate.
  destruct (GetNextRawTok_advances _ _ _ _ _ G) as [A1 _].
  intros H. destruct (IH _ _ _ _ H) as [B1 B2]. split; [lia | exact B2].
Qed.

Section Delta.

Variable SM : SourceManager.
Variable RawTokens : list Token.

#[local] Abbreviation RawOffs := (RawOffsOf SM).
#[local] Abbreviation PPOffs := (PPOffsOf SM).

(** One iteration that returns, from a state whose raw token is the one
    before the cursor. *)
Lemma LoopBody_delta (fuel : nat) (st st' : State) :
  1 <= CurRawTok st -> CurRawTok st <= List.length RawTokens ->
  nth_error RawTokens (pred (CurRawTok st)) = Some (RawTok st) ->
  LoopBody SM RawTokens fuel st = Done st' ->
  (1 <= CurRawTok st' /\ CurRawTok st' <= List.length RawTokens /\
   nth_error RawTokens (pred (CurRawTok st')) = Some (RawTok st')) /\
  CurRawTok st <= CurRawTok st' /\
  ((PPTok st', PP st') = (PPTok st, PP st) \/
   (PPTok st', PP st') = Lex (PP st) \/
   exists Ex,
     InsertionRun SM fuel (RawOffs (RawTok st)) (PPTok st) (PP st) ""
       = Done (Ex, PPTok st', PP st')) /\
  exists Delta, RB st' = RB st ++ Delta /\
                IterationEdits SM RawTokens st Delta.
Proof.
  intros I1 I2 I3. unfold LoopBody.
  destruct (FromMain SM (PPTok st)) eqn:Hm; simpl.
  2:{ destruct (Lex (PP st)) as [T P]. intros H. inversion H; subst; simpl.
      repeat split; auto. exists []. rewrite app_nil_r.
      unfold IterationEdits. auto. }
  destruct (is_ (RawTok st) tok_hash && isAtStartOfLine (RawTok st)) eqn:Hd.
  - apply andb_true_iff in Hd. destruct Hd as [Hh Hs].
    destruct (CommentOutDirective SM RawTokens (RawTok st) (CurRawTok st) (RB st))
      as [Buf| |] eqn:HD; simpl; try discriminate.
    apply CommentOutDirective_Done in HD.
    destruct (GetNextRawTok RawTokens (CurRawTok st) false)
      as [[T C]| |] eqn:G; simpl; try discriminate.
    destruct (GetNextRawTok_advances _ _ _ _ _ G) as [A1 [A2 [A3 A4]]].
    destruct (SkipLine RawTokens fuel T C) as [[T1 C1]| |] eqn:HS; simpl;
      try discriminate.
    destruct (SkipLine_Done RawTokens _ _ _ _ _ A4 HS) as [B1 B2].
    assert (B3 : C1 <= List.length RawTokens).
    { destruct (Nat.le_gt_cases C1 (List.length RawTokens)); [assumption|].
      assert (pred C1 < List.length RawTokens)
        by (apply nth_error_Some; congruence).
      lia. }
    intros H. inversion H; subst; simpl.
    split; [repeat split; auto; lia|]. split; [lia|]. split; [auto|].
    eexists. split; [reflexivity|]. unfold IterationEdits.
    destruct (WarningOrPragmaMark (skipn (CurRawTok st) RawTokens)); auto.
  - destruct ((PPOffs (PPTok st) =? RawOffs (RawTok st))%N &&
              isSameToken (RawTok st) (PPTok st)).
    + destruct (GetNextRawTok RawTokens (CurRawTok st) false)
        as [[T C]| |] eqn:G; simpl; try discriminate.
      destruct (GetNextRawTok_advances _ _ _ _ _ G) as [A1 [A2 [A3 A4]]].
      destruct (Lex (PP st)) as [T' P]. intros H. inversion H; subst; simpl.
      split; [repeat split; auto; lia|]. split; [lia|]. split; [auto|].
      exists []. rewrite app_nil_r. unfold IterationEdits. auto.
    + destruct (RawOffs (RawTok st) <=? PPOffs (PPTok st))%N.
      * destruct (DeletionRun SM RawTokens fuel (PPOffs (PPTok st)) (PPTok st)
                    (RawOffs (RawTok st)) (RawTok st) (CurRawTok st))
          as [[[EP T] C]| |] eqn:HDel; simpl; try discriminate.
        destruct (DeletionRun_Done _ _ _ _ _ _ _ _ _ _ _ HDel)
          as [D1 [D2 [D3 D4]]].
        intros H. inversion H; subst; simpl.
        split; [repeat split; auto; lia|]. split; [lia|]. split; [auto|].
        eexists. split; [rewrite <- app_assoc; reflexivity|].
        unfold IterationEdits. right. right. left.
        destruct D4 as [-> | [k [D [K1 [K2 [K3 ->]]]]]].
        -- exists (uadd (RawOffs (RawTok st)) (getLength (RawTok st))),
                  (RawTok st).
           repeat split; auto. eapply nth_error_In; eauto.
        -- exists (uadd (RawOffs D) (getLength D)), D.
           repeat split; auto. eapply nth_error_In; eauto.
      * destruct (InsertionRun SM fuel (RawOffs (RawTok st)) (PPTok st) (PP st) "")
          as [[[Ex T] P]| |] eqn:HIns; simpl; try discriminate.
        intros H. inversion H; subst; simpl.
        split; [repeat split; auto; lia|]. split; [lia|].
        split; [right; right; exists Ex; reflexivity|].
        eexists. split; [reflexivity|].
        unfold IterationEdits. right. right. right.
        eexists. split; [reflexivity|].
        split; [exact Hm|]. split; [|apply EndsWithSpace_append].
        destruct fuel as [|fuel]; simpl in HIns;
          destruct (PPOffs (PPTok st) <? RawOffs (RawTok st))%N eqn:Hb;
          try discriminate.
        -- inversion HIns; subst. reflexivity.
        -- destruct (Lex (PP st)) as [T1 P1].
           apply InsertionRun_Done in HIns. destruct HIns as [-> _].
           reflexivity.
        -- inversion HIns; subst. reflexivity.
Qed.

End Delta.

Lemma OpenersClosed_app (l1 l2 : list Edit) :
  OpenersClosed l1 = true -> OpenersClosed l2 = true ->
  OpenersClosed (l1 ++ l2) = true.
Proof.
  remember (List.length l1) as n eqn:Hn. revert l1 Hn.
  induction n as [n IH] using lt_wf_ind. intros l1 Hn H1 H2.
  destruct l1 as [|Ed Rest]; [exact H2|].
  cbn [OpenersClosed app] in *.
  destruct (IsOpener Ed).
  - destruct Rest as [|Cl Rest']; [discriminate|].
    cbn [app]. apply andb_true_iff in H1. destruct H1 as [Hc H1].
    rewrite Hc. cbn [andb].
    apply (IH (List.length Rest')); auto. subst n. simpl. lia.
  - apply andb_true_iff in H1. destruct H1 as [Hc H1].
    rewrite Hc. cbn [andb].
    apply (IH (List.length Rest)); auto. subst n. simpl. lia.
Qed.

Lemma Opener_cases (b : bool) : Opener b = (if b then "/*" else " /*")%string.
Proof. destruct b; reflexivity. Qed.

Section RunEdits.

Variable SM : SourceManager.
Variable RawTokens : list Token.
Variable P0 : Preprocessor.

#[local] Abbreviation RawOffs := (RawOffsOf SM).
#[local] Abbreviation PPOffs := (PPOffsOf SM).

Lemma Lex_InStream (T : Token) (P : Preprocessor) :
  InStream P0 T P -> InStream P0 (fst (Lex P)) (snd (Lex P)).
Proof.
  intros [HL [[n Hn] HIn]]. unfold Lex, InStream.
  destruct (Pending P) as [|X Rest] eqn:HP; simpl.
  - rewrite HP. split; [exact HL|]. split; [exists n; exact Hn|].
    left. now rewrite HL.
  - symmetry in Hn. destruct (skipn_cons_next _ _ _ _ _ Hn) as [H1 H2].
    split; [exact HL|]. split; [exists (S n); now rewrite H2|].
    right. exact H1.
Qed.

Lemma InStream_CursorInv (st : State) :
  CursorInv RawTokens P0 st <->
  (1 <= CurRawTok st /\ CurRawTok st <= List.length RawTokens /\
   nth_error RawTokens (pred (CurRawTok st)) = Some (RawTok st)) /\
  InStream P0 (PPTok st) (PP st).
Proof. unfold CursorInv, InStream. tauto. Qed.

Lemma LoopBody_CursorInv (fuel : nat) (st st' : State) :
  CursorInv RawTokens P0 st ->
  LoopBody SM RawTokens fuel st = Done st' ->
  CursorInv RawTokens P0 st'.
Proof.
  intros HI HB. apply InStream_CursorInv in HI.
  destruct HI as [[I1 [I2 I3]] HS].
  destruct (LoopBody_delta SM RawTokens fuel st st' I1 I2 I3 HB)
    as [HR [_ [HPP _]]].
  apply InStream_CursorInv. split; [exact HR|].
  pose proof (Lex_InStream _ _ HS) as HL.
  destruct HPP as [Hsame | [Hlex | [Ex Hrun]]].
  - inversion Hsame as [[Ha Hb]]. rewrite Ha, Hb. exact HS.
  - destruct (Lex (PP st)) as [T P]. inversion Hlex as [[Ha Hb]].
    rewrite Ha, Hb. exact HL.
  - apply (InsertionRun_keeps SM (InStream P0) (RawOffs (RawTok st))
             Lex_InStream fuel _ _ _ _ _ _ HS Hrun).
Qed.

Lemma IterationEdits_shaped (st : State) (Delta : list Edit) :
  IterationEdits SM RawTokens st Delta ->
  Forall (fun Ed => WellShaped Ed = true) Delta /\
  OpenersClosed Delta = true /\ List.length Delta <= 2.
Proof.
  intros [-> | [[-> _] | [[EP [D [-> _]]] | [Text [-> [_ [H1 H2]]]]]]].
  - repeat split; auto.
  - repeat split; auto.
  - rewrite Opener_cases.
    destruct (hasLeadingSpace (RawTok st)); repeat split; auto.
  - split; [|split; [|simpl; lia]].
    + constructor; [|constructor]. simpl. rewrite H1, H2. apply orb_true_r.
    + simpl. rewrite (space_first_not_closer _ H1). reflexivity.
Qed.

Lemma IterationEdits_anchored (st : State) (Delta : list Edit) :
  CursorInv RawTokens P0 st ->
  IterationEdits SM RawTokens st Delta ->
  Forall (Anchored SM RawTokens (EofToken (EofLoc P0) :: Pending P0)) Delta.
Proof.
  intros [_ [_ [I3 [_ [_ HIn]]]]].
  pose proof (nth_error_In _ _ I3) as HRaw.
  intros [-> | [[-> [Hh Hs]] | [[EP [D [-> [HD ->]]]] | [Text [-> [Hm [Hsp _]]]]]]].
  - constructor.
  - constructor; [|constructor]. simpl. exists (RawTok st).
    repeat split; auto.
  - constructor; [|constructor; [|constructor]]; simpl.
    + exists (RawTok st). repeat split; auto.
    + left. split; [reflexivity|]. exists D. auto.
  - constructor; [|constructor]. simpl. right. split; [exact Hsp|].
    exists (PPTok st). auto.
Qed.

Lemma LoopBody_BufferInv (fuel : nat) (st st' : State) :
  BufferInv SM RawTokens P0 st ->
  LoopBody SM RawTokens fuel st = Done st' ->
  BufferInv SM RawTokens P0 st'.
Proof.
  intros [HC [HW [HO HA]]] HB.
  pose proof (LoopBody_CursorInv fuel st st' HC HB) as HC'.
  pose proof HC as [I1 [I2 [I3 _]]].
  destruct (LoopBody_delta SM RawTokens fuel st st' I1 I2 I3 HB)
    as [_ [_ [_ [Delta [HD HIt]]]]].
  destruct (IterationEdits_shaped st Delta HIt) as [S1 [S2 _]].
  pose proof (IterationEdits_anchored st Delta HC HIt) as S3.
  split; [exact HC'|]. rewrite HD.
  split; [apply Forall_app; auto|].
  split; [apply OpenersClosed_app; auto|].
  apply Forall_app; auto.
Qed.

Lemma InitState_BufferInv (st : State) :
  InitState RawTokens P0 = Done st -> BufferInv SM RawTokens P0 st.
Proof.
  unfold InitState. intros H.
  destruct (GetNextRawTok RawTokens 0 false) as [[T C]| |] eqn:G;
    simpl in H; try discriminate.
  destruct (GetNextRawTok_advances _ _ _ _ _ G) as [A1 [A2 [A3 A4]]].
  assert (HL : InStream P0 (fst (Lex P0)) (snd (Lex P0))).
  { apply (Lex_InStream (EofToken (EofLoc P0))).
    split; [reflexivity|]. split; [exists 0; reflexivity | left; reflexivity]. }
  destruct (Lex P0) as [T' P']. simpl in HL. inversion H; subst.
  split; [|simpl; auto].
  apply InStream_CursorInv. simpl. repeat split; auto; try lia; apply HL.
Qed.

Lemma Reachable_BufferInv (st : State) :
  Reachable SM RawTokens P0 st -> BufferInv SM RawTokens P0 st.
Proof.
  induction 1 as [st H0 | fuel st st' Hr IH HC Hb].
  - apply InitState_BufferInv. exact H0.
  - eapply LoopBody_BufferInv; eauto.
Qed.

Lemma MainLoop_Reachable (fuel : nat) :
  forall st st' : State,
  Reachable SM RawTokens P0 st ->
  MainLoop SM RawTokens fuel st = Done st' ->
  Reachable SM RawTokens P0 st'.
Proof.
  induction fuel as [|fuel IH]; intros st st' Hr; simpl;
    destruct (LoopCond st) eqn:HC; try discriminate;
    try (intros H; inversion H; subst; exact Hr).
  destruct (LoopBody SM RawTokens fuel st) as [st1| |] eqn:HB; simpl;
    try discriminate.
  apply IH. eapply reach_step; eauto.
Qed.

(** The edits a run reports are those of a state it went through. *)
Lemma Changed_Reachable (fuel : nat) (Edits : list Edit) :
  RewriteMacrosInInput SM RawTokens fuel P0 = Done (Changed Edits) ->
  exists st, Reachable SM RawTokens P0 st /\ RB st = Edits.
Proof.
  unfold RewriteMacrosInInput.
  destruct (InitState RawTokens P0) as [st0| |] eqn:H0; simpl;
    try discriminate.
  destruct (MainLoop SM RawTokens fuel st0) as [st| |] eqn:HM; simpl;
    try discriminate.
  intros H. exists st. split.
  - eapply MainLoop_Reachable; eauto. apply reach_init. exact H0.
  - destruct (RB st); inversion H. reflexivity.
Qed.

End RunEdits.

Lemma Lex_suffix (Pend0 : list Token) (T : Token) (P : Preprocessor) :
  (exists n, Pending P = skipn n Pend0) ->
  exists n, Pending (snd (Lex P)) = skipn n Pend0.
Proof.
  intros [n Hn]. unfold Lex.
  destruct (Pending P) as [|X Rest] eqn:HP; simpl.
  - exists n. now rewrite HP.
  - symmetry in Hn. destruct (skipn_cons_next _ _ _ _ _ Hn) as [_ H2].
    exists (S n). now rewrite H2.
Qed.

(** X7: in every state of a run the raw token held is the token just
    before the raw cursor, the cursor is within the vector, and the
    preprocessor's pending tokens are a suffix of the stream it started
    with; an iteration never moves the raw cursor back and never puts a
    token back into the preprocessor. *)
Theorem cursors_never_rewind (SM : SourceManager) (RawTokens : list Token)
    (P : Preprocessor) :
  (forall st, Reachable SM RawTokens P st -> CursorInv RawTokens P st) /\
  (forall fuel st st',
     Reachable SM RawTokens P st ->
     LoopBody SM RawTokens fuel st = Done st' ->
     CurRawTok st <= CurRawTok st' /\
     exists n, Pending (PP st') = skipn n (Pending (PP st))).
Proof.
  split.
  - intros st Hr. apply (Reachable_BufferInv SM RawTokens P st Hr).
  - intros fuel st st' Hr HB.
    destruct (Reachable_BufferInv SM RawTokens P st Hr)
      as [[I1 [I2 [I3 _]]] _].
    destruct (LoopBody_delta SM RawTokens fuel st st' I1 I2 I3 HB)
      as [_ [Hle [HPP _]]].
    split; [exact Hle|].
    destruct HPP as [Hsame | [Hlex | [Ex Hrun]]].
    + inversion Hsame as [[Ha Hb]]. rewrite Hb. exists 0. reflexivity.
    + assert (HL : exists n, Pending (snd (Lex (PP st)))
                              = skipn n (Pending (PP st)))
        by (apply (Lex_suffix _ (PPTok st)); exists 0; reflexivity).
      destruct (Lex (PP st)) as [T P']. inversion Hlex as [[Ha Hb]].
      rewrite Hb. exact HL.
    + apply (InsertionRun_keeps SM
               (fun _ P' => exists n, Pending P' = skipn n (Pending (PP st)))
               (RawOffsOf SM (RawTok st))
               (fun T P' => Lex_suffix (Pending (PP st)) T P')
               fuel (PPTok st) (PP st) EmptyString Ex (PPTok st') (PP st'));
        [|exact Hrun].
      exists 0. reflexivity.
Qed.

(** ** The edits of a run *)

(** X8: edits are only ever appended: an iteration keeps the edits
    issued before it in their order and adds at most two, and what the
    loop returns begins with the edits it started from. *)
Theorem edits_only_appended (SM : SourceManager) (RawTokens : list Token) :
  (forall fuel st st',
     LoopBody SM RawTokens fuel st = Done st' ->
     exists Delta, RB st' = RB st ++ Delta /\ List.length Delta <= 2) /\
  (forall fuel st st',
     MainLoop SM RawTokens fuel st = Done st' ->
     exists Delta, RB st' = RB st ++ Delta).
Proof.
  assert (Hstep : forall fuel st st',
            LoopBody SM RawTokens fuel st = Done st' ->
            exists Delta, RB st' = RB st ++ Delta /\ List.length Delta <= 2).
  { intros fuel st st'. unfold LoopBody.
    destruct (FromMain SM (PPTok st)); simpl.
    2:{ destruct (Lex (PP st)) as [T P]. intros H. inversion H; subst.
        exists []. simpl. rewrite app_nil_r. auto. }
    destruct (is_ (RawTok st) tok_hash && isAtStartOfLine (RawTok st)).
    - destruct (CommentOutDirective SM RawTokens (RawTok st) (CurRawTok st)
                  (RB st)) as [Buf| |] eqn:HD; simpl; try discriminate.
      apply CommentOutDirective_Done in HD.
      destruct (GetNextRawTok RawTokens (CurRawTok st) false)
        as [[T C]| |]; simpl; try discriminate.
      destruct (SkipLine RawTokens fuel T C) as [[T1 C1]| |]; simpl;
        try discriminate.
      intros H. inversion H; subst; simpl.
      eexists. split; [reflexivity|].
      destruct (WarningOrPragmaMark (skipn (CurRawTok st) RawTokens));
        simpl; lia.
    - destruct ((PPOffsOf SM (PPTok st) =? RawOffsOf SM (RawTok st))%N &&
                isSameToken (RawTok st) (PPTok st)).
      + destruct (GetNextRawTok RawTokens (CurRawTok st) false)
          as [[T C]| |]; simpl; try discriminate.
        destruct (Lex (PP st)) as [T' P]. intros H. inversion H; subst.
        exists []. simpl. rewrite app_nil_r. auto.
      + destruct (RawOffsOf SM (RawTok st) <=? PPOffsOf SM (PPTok st))%N.
        * destruct (DeletionRun SM RawTokens fuel (PPOffsOf SM (PPTok st))
                      (PPTok st) (RawOffsOf SM (RawTok st)) (RawTok st)
                      (CurRawTok st)) as [[[EP T] C]| |]; simpl;
            try discriminate.
          intros H. inversion H; subst; simpl.
          eexists. split; [rewrite <- app_assoc; reflexivity | simpl; lia].
        * destruct (InsertionRun SM fuel (RawOffsOf SM (RawTok st))
                      (PPTok st) (PP st) "") as [[[Ex T] P]| |]; simpl;
            try discriminate.
          intros H. inversion H; subst; simpl.
          eexists. split; [reflexivity | simpl; lia]. }
  split; [exact Hstep|].
  induction fuel as [|fuel IH]; intros st st'; simpl;
    destruct (LoopCond st); try discriminate;
    try (intros H; inversion H; subst; exists []; now rewrite app_nil_r).
  destruct (LoopBody SM RawTokens fuel st) as [st1| |] eqn:HB; simpl;
    try discriminate.
  intros H. destruct (Hstep _ _ _ HB) as [D1 [E1 _]].
  destruct (IH _ _ H) as [D2 E2].
  exists (D1 ++ D2). rewrite E2, E1, app_assoc. reflexivity.
Qed.

(** X9: every edit of a run inserts one of five kinds of text: [//], the
    opener [" /*"] or ["/*"], the closer ["*/"], or an expansion text
    that begins with a space and ends with a space. *)
Theorem edits_well_shaped (SM : SourceManager) (RawTokens : list Token)
    (P : Preprocessor) :
  (forall st, Reachable SM RawTokens P st ->
     Forall (fun Ed => WellShaped Ed = true) (RB st)) /\
  (forall fuel Edits,
     RewriteMacrosInInput SM RawTokens fuel P = Done (Changed Edits) ->
     Forall (fun Ed => WellShaped Ed = true) Edits).
Proof.
  assert (H1 : forall st, Reachable SM RawTokens P st ->
                 Forall (fun Ed => WellShaped Ed = true) (RB st)).
  { intros st Hr.
    destruct (Reachable_BufferInv SM RawTokens P st Hr) as [_ [H _]].
    exact H. }
  split; [exact H1|]. intros fuel Edits H.
  destruct (Changed_Reachable SM RawTokens P fuel Edits H) as [st [Hr <-]].
  apply H1. exact Hr.
Qed.

(** X10: in the edits of a run every comment opener is directly followed
    by a closer, and a closer is issued nowhere else: the comments the
    run opens are all closed, and in the order of issue nothing comes
    between an opener and its closer. *)
Theorem openers_always_closed (SM : SourceManager) (RawTokens : list Token)
    (P : Preprocessor) :
  (forall st, Reachable SM RawTokens P st -> OpenersClosed (RB st) = true) /\
  (forall fuel Edits,
     RewriteMacrosInInput SM RawTokens fuel P = Done (Changed Edits) ->
     OpenersClosed Edits = true).
Proof.
  assert (H1 : forall st, Reachable SM RawTokens P st ->
                 OpenersClosed (RB st) = true).
  { intros st Hr.
    destruct (Reachable_BufferInv SM RawTokens P st Hr) as [_ [_ [H _]]].
    exact H. }
  split; [exact H1|]. intros fuel Edits H.
  destruct (Changed_Reachable SM RawTokens P fuel Edits H) as [st [Hr <-]].
  apply H1. exact Hr.
Qed.

(** X11: every edit of a run is placed on a token: [//] at the offset of
    a raw [#] that starts a line, an opener at the offset of a raw token
    and with a leading space exactly when that token has none, the closer
    at the end of a raw token and nowhere else, and an expansion text,
    which begins with a space, at the offset of a preprocessed token of
    the main file, never at that of a token from another file. *)
Theorem edits_anchored_on_tokens (SM : SourceManager)
    (RawTokens : list Token) (P : Preprocessor) :
  (forall st, Reachable SM RawTokens P st ->
     Forall (Anchored SM RawTokens (EofToken (EofLoc P) :: Pending P))
            (RB st)) /\
  (forall fuel Edits,
     RewriteMacrosInInput SM RawTokens fuel P = Done (Changed Edits) ->
     Forall (Anchored SM RawTokens (EofToken (EofLoc P) :: Pending P))
            Edits).
Proof.
  assert (H1 : forall st, Reachable SM RawTokens P st ->
     Forall (Anchored SM RawTokens (EofToken (EofLoc P) :: Pending P))
            (RB st)).
  { intros st Hr.
    destruct (Reachable_BufferInv SM RawTokens P st Hr) as [_ [_ [_ H]]].
    exact H. }
  split; [exact H1|]. intros fuel Edits H.
  destruct (Changed_Reachable SM RawTokens P fuel Edits H) as [st [Hr <-]].
  apply H1. exact Hr.
Qed.

(** ** The three runs *)

Section Runs.

Variable SM : SourceManager.
Variable RawTokens : list Token.

#[local] Abbreviation RawOffs := (RawOffsOf SM).
#[local] Abbreviation PPOffs := (PPOffsOf SM).

(** X12: the iteration at a line-initial [#] does not touch the
    preprocessor: the preprocessed token and the pending tokens are the
    same after it.  It moves the raw cursor forward, and the raw token it
    ends on starts a line or is the end-of-file token. *)
Theorem directive_line_skipped (fuel : nat) (st st' : State) :
  FromMain SM (PPTok st) = true ->
  is_ (RawTok st) tok_hash = true ->
  isAtStartOfLine (RawTok st) = true ->
  LoopBody SM RawTokens fuel st = Done st' ->
  PPTok st' = PPTok st /\ PP st' = PP st /\
  CurRawTok st < CurRawTok st' /\
  (isAtStartOfLine (RawTok st') = true \/ is_ (RawTok st') tok_eof = true).
Proof.
  intros Hm Hh Hs. unfold LoopBody. rewrite Hm, Hh, Hs. simpl.
  destruct (CommentOutDirective SM RawTokens (RawTok st) (CurRawTok st) (RB st))
    as [Buf| |]; simpl; try discriminate.
  destruct (GetNextRawTok RawTokens (CurRawTok st) false) as [[T C]| |] eqn:G;
    simpl; try discriminate.
  destruct (GetNextRawTok_advances _ _ _ _ _ G) as [A1 _].
  destruct (SkipLine RawTokens fuel T C) as [[T1 C1]| |] eqn:HS; simpl;
    try discriminate.
  destruct (SkipLine_stops _ _ _ _ _ _ HS) as [B1 B2].
  intros H. inversion H; subst; simpl. repeat split; auto. lia.
Qed.

Lemma InsertionRun_caught_up (fuel : nat) (RO : N) :
  forall (PPT : Token) (P : Preprocessor) (Ex Ex' : string)
         (T : Token) (P' : Preprocessor),
  InsertionRun SM fuel RO PPT P Ex = Done (Ex', T, P') ->
  (PPOffs T <? RO)%N = false.
Proof.
  induction fuel as [|fuel IH]; intros PPT P Ex Ex' T P'; simpl;
    destruct (PPOffs PPT <? RO)%N eqn:Hb; try discriminate;
    try (intros H; inversion H; subst; exact Hb).
  destruct (Lex P) as [T1 P1]. apply IH.
Qed.

(** X13: when an insertion run returns, the preprocessor has caught up
    with the raw token: the preprocessed token it stops on does not lie
    before the raw token any more, so the same raw token does not start a
    second insertion run with it. *)
Theorem insertion_run_catches_up (fuel : nat) (st st' : State) :
  FromMain SM (PPTok st) = true ->
  is_ (RawTok st) tok_hash && isAtStartOfLine (RawTok st) = false ->
  (PPOffs (PPTok st) < RawOffs (RawTok st))%N ->
  LoopBody SM RawTokens fuel st = Done st' ->
  (RawOffs (RawTok st') <= PPOffs (PPTok st'))%N /\
  PPTok st' <> PPTok st.
Proof.
  intros Hm Hd Hlt. unfold LoopBody. rewrite Hm, Hd. simpl.
  assert (Hne : (PPOffs (PPTok st) =? RawOffs (RawTok st))%N = false)
    by (apply N.eqb_neq; lia).
  assert (Hle : (RawOffs (RawTok st) <=? PPOffs (PPTok st))%N = false)
    by (apply N.leb_gt; exact Hlt).
  rewrite Hne, Hle. simpl.
  destruct (InsertionRun SM fuel (RawOffs (RawTok st)) (PPTok st) (PP st) "")
    as [[[Ex T] P]| |] eqn:Hr; simpl; try discriminate.
  apply InsertionRun_caught_up in Hr.
  intros H. inversion H; subst; simpl.
  apply N.ltb_ge in Hr. split; [exact Hr|].
  intros Heq. rewrite Heq in Hr. lia.
Qed.

(** X14: a deletion run fetches the raw tokens one after the other,
    comments included, and stops on the first that is a comment or that
    does not stay in the run: one that lies beyond the preprocessed
    token, starts a line, or is the same token at the same offset.  Every
    token before it is deleted without a look at what follows.  On a
    comment the cursor steps past it; otherwise the token it stopped on
    is the next raw token.  The end position is the end of the last
    token before the one the run stopped on. *)
Theorem deletion_run_extent (fuel : nat) (PO : N) (PPT : Token) :
  forall (RO : N) (Tok : Token) (Cur : nat) (EndPos : N) (T : Token) (C : nat),
  DeletionRun SM RawTokens fuel PO PPT RO Tok Cur = Done (EndPos, T, C) ->
  exists j Stop,
    Cur <= j /\ nth_error RawTokens j = Some Stop /\
    (forall i X, Cur <= i < j -> nth_error RawTokens i = Some X ->
       is_ X tok_comment = false /\ StaysInRun SM PO PPT X = true) /\
    ((is_ Stop tok_comment = true /\
      GetNextRawTok RawTokens (S j) false = Done (T, C)) \/
     (is_ Stop tok_comment = false /\ StaysInRun SM PO PPT Stop = false /\
      T = Stop /\ C = S j)) /\
    ((j = Cur /\ EndPos = uadd RO (getLength Tok)) \/
     (Cur < j /\ exists D, nth_error RawTokens (pred j) = Some D /\
                  EndPos = uadd (RawOffs D) (getLength D))).
Proof.
  induction fuel as [|fuel IH]; intros RO Tok Cur EndPos T C; simpl;
    [discriminate|].
  destruct (GetNextRawTok RawTokens Cur true) as [[T1 C1]| |] eqn:G1; simpl;
    try discriminate.
  destruct (GetNextRawTok_Done _ _ _ _ _ G1) as [_ [_ [[E1 M1] | [_ [B _]]]]];
    [subst C1 | discriminate].
  destruct (is_ T1 tok_comment) eqn:K1.
  - destruct (GetNextRawTok RawTokens (S Cur) false) as [[T2 C2]| |] eqn:G2;
      simpl; try discriminate.
    intros H. inversion H; subst.
    exists Cur, T1. split; [lia|]. split; [exact M1|].
    split; [intros i X Hi; lia|]. split; [left; auto | left; auto].
  - fold (StaysInRun SM PO PPT T1).
    destruct (StaysInRun SM PO PPT T1) eqn:Hgo.
    + intros H. destruct (IH _ _ _ _ _ _ H)
        as [j [Stop [J1 [J2 [J3 [J4 J5]]]]]].
      exists j, Stop. split; [lia|]. split; [exact J2|]. split; [|split].
      * intros i X Hi HX.
        destruct (Nat.eq_dec i Cur) as [->|Hne].
        -- assert (X = T1) by congruence. subst. auto.
        -- apply (J3 i X); auto. lia.
      * exact J4.
      * right. split; [lia|].
        destruct J5 as [[-> ->] | [Hlt HD]]; [|exact HD].
        exists T1. simpl. auto.
    + intros H. inversion H; subst.
      exists Cur, T. split; [lia|]. split; [exact M1|].
      split; [intros i X Hi; lia|]. split; [right; auto | left; auto].
Qed.

End Runs.

(** ** An empty main file *)

Lemma foreign_tokens_dropped (SM : SourceManager) (E : Token)
    (L : SourceLocation) (Pend : list Token) :
  is_ E tok_eof = true ->
  Forall (fun T => FromMain SM T = false) Pend ->
  forall (T : Token) (fuel : nat),
  List.length Pend < fuel ->
  is_ T tok_eof = true \/ FromMain SM T = false ->
  exists st', MainLoop SM [E] fuel (mkState 1 E T (mkPP Pend L) []) = Done st'
              /\ RB st' = [].
Proof.
  intros HE. induction Pend as [|X Rest IH]; intros HF T fuel Hfuel HT.
  - destruct (is_ T tok_eof) eqn:Hk.
    + exists (mkState 1 E T (mkPP [] L) []).
      destruct fuel; simpl; unfold LoopCond, isNot; simpl;
        rewrite HE, Hk; auto.
    + destruct HT as [HT|HT]; [discriminate|].
      destruct fuel as [|fuel]; [simpl in Hfuel; lia|].
      exists (mkState 1 E (EofToken L) (mkPP [] L) []).
      cbn [MainLoop]. unfold LoopCond at 1, isNot. simpl.
      rewrite HE, Hk. simpl. unfold LoopBody. simpl. rewrite HT. simpl.
      destruct fuel; simpl; unfold LoopCond, isNot; simpl; rewrite HE; auto.
  - inversion HF as [|? ? HX HR]; subst.
    destruct (is_ T tok_eof) eqn:Hk.
    + exists (mkState 1 E T (mkPP (X :: Rest) L) []).
      destruct fuel; simpl; unfold LoopCond, isNot; simpl;
        rewrite HE, Hk; auto.
    + destruct HT as [HT|HT]; [discriminate|].
      destruct fuel as [|fuel]; [simpl in Hfuel; lia|].
      cbn [MainLoop]. unfold LoopCond at 1, isNot. simpl.
      rewrite HE, Hk. simpl. unfold LoopBody. simpl. rewrite HT. simpl.
      apply IH; auto. simpl in Hfuel. lia.
Qed.

(** X15: on an empty main file, whose raw list is the end-of-file token
    alone, every token the preprocessor still returns from other files is
    dropped, and the run reports no changes. *)
Theorem empty_main_file_unchanged (SM : SourceManager) (E : Token)
    (P : Preprocessor) :
  is_ E tok_eof = true ->
  Forall (fun T => FromMain SM T = false) (Pending P) ->
  exists fuel0, forall fuel, fuel0 <= fuel ->
    RewriteMacrosInInput SM [E] fuel P = Done NoChanges.
Proof.
  intros HE HF. exists (S (S (List.length (Pending P)))). intros fuel Hfuel.
  unfold RewriteMacrosInInput, InitState.
  assert (Hc : is_ E tok_comment = false).
  { apply is_true_iff in HE. unfold is_. rewrite HE. reflexivity. }
  rewrite (GetNextRawTok_plain [E] 0 false E eq_refl (or_intror Hc)).
  simpl. destruct P as [Pend L]. unfold Lex. simpl in *.
  destruct Pend as [|X Rest]; simpl.
  - destruct (foreign_tokens_dropped SM E L [] HE HF (EofToken L) fuel)
      as [st' [H1 H2]]; [simpl; lia | left; reflexivity|].
    rewrite H1. simpl. rewrite H2. reflexivity.
  - inversion HF as [|? ? HX HR]; subst.
    destruct (foreign_tokens_dropped SM E L Rest HE HR X fuel)
      as [st' [H1 H2]]; [simpl in *; lia | right; exact HX|].
    rewrite H1. simpl. rewrite H2. reflexivity.
Qed.

(** ** The whole function returns *)

Lemma ResolveIdentifier_location (LookUp : Token -> IdentifierInfo)
    (T : Token) :
  getLocation (ResolveIdentifier LookUp T) = getLocation T.
Proof.
  unfold ResolveIdentifier.
  destruct (is_ T tok_identifier &&
            match getIdentifierInfo T with None => true | Some _ => false end);
    reflexivity.
Qed.

Lemma ExpansionLeft_start (P : Preprocessor) :
  ExpansionLeftOf (fst (Lex P)) (snd (Lex P)) <= S (List.length (Pending P)).
Proof.
  unfold Lex, ExpansionLeftOf. destruct (Pending P) as [|X Rest] eqn:HP;
    simpl.
  - lia.
  - destruct (is_ X tok_eof); lia.
Qed.

(** X16: lexing and the loop together return when the two streams belong
    to one file: no preprocessed token of the main file lies beyond the
    end-of-file token the raw lexer ends on, and the preprocessor's own
    end-of-file token comes last, is in the main file and is not before
    any raw token.  The run then ends with an output, whatever the
    tokens are. *)
Theorem LexAndRewrite_returns (SM : SourceManager)
    (LookUp : Token -> IdentifierInfo) (RawLex : Lexer) (P : Preprocessor) :
  ExpansionWithinFile SM
    (FirstEof (EofToken (BufferEnd RawLex)) (LexPending RawLex)) P ->
  FromMain SM (EofToken (EofLoc P)) = true ->
  Forall (fun X => is_ X tok_eof = false) (Pending P) ->
  (forall T,
     In T (FirstEof (EofToken (BufferEnd RawLex)) (LexPending RawLex)
           :: BeforeEof (LexPending RawLex)) ->
     (RawOffsOf SM T <= PPOffsOf SM (EofToken (EofLoc P)))%N) ->
  exists fuel0, forall fuel, fuel0 <= fuel ->
    exists Out, LexAndRewrite LookUp SM fuel RawLex P = Done Out.
Proof.
  intros HP Hmain Hall Hoffs.
  exists (List.length (BeforeEof (LexPending RawLex))
          + List.length (Pending P) + 4).
  intros fuel Hfuel. unfold LexAndRewrite.
  assert (HL : LexRawTokensFromMainFile LookUp fuel RawLex [] =
               Done (map (ResolveIdentifier LookUp)
                         (BeforeEof (LexPending RawLex))
                     ++ [FirstEof (EofToken (BufferEnd RawLex))
                           (LexPending RawLex)])).
  { destruct RawLex as [Pend L]. simpl in *.
    apply (LexRawTokensFromMainFile_result LookUp Pend L [] fuel). lia. }
  rewrite HL. cbn [bind].
  pose proof (lexed_ends_with_eof _ _ _ _ HL) as HE.
  pose proof (lexed_resolved _ _ _ _ HL) as HI.
  set (RawTokens := map (ResolveIdentifier LookUp)
                        (BeforeEof (LexPending RawLex))
                    ++ [FirstEof (EofToken (BufferEnd RawLex))
                          (LexPending RawLex)]) in *.
  assert (HF : ExpansionEndsFile SM RawTokens P).
  { split; [exact Hmain|]. split; [exact Hall|].
    intros T HIn. unfold RawTokens in HIn. apply in_app_or in HIn.
    destruct HIn as [HIn | [<- | []]].
    - apply in_map_iff in HIn. destruct HIn as [X [<- HX]].
      unfold RawOffsOf. rewrite ResolveIdentifier_location.
      apply Hoffs. right. exact HX.
    - apply Hoffs. left. reflexivity. }
  unfold RewriteMacrosInInput.
  destruct (InitState_run RawTokens _ HE P) as [st0 [H0 [HR [_ [HLex _]]]]].
  rewrite H0. cbn [bind].
  pose proof (InitState_RunInv SM RawTokens _ P HE HF st0 H0) as HInv.
  assert (Hlen : List.length RawTokens
                 = S (List.length (BeforeEof (LexPending RawLex)))).
  { unfold RawTokens. rewrite length_app, length_map. simpl. lia. }
  assert (Hexp : ExpansionLeft st0 <= S (List.length (Pending P))).
  { unfold ExpansionLeft. pose proof (ExpansionLeft_start P) as Hs.
    rewrite <- HLex in Hs. exact Hs. }
  destruct (MainLoop_terminates SM RawTokens _ P HE HI HP HF fuel st0 HInv)
    as [st [H1 _]].
  { unfold RawLeft. lia. }
  rewrite H1. cbn [bind]. destruct (RB st); eexists; reflexivity.
Qed.

(** ** A directive line in the whole run *)

(** The tokens the skip over a directive line passes: each is a token of
    the line, neither first on a line nor end-of-file, or a comment the
    raw cursor steps over without a look. *)
Lemma SkipLine_passes (RawTokens : list Token) (fuel : nat) :
  forall (T : Token) (C : nat) (T' : Token) (C' : nat),
  1 <= C -> nth_error RawTokens (pred C) = Some T ->
  SkipLine RawTokens fuel T C = Done (T', C') ->
  forall i X, pred C <= i < pred C' -> nth_error RawTokens i = Some X ->
    (isAtStartOfLine X = false /\ is_ X tok_eof = false) \/
    is_ X tok_comment = true.
Proof.
  induction fuel as [|fuel IH]; intros T C T' C' H1 HT; simpl;
    destruct (negb (isAtStartOfLine T) && isNot T tok_eof) eqn:Hgo;
    try discriminate;
    try (intros H; inversion H; subst; intros i X Hi; lia).
  destruct (GetNextRawTok RawTokens C false) as [[T1 C1]| |] eqn:G; simpl;
    try discriminate.
  destruct (GetNextRawTok_Done _ _ _ _ _ G) as [N1 [_ HC1]].
  intros H i X Hi HX.
  apply andb_true_iff in Hgo. destruct Hgo as [Hs Hk].
  apply negb_true_iff in Hs. apply negb_true_iff in Hk.
  destruct (Nat.eq_dec i (pred C)) as [->|Hne].
  - assert (X = T) by congruence. subst. auto.
  - destruct HC1 as [[-> M1] | [-> [_ [k [M1 Kc]]]]].
    + apply (IH T1 (S C) T' C' ltac:(lia) N1 H i X); [simpl; lia | exact HX].
    + destruct (Nat.eq_dec i C) as [->|Hne2].
      * assert (X = k) by congruence. subst. auto.
      * apply (IH T1 (S (S C)) T' C' ltac:(lia) N1 H i X);
          [simpl; lia | exact HX].
Qed.

Section AroundTheLine.

Variable SM : SourceManager.
Variable RawTokens : list Token.
Variable P0 : Preprocessor.
Hypothesis HO : InFileOrder SM RawTokens.

#[local] Abbreviation RawOffs := (RawOffsOf SM).
#[local] Abbreviation PPOffs := (PPOffsOf SM).

(** Where the edits of one iteration go: not before the raw token held,
    or, for the text of an insertion run, at the preprocessed token. *)
Lemma LoopBody_edit_offsets (fuel : nat) (st st' : State) :
  RawInv RawTokens st ->
  LoopBody SM RawTokens fuel st = Done st' ->
  exists Delta,
    RB st' = RB st ++ Delta /\
    Forall (fun Ed =>
              (RawOffs (RawTok st) <= EditOffset Ed)%N \/
              (FromMain SM (PPTok st) = true /\
               EditOffset Ed = PPOffs (PPTok st))) Delta.
Proof.
  intros [R1 [R2 R3]]. unfold LoopBody.
  destruct (FromMain SM (PPTok st)) eqn:Hm; simpl.
  2:{ destruct (Lex (PP st)) as [T P]. intros H. inversion H; subst; simpl.
      exists []. rewrite app_nil_r. auto. }
  destruct (is_ (RawTok st) tok_hash && isAtStartOfLine (RawTok st)).
  - destruct (CommentOutDirective SM RawTokens (RawTok st) (CurRawTok st) (RB st))
      as [Buf| |] eqn:HD; simpl; try discriminate.
    apply CommentOutDirective_Done in HD.
    destruct (GetNextRawTok RawTokens (CurRawTok st) false)
      as [[T C]| |]; simpl; try discriminate.
    destruct (SkipLine RawTokens fuel T C) as [[T1 C1]| |]; simpl;
      try discriminate.
    intros H. inversion H; subst; simpl.
    eexists. split; [reflexivity|].
    destruct (WarningOrPragmaMark (skipn (CurRawTok st) RawTokens));
      [|constructor].
    constructor; [|constructor]. left. simpl. lia.
  - destruct ((PPOffs (PPTok st) =? RawOffs (RawTok st))%N &&
              isSameToken (RawTok st) (PPTok st)).
    + destruct (GetNextRawTok RawTokens (CurRawTok st) false)
        as [[T C]| |]; simpl; try discriminate.
      destruct (Lex (PP st)) as [T' P]. intros H. inversion H; subst; simpl.
      exists []. rewrite app_nil_r. auto.
    + destruct (RawOffs (RawTok st) <=? PPOffs (PPTok st))%N.
      * destruct (DeletionRun SM RawTokens fuel (PPOffs (PPTok st)) (PPTok st)
                    (RawOffs (RawTok st)) (RawTok st) (CurRawTok st))
          as [[[EP T] C]| |] eqn:HDel; simpl; try discriminate.
        destruct (DeletionRun_span SM RawTokens fuel _ _ _ _ _ _ _ R1 R3 HDel)
          as [j [Last [Stop [J1 [J2 [J3 [_ [_ J6]]]]]]]].
        intros H. inversion H; subst; simpl.
        eexists. split; [rewrite <- app_assoc; reflexivity|].
        assert (Hj : j < List.length RawTokens)
          by (apply nth_error_Some; congruence).
        rewrite (end_of_token SM RawTokens HO (pred j) Last J2) by lia.
        pose proof (file_order_from SM RawTokens HO (pred (CurRawTok st))
                      (pred j) _ _ ltac:(lia) R3 J2) as Hle.
        constructor; [left; simpl; lia|].
        constructor; [left; simpl; lia | constructor].
      * destruct (InsertionRun SM fuel (RawOffs (RawTok st)) (PPTok st) (PP st) "")
          as [[[Ex T] P]| |]; simpl; try discriminate.
        intros H. inversion H; subst; simpl.
        eexists. split; [reflexivity|].
        constructor; [right; auto | constructor].
Qed.

Variables From To : N.
Hypothesis HN : NothingReturnedWithin SM From To P0.

(** Before the line: the markers issued so far are not beyond the raw
    token held, and a text is where a preprocessed token is. *)
Lemma Reachable_outside (st : State) :
  Reachable SM RawTokens P0 st ->
  (RawOffs (RawTok st) <= From)%N ->
  Forall (OutsideOf From To) (RB st).
Proof.
  intros Hr Hle.
  destruct (Reachable_EditInv SM RawTokens P0 st HO Hr) as [_ [_ [_ I4]]].
  destruct (Reachable_BufferInv SM RawTokens P0 st Hr) as [_ [_ [_ HA]]].
  rewrite Forall_forall in *. intros Ed HIn.
  destruct (IsExpansionEdit Ed) eqn:Hx.
  - specialize (HA Ed HIn). destruct Ed as [Offs Str|Offs Str];
      simpl in Hx; [discriminate|].
    apply negb_true_iff in Hx. simpl in HA.
    destruct HA as [[-> _] | [_ [T [HT [Hm ->]]]]]; [discriminate|].
    apply (HN T HT Hm).
  - left. assert (HM : In Ed (MarkerEdits (RB st))).
    { unfold MarkerEdits. apply filter_In. split; [exact HIn|].
      rewrite Hx. reflexivity. }
    pose proof (I4 (EditOffset Ed) (in_map EditOffset _ _ HM)). lia.
Qed.

(** After the line: every marker goes to a raw token not before [To]. *)
Lemma LoopBody_outside (fuel : nat) (st st' : State) :
  BufferInv SM RawTokens P0 st ->
  (To <= RawOffs (RawTok st))%N ->
  Forall (OutsideOf From To) (RB st) ->
  LoopBody SM RawTokens fuel st = Done st' ->
  BufferInv SM RawTokens P0 st' /\
  (To <= RawOffs (RawTok st'))%N /\
  Forall (OutsideOf From To) (RB st').
Proof.
  intros HB HT HF HL.
  pose proof HB as [[I1 [I2 [I3 [_ [_ HIn]]]]] _].
  split; [apply (LoopBody_BufferInv SM RawTokens P0 fuel st st' HB HL)|].
  destruct (LoopBody_delta SM RawTokens fuel st st' I1 I2 I3 HL)
    as [[S1 [S2 S3]] [Hle _]].
  split.
  - pose proof (file_order_from SM RawTokens HO (pred (CurRawTok st))
                  (pred (CurRawTok st')) _ _ ltac:(lia) I3 S3). lia.
  - destruct (LoopBody_edit_offsets fuel st st' (conj I1 (conj I2 I3)) HL)
      as [Delta [-> HD]].
    apply Forall_app. split; [exact HF|].
    eapply Forall_impl; [|exact HD]. simpl.
    intros Ed [Hge | [Hm Heq]].
    + right. lia.
    + unfold OutsideOf. rewrite Heq. apply (HN (PPTok st) HIn Hm).
Qed.

Lemma MainLoop_outside (fuel : nat) :
  forall st st' : State,
  BufferInv SM RawTokens P0 st ->
  (To <= RawOffs (RawTok st))%N ->
  Forall (OutsideOf From To) (RB st) ->
  MainLoop SM RawTokens fuel st = Done st' ->
  Forall (OutsideOf From To) (RB st').
Proof.
  induction fuel as [|fuel IH]; intros st st' HB HT HF; simpl;
    destruct (LoopCond st); try discriminate;
    try (intros H; inversion H; subst; exact HF).
  destruct (LoopBody SM RawTokens fuel st) as [st1| |] eqn:HL; simpl;
    try discriminate.
  destruct (LoopBody_outside fuel st st1 HB HT HF HL) as [B1 [B2 B3]].
  apply IH; assumption.
Qed.

End AroundTheLine.

Section Directive.

Variable SM : SourceManager.
Variable RawTokens : list Token.

#[local] Abbreviation RawOffs := (RawOffsOf SM).
#[local] Abbreviation PPOffs := (PPOffsOf SM).

(** C3: at a line-initial [#], the iteration issues one edit exactly when
    the next raw token is the identifier [warning], or the identifier
    [pragma] with the identifier [mark] right after it; the edit puts the
    two characters [//] at the offset of the [#]; for every other
    directive the iteration issues no edit.  Either way the iteration
    leaves the preprocessor alone and takes the raw cursor to the end of
    the line: it stops on the first token it fetches that starts a line
    or is end-of-file, and the tokens it passes are tokens of the line or
    comments.  Nor does the rest of the run edit the line: with the raw
    tokens in file order, and no preprocessed token returned from inside
    the line, no edit of the buffer the loop ends with lies after the
    offset of the [#] and before the offset of the token the skip stopped
    on.  On a raw list that ends with end-of-file and has its identifiers
    resolved the iteration returns. *)
Theorem directive_line_edit (P : Preprocessor) (fuel : nat) (st : State) :
  FromMain SM (PPTok st) = true ->
  is_ (RawTok st) tok_hash = true ->
  isAtStartOfLine (RawTok st) = true ->
  RawInv RawTokens st ->
  (forall st', LoopBody SM RawTokens fuel st = Done st' ->
     (WarningOrPragmaMark (skipn (CurRawTok st) RawTokens) = true ->
      RB st' = RB st ++ [InsertTextAfter (RawOffs (RawTok st)) "//"]) /\
     (WarningOrPragmaMark (skipn (CurRawTok st) RawTokens) = false ->
      RB st' = RB st) /\
     PPTok st' = PPTok st /\ PP st' = PP st /\
     CurRawTok st < CurRawTok st' /\ RawInv RawTokens st' /\
     (isAtStartOfLine (RawTok st') = true \/
      is_ (RawTok st') tok_eof = true) /\
     (forall i X, CurRawTok st <= i < pred (CurRawTok st') ->
        nth_error RawTokens i = Some X ->
        (isAtStartOfLine X = false /\ is_ X tok_eof = false) \/
        is_ X tok_comment = true) /\
     (InFileOrder SM RawTokens -> Reachable SM RawTokens P st ->
      NothingReturnedWithin SM (RawOffs (RawTok st)) (RawOffs (RawTok st')) P ->
      forall fuel' st'', MainLoop SM RawTokens fuel' st' = Done st'' ->
        Forall (OutsideOf (RawOffs (RawTok st)) (RawOffs (RawTok st')))
               (RB st''))) /\
  (forall E, EndsWithEof RawTokens E -> IdentifiersResolved RawTokens ->
     RawLeft RawTokens st <= fuel ->
     exists st', LoopBody SM RawTokens fuel st = Done st').
Proof.
  intros Hm Hh Hs HR. pose proof HR as [R1 [R2 R3]]. split.
  - intros st' HL.
    assert (HC : LoopCond st = true)
      by (unfold LoopCond, isNot; rewrite (hash_not_eof _ Hh); reflexivity).
    pose proof HL as HL0. revert HL.
    unfold LoopBody. rewrite Hm, Hh, Hs. simpl.
    destruct (CommentOutDirective SM RawTokens (RawTok st) (CurRawTok st) (RB st))
      as [Buf| |] eqn:Hc; simpl; try discriminate.
    apply CommentOutDirective_Done in Hc.
    destruct (GetNextRawTok RawTokens (CurRawTok st) false) as [[T C]| |] eqn:G;
      simpl; try discriminate.
    destruct (GetNextRawTok_Done _ _ _ _ _ G) as [N1 [L1 HC1]].
    destruct (GetNextRawTok_advances _ _ _ _ _ G) as [A1 _].
    destruct (SkipLine RawTokens fuel T C) as [[T1 C1]| |] eqn:HS; simpl;
      try discriminate.
    destruct (SkipLine_Done RawTokens _ _ _ _ _ N1 HS) as [B1 B2].
    destruct (SkipLine_stops _ _ _ _ _ _ HS) as [_ B3].
    assert (B4 : C1 <= List.length RawTokens).
    { destruct (Nat.le_gt_cases C1 (List.length RawTokens)); [assumption|].
      assert (pred C1 < List.length RawTokens)
        by (apply nth_error_Some; congruence).
      lia. }
    intros H. inversion H; subst st'; simpl.
    assert (HRB : RB st ++
                  (if WarningOrPragmaMark (skipn (CurRawTok st) RawTokens)
                   then [InsertTextAfter (RawOffs (RawTok st)) "//"] else [])
                  = Buf) by (symmetry; exact Hc).
    split; [intros Hw; rewrite Hw in HRB; symmetry; exact HRB|].
    split; [intros Hw; rewrite Hw, app_nil_r in HRB; symmetry; exact HRB|].
    split; [reflexivity|]. split; [reflexivity|]. split; [lia|].
    split; [repeat split; simpl; auto; lia|]. split; [exact B3|]. split.
    + intros i X Hi HX.
      destruct HC1 as [[-> M1] | [-> [_ [k [M1 Kc]]]]].
      * apply (SkipLine_passes RawTokens fuel T (S (CurRawTok st)) T1 C1
                 ltac:(lia) N1 HS i X); [simpl; lia | exact HX].
      * destruct (Nat.eq_dec i (CurRawTok st)) as [->|Hne].
        -- assert (X = k) by congruence. subst. auto.
        -- apply (SkipLine_passes RawTokens fuel T (S (S (CurRawTok st))) T1 C1
                    ltac:(lia) N1 HS i X); [simpl; lia | exact HX].
    + intros HO Hr HN fuel' st'' HM.
      assert (Hr' : Reachable SM RawTokens P
                      (mkState C1 T1 (PPTok st) (PP st) Buf))
        by (apply (reach_step SM RawTokens P fuel st _ Hr HC HL0)).
      apply (MainLoop_outside SM RawTokens P HO _ _ HN fuel'
               (mkState C1 T1 (PPTok st) (PP st) Buf) st'');
        [apply Reachable_BufferInv; exact Hr' | simpl; lia | | exact HM].
      simpl. rewrite <- HRB. apply Forall_app. split.
      * apply (Reachable_outside SM RawTokens P HO _ _ HN st Hr). lia.
      * destruct (WarningOrPragmaMark (skipn (CurRawTok st) RawTokens));
          [|constructor].
        constructor; [left; simpl; lia | constructor].
  - intros E HE HI Hfuel. unfold RawLeft in Hfuel.
    unfold LoopBody. rewrite Hm, Hh, Hs. simpl.
    assert (Hlt : CurRawTok st < List.length RawTokens)
      by (apply (not_eof_below_size RawTokens E HE _ _ R2 R3);
          apply hash_not_eof; exact Hh).
    pose proof (CommentOutDirective_run SM RawTokens E HE (RawTok st)
                  (CurRawTok st) (RB st) Hlt) as Hrun.
    pose proof (CommentOutDirective_resolved SM RawTokens HI (RawTok st)
                  (CurRawTok st) (RB st)) as Hres.
    destruct (CommentOutDirective SM RawTokens (RawTok st) (CurRawTok st) (RB st))
      as [Buf|f|]; [|subst f; contradiction|contradiction].
    simpl.
    destruct (GetNextRawTok_total RawTokens E (CurRawTok st) false HE Hlt)
      as [T [C G]].
    rewrite G. simpl.
    destruct (GetNextRawTok_advances _ _ _ _ _ G) as [A1 [A2 [A3 A4]]].
    pose proof (SkipLine_run RawTokens E HE fuel T C ltac:(lia) A3 A4) as HS.
    destruct (SkipLine RawTokens fuel T C) as [[T1 C1]| |]; simpl.
    + eexists. reflexivity.
    + contradiction.
    + lia.
Qed.

End Directive.

(** ** A file with no macro invocation: when the run is disturbed *)

Lemma hash_not_comment (T : Token) :
  is_ T tok_hash = true -> is_ T tok_comment = false.
Proof.
  intros H. apply is_true_iff in H. unfold is_. rewrite H. reflexivity.
Qed.

Lemma eof_not_hash (T : Token) :
  is_ T tok_eof = true -> is_ T tok_hash = false.
Proof.
  intros H. apply is_true_iff in H. unfold is_. rewrite H. reflexivity.
Qed.

Lemma isSameToken_EofToken (R : Token) (L : SourceLocation) :
  is_ R tok_eof = false -> isSameToken R (EofToken L) = false.
Proof.
  intros H. unfold isSameToken, EofToken. simpl.
  unfold is_ in H. rewrite kind_eqb_sym, H. reflexivity.
Qed.

Lemma PlainExpansion_In (Toks : list Token) :
  forall (b : bool) (Y : Token),
  In Y (PlainExpansion b Toks) -> In Y Toks.
Proof.
  induction Toks as [|T Rest IH]; intros b Y; simpl; [auto|].
  destruct (is_ T tok_eof); [contradiction|].
  destruct (OnDirectiveLine b T || is_ T tok_comment).
  - intros H. right. eapply IH; eauto.
  - intros [<- | H]; [left; reflexivity | right; eapply IH; eauto].
Qed.

Lemma In_skipn (l : list Token) (n : nat) (Y : Token) :
  In Y (skipn n l) -> exists j, n <= j /\ nth_error l j = Some Y.
Proof.
  revert l. induction n as [|n IH]; intros l H.
  - apply In_nth_error in H. destruct H as [j Hj]. exists j.
    split; [lia | exact Hj].
  - destruct l as [|X l]; [contradiction|]. simpl in H.
    destruct (IH l H) as [j [Hle Hj]]. exists (S j).
    split; [lia | exact Hj].
Qed.

Lemma app_same (A : Type) (l d : list A) : l ++ d = l -> d = [].
Proof.
  intros H. apply (app_inv_head l). rewrite app_nil_r. exact H.
Qed.

Lemma GetNextRawTok_cases (l : list Token) (c : nat) (t : Token) (c' : nat) :
  GetNextRawTok l c false = Done (t, c') ->
  (c' = S c /\ nth_error l c = Some t /\ is_ t tok_comment = false) \/
  (c' = S (S c) /\
   exists k, nth_error l c = Some k /\ is_ k tok_comment = true /\
             nth_error l (S c) = Some t).
Proof.
  unfold GetNextRawTok. intros H.
  destruct (c <? List.length l); [|discriminate].
  destruct (nth_error l c) as [k|] eqn:Hk; [|discriminate].
  cbn [negb andb] in H. destruct (is_ k tok_comment) eqn:Hc.
  - destruct (nth_error l (S c)) as [r|] eqn:Hr; [|discriminate].
    inversion H; subst. right. split; [reflexivity|]. exists k. auto.
  - rewrite Hk in H. inversion H; subst. left. auto.
Qed.

(** A token a skip passes over. *)
Lemma skipped_token (m : CursorMode) (T : Token) (R : list Token) :
  m <> Aligning ->
  isAtStartOfLine T = false -> is_ T tok_eof = false ->
  (m = SkippingOn -> is_ T tok_comment = true) ->
  Returned m T = GoesOn m /\
  PlainExpansion (OnLine m) (T :: R) = PlainExpansion (OnLine m) R.
Proof.
  intros Hm Hs Hk Hc. unfold Returned. rewrite Hk, Hs.
  destruct m; [congruence| |]; cbn [OnLine].
  - split; [reflexivity|].
    apply PlainExpansion_directive; [exact Hk|].
    unfold OnDirectiveLine. rewrite Hs. apply orb_true_r.
  - specialize (Hc eq_refl). rewrite Hc. split; [reflexivity|].
    rewrite (PlainExpansion_comment false T R Hc). unfold OnDirectiveLine.
    rewrite (comment_not_hash _ Hc). reflexivity.
Qed.

Lemma LoopBody_appends (SM : SourceManager) (RawTokens : list Token)
    (fuel : nat) (st st' : State) :
  LoopBody SM RawTokens fuel st = Done st' ->
  exists Delta, RB st' = RB st ++ Delta.
Proof.
  unfold LoopBody.
  destruct (FromMain SM (PPTok st)); simpl.
  2:{ destruct (Lex (PP st)) as [T P]. intros H. inversion H; subst.
      exists []. simpl. now rewrite app_nil_r. }
  destruct (is_ (RawTok st) tok_hash && isAtStartOfLine (RawTok st)).
  - destruct (CommentOutDirective SM RawTokens (RawTok st) (CurRawTok st)
                (RB st)) as [Buf| |] eqn:HD; simpl; try discriminate.
    apply CommentOutDirective_Done in HD.
    destruct (GetNextRawTok RawTokens (CurRawTok st) false)
      as [[T C]| |]; simpl; try discriminate.
    destruct (SkipLine RawTokens fuel T C) as [[T1 C1]| |]; simpl;
      try discriminate.
    intros H. inversion H; subst; simpl. eexists. reflexivity.
  - destruct ((PPOffsOf SM (PPTok st) =? RawOffsOf SM (RawTok st))%N &&
              isSameToken (RawTok st) (PPTok st)).
    + destruct (GetNextRawTok RawTokens (CurRawTok st) false)
        as [[T C]| |]; simpl; try discriminate.
      destruct (Lex (PP st)) as [T' P]. intros H. inversion H; subst.
      exists []. simpl. now rewrite app_nil_r.
    + destruct (RawOffsOf SM (RawTok st) <=? PPOffsOf SM (PPTok st))%N.
      * destruct (DeletionRun SM RawTokens fuel (PPOffsOf SM (PPTok st))
                    (PPTok st) (RawOffsOf SM (RawTok st)) (RawTok st)
                    (CurRawTok st)) as [[[EP T] C]| |]; simpl;
          try discriminate.
        intros H. inversion H; subst; simpl.
        eexists. rewrite <- app_assoc. reflexivity.
      * destruct (InsertionRun SM fuel (RawOffsOf SM (RawTok st))
                    (PPTok st) (PP st) "") as [[[Ex T] P]| |]; simpl;
          try discriminate.
        intros H. inversion H; subst; simpl. eexists. reflexivity.
Qed.

Lemma MainLoop_appends (SM : SourceManager) (RawTokens : list Token)
    (fuel : nat) :
  forall st st',
  MainLoop SM RawTokens fuel st = Done st' ->
  exists Delta, RB st' = RB st ++ Delta.
Proof.
  induction fuel as [|fuel IH]; intros st st'; simpl;
    destruct (LoopCond st); try discriminate;
    try (intros H; inversion H; subst; exists []; now rewrite app_nil_r).
  destruct (LoopBody SM RawTokens fuel st) as [st1| |] eqn:HB; simpl;
    try discriminate.
  intros H. destruct (LoopBody_appends _ _ _ _ _ HB) as [D1 E1].
  destruct (IH _ _ H) as [D2 E2].
  exists (D1 ++ D2). rewrite E2, E1, app_assoc. reflexivity.
Qed.

Section Disturbed.

Variable SM : SourceManager.
Variable RawTokens : list Token.

#[local] Abbreviation RawOffs := (RawOffsOf SM).
#[local] Abbreviation PPOffs := (PPOffsOf SM).

(** An iteration on a main-file token that adds no edit skipped a
    directive line with no [//] to put, or matched the two tokens. *)
Lemma LoopBody_quiet (fuel : nat) (st st' : State) :
  FromMain SM (PPTok st) = true ->
  LoopBody SM RawTokens fuel st = Done st' ->
  RB st' = RB st ->
  (is_ (RawTok st) tok_hash && isAtStartOfLine (RawTok st) = true /\
   WarningOrPragmaMark (skipn (CurRawTok st) RawTokens) = false /\
   PPTok st' = PPTok st /\ PP st' = PP st /\
   exists T C,
     GetNextRawTok RawTokens (CurRawTok st) false = Done (T, C) /\
     SkipLine RawTokens fuel T C = Done (RawTok st', CurRawTok st')) \/
  (is_ (RawTok st) tok_hash && isAtStartOfLine (RawTok st) = false /\
   (PPOffs (PPTok st) =? RawOffs (RawTok st))%N &&
     isSameToken (RawTok st) (PPTok st) = true /\
   GetNextRawTok RawTokens (CurRawTok st) false
     = Done (RawTok st', CurRawTok st') /\
   (PPTok st', PP st') = Lex (PP st)).
Proof.
  intros Hm. unfold LoopBody. rewrite Hm. cbn [negb].
  destruct (is_ (RawTok st) tok_hash && isAtStartOfLine (RawTok st)) eqn:Hd.
  - destruct (CommentOutDirective SM RawTokens (RawTok st) (CurRawTok st)
                (RB st)) as [Buf| |] eqn:HD; simpl; try discriminate.
    apply CommentOutDirective_Done in HD.
    destruct (GetNextRawTok RawTokens (CurRawTok st) false)
      as [[T C]| |] eqn:G; simpl; try discriminate.
    destruct (SkipLine RawTokens fuel T C) as [[T1 C1]| |] eqn:HS; simpl;
      try discriminate.
    intros H. inversion H; subst st'; simpl. intros HRB. left.
    split; [reflexivity|]. split.
    + destruct (WarningOrPragmaMark (skipn (CurRawTok st) RawTokens));
        [|reflexivity].
      rewrite HD in HRB. apply app_same in HRB. discriminate.
    + split; [reflexivity|]. split; [reflexivity|].
      exists T, C. auto.
  - destruct ((PPOffs (PPTok st) =? RawOffs (RawTok st))%N &&
              isSameToken (RawTok st) (PPTok st)) eqn:Hsame.
    + destruct (GetNextRawTok RawTokens (CurRawTok st) false)
        as [[T C]| |] eqn:G; simpl; try discriminate.
      destruct (Lex (PP st)) as [T' P] eqn:HL.
      intros H. inversion H; subst st'; simpl. intros _. right. auto.
    + destruct (RawOffs (RawTok st) <=? PPOffs (PPTok st))%N.
      * destruct (DeletionRun SM RawTokens fuel (PPOffs (PPTok st)) (PPTok st)
                    (RawOffs (RawTok st)) (RawTok st) (CurRawTok st))
          as [[[EP T] C]| |]; simpl; try discriminate.
        intros H. inversion H; subst st'; simpl. intros HRB.
        rewrite <- app_assoc in HRB. apply app_same in HRB. discriminate.
      * destruct (InsertionRun SM fuel (RawOffs (RawTok st)) (PPTok st)
                    (PP st) "") as [[[Ex T] P]| |]; simpl; try discriminate.
        intros H. inversion H; subst st'; simpl. intros HRB.
        apply app_same in HRB. discriminate.
Qed.

(** With the preprocessed token behind the raw token held and behind
    every raw token after it, the loop does not end without an edit:
    directive lines apart, the next thing it does is an insertion run. *)
Lemma MainLoop_behind (fuel : nat) :
  forall st st' : State,
  RawInv RawTokens st ->
  FromMain SM (PPTok st) = true ->
  is_ (PPTok st) tok_eof = false ->
  (forall j B, pred (CurRawTok st) <= j ->
     nth_error RawTokens j = Some B ->
     (PPOffs (PPTok st) < RawOffs B)%N) ->
  MainLoop SM RawTokens fuel st = Done st' ->
  RB st' <> RB st.
Proof.
  induction fuel as [|fuel IH]; intros st st' HR Hm Hk Hb; simpl;
    assert (HC : LoopCond st = true)
      by (unfold LoopCond, isNot; rewrite Hk; apply orb_true_r);
    rewrite HC; [discriminate|].
  destruct (LoopBody SM RawTokens fuel st) as [st1| |] eqn:HB; simpl;
    try discriminate.
  intros HM Heq.
  destruct (LoopBody_appends _ _ _ _ _ HB) as [D1 E1].
  destruct (MainLoop_appends _ _ _ _ _ HM) as [D2 E2].
  assert (HD : D1 = [] /\ D2 = []).
  { rewrite E1, <- app_assoc in E2. rewrite Heq in E2. symmetry in E2.
    apply app_same in E2. apply app_eq_nil in E2. exact E2. }
  destruct HD as [-> ->]. rewrite app_nil_r in E1, E2.
  pose proof HR as [R1 [R2 R3]].
  destruct (LoopBody_delta SM RawTokens fuel st st1 R1 R2 R3 HB)
    as [HR1 [Hle _]].
  destruct (LoopBody_quiet fuel st st1 Hm HB E1)
    as [[_ [_ [HP1 [_ _]]]] | [_ [Hsame _]]].
  - apply (IH st1 st' HR1); [rewrite HP1; exact Hm | rewrite HP1; exact Hk
                            | | exact HM | exact E2].
    intros j B Hj HB'. rewrite HP1. apply (Hb j B); [lia | exact HB'].
  - apply andb_true_iff in Hsame. destruct Hsame as [Ho _].
    apply N.eqb_eq in Ho.
    pose proof (Hb (pred (CurRawTok st)) (RawTok st) ltac:(lia) R3). lia.
Qed.

(** What a call of the cursor passes: a comment it steps over, or no
    token at all. *)
Lemma fetch_facts (m : CursorMode) (C0 : nat) (T : Token) (C : nat) :
  GetNextRawTok RawTokens C0 false = Done (T, C) ->
  exists m1,
    (m = Aligning -> m1 = Aligning) /\
    (m <> Aligning -> m1 <> Aligning) /\
    C0 < C /\ C <= List.length RawTokens /\
    nth_error RawTokens (pred C) = Some T /\
    PlainExpansion (OnLine m) (skipn C0 RawTokens)
      = PlainExpansion (OnLine m1) (skipn (pred C) RawTokens) /\
    (NoCommentedDirective (skipn (pred C) RawTokens) = true ->
     NoCommentedDirective (skipn C0 RawTokens) = true) /\
    (OnTrackAfter m1 T (skipn C RawTokens) = true ->
     CursorOnTrack m (skipn C0 RawTokens) = true).
Proof.
  intros G.
  destruct (GetNextRawTok_advances _ _ _ _ _ G) as [A1 [_ [A3 A4]]].
  destruct (GetNextRawTok_cases _ _ _ _ G)
    as [[-> [HT Hc]] | [-> [K [HK [Hc HT]]]]]; cbn [pred] in *.
  - exists m. rewrite (nth_error_skipn _ _ _ _ HT).
    repeat split; auto.
    intros H. cbn [CursorOnTrack]. rewrite Hc. exact H.
  - exists (SteppedOver m K).
    destruct (SteppedOver_skipping m K) as [S1 S2].
    rewrite (nth_error_skipn _ _ _ _ HK), (nth_error_skipn _ _ _ _ HT).
    split; [exact S1|]. split; [exact S2|]. split; [lia|].
    split; [exact A3|]. split; [exact HT|]. split; [|split].
    + rewrite (PlainExpansion_comment (OnLine m) K _ Hc).
      rewrite (OnLine_stepped m K Hc). reflexivity.
    + intros H. cbn [NoCommentedDirective].
      rewrite (comment_not_hash _ Hc). exact H.
    + intros H. cbn [CursorOnTrack]. rewrite Hc. exact H.
Qed.

(** The skip over a directive line either ends where the preprocessor
    goes on, or has run on over a token [X] that the preprocessor
    returns. *)
Lemma skip_path (fuel : nat) :
  forall (m : CursorMode) (C0 : nat) (T : Token) (C : nat)
         (T1 : Token) (C1 : nat),
  m <> Aligning ->
  GetNextRawTok RawTokens C0 false = Done (T, C) ->
  SkipLine RawTokens fuel T C = Done (T1, C1) ->
  (PlainExpansion (OnLine m) (skipn C0 RawTokens)
     = PlainExpansion false (skipn (pred C1) RawTokens) /\
   (is_ T1 tok_comment = false ->
    NoCommentedDirective (skipn (pred C1) RawTokens) = true ->
    CursorOnTrack Aligning (skipn (pred C1) RawTokens) = true ->
    NoCommentedDirective (skipn C0 RawTokens) = true /\
    CursorOnTrack m (skipn C0 RawTokens) = true)) \/
  (exists i X,
     C0 <= i /\ i < pred C1 /\ nth_error RawTokens i = Some X /\
     PlainExpansion (OnLine m) (skipn C0 RawTokens)
       = X :: PlainExpansion false (skipn (S i) RawTokens)).
Proof.
  induction fuel as [|fuel IH]; intros m C0 T C T1 C1 Hm G HS;
    destruct (fetch_facts m C0 T C G)
      as [m1 [_ [M2 [F0 [F1 [F2 [F3 [F4 F5]]]]]]]];
    specialize (M2 Hm);
    assert (H1 : 1 <= C) by lia;
    pose proof (skipn_pred _ _ _ H1 F2) as Hsk;
    cbn [SkipLine] in HS;
    destruct (negb (isAtStartOfLine T) && isNot T tok_eof) eqn:Hgo;
    try discriminate.
  1, 3: (* the skip stops on [T] *)
    inversion HS; subst T1 C1; left;
    assert (Hs : isAtStartOfLine T = true \/ is_ T tok_eof = true)
      by (unfold isNot in Hgo;
          destruct (isAtStartOfLine T), (is_ T tok_eof); simpl in Hgo; auto;
          discriminate);
    (split;
     [rewrite F3, Hsk; apply PlainExpansion_line_start; exact Hs|]);
    intros Q1 Q2 Q3; split; [apply F4; exact Q2|]; apply F5;
    unfold OnTrackAfter; rewrite (Returned_line_start m1 T Hs);
    rewrite Hsk in Q3; cbn [CursorOnTrack] in Q3; rewrite Q1 in Q3;
    exact Q3.
  (* the skip goes on *)
  apply andb_true_iff in Hgo. destruct Hgo as [Hsl Hk].
  apply negb_true_iff in Hsl. apply negb_true_iff in Hk.
  destruct (GetNextRawTok RawTokens C false) as [[T' C']| |] eqn:G';
    simpl in HS; try discriminate.
  destruct (GetNextRawTok_advances _ _ _ _ _ G') as [A1 [_ [_ A4]]].
  destruct (SkipLine_Done RawTokens _ _ _ _ _ A4 HS) as [B1 _].
  assert (Hdec : (m1 = SkippingOn /\ is_ T tok_comment = false) \/
                 (m1 = SkippingOn -> is_ T tok_comment = true)).
  { destruct m1; try (right; discriminate).
    destruct (is_ T tok_comment); [right; reflexivity | left; auto]. }
  destruct Hdec as [[-> Hnc] | Hok].
  - right. exists (pred C), T. split; [lia|]. split; [lia|].
    split; [exact F2|]. rewrite F3, Hsk. cbn [OnLine].
    replace (S (pred C)) with C by lia.
    apply PlainExpansion_plain; [exact Hk | exact Hnc|].
    rewrite Hsl. apply andb_false_r.
  - destruct (skipped_token m1 T (skipn C RawTokens) M2 Hsl Hk Hok)
      as [HRet HPE].
    destruct (IH m1 C T' C' T1 C1 M2 G' HS)
      as [[P1 P2] | [i [X [I1 [I2 [I3 I4]]]]]].
    + left. split; [rewrite F3, Hsk, HPE; exact P1|].
      intros Q1 Q2 Q3. destruct (P2 Q1 Q2 Q3) as [N1 N2]. split.
      * apply F4. rewrite Hsk. cbn [NoCommentedDirective].
        rewrite Hsl, andb_false_r. exact N1.
      * apply F5. unfold OnTrackAfter. rewrite HRet. exact N2.
    + right. exists i, X. split; [lia|]. split; [exact I2|].
      split; [exact I3|]. rewrite F3, Hsk, HPE. exact I4.
Qed.

Variable L0 : SourceLocation.
Hypothesis HS : StrictlyInOrder SM RawTokens.
Hypothesis H1 : EofOnlyLast RawTokens.
Hypothesis HM : FromMain SM (EofToken L0) = true.

Lemma at_end_undisturbed (st : State) :
  RawInv RawTokens st -> is_ (RawTok st) tok_eof = true ->
  is_ (RawTok st) tok_comment = false /\
  NoCommentedDirective (skipn (pred (CurRawTok st)) RawTokens) = true /\
  CursorOnTrack Aligning (skipn (pred (CurRawTok st)) RawTokens) = true.
Proof.
  intros [R1 [R2 R3]] Hk.
  pose proof (eof_not_comment _ Hk) as Hc.
  pose proof (H1 _ _ R3 Hk) as Hlast.
  rewrite (skipn_pred _ _ _ R1 R3).
  replace (skipn (CurRawTok st) RawTokens) with (@nil Token)
    by (symmetry; apply skipn_all2; lia).
  split; [exact Hc|]. split.
  - cbn [NoCommentedDirective]. rewrite (eof_not_hash _ Hk). reflexivity.
  - cbn [CursorOnTrack]. rewrite Hc. unfold Returned. rewrite Hk.
    reflexivity.
Qed.

(** A loop that ends without an edit has held no comment, commented out
    no directive, and skipped no token the preprocessor returns. *)
Lemma MainLoop_undisturbed (fuel : nat) :
  forall st st' : State,
  Aligned SM RawTokens L0 st ->
  MainLoop SM RawTokens fuel st = Done st' -> RB st' = [] ->
  is_ (RawTok st) tok_comment = false /\
  NoCommentedDirective (skipn (pred (CurRawTok st)) RawTokens) = true /\
  CursorOnTrack Aligning (skipn (pred (CurRawTok st)) RawTokens) = true.
Proof.
  induction fuel as [|fuel IH]; intros st st' HA; simpl;
    destruct (LoopCond st) eqn:HC; try discriminate;
    try (intros _ _; destruct HA as [_ [HR _]];
         apply at_end_undisturbed; [exact HR|];
         unfold LoopCond, isNot in HC; apply orb_false_iff in HC;
         destruct HC as [HC _]; apply negb_false_iff in HC; exact HC).
  destruct (LoopBody SM RawTokens fuel st) as [st1| |] eqn:HB; simpl;
    try discriminate.
  intros HMn HRB.
  destruct HA as [Hrb [HR [L [HL Hlex]]]].
  pose proof HR as [R1 [R2 R3]].
  destruct (MainLoop_appends _ _ _ _ _ HMn) as [D2 E2].
  rewrite HRB in E2. symmetry in E2. apply app_eq_nil in E2.
  destruct E2 as [Hrb1 _].
  destruct (LoopBody_delta SM RawTokens fuel st st1 R1 R2 R3 HB)
    as [HR1 _].
  destruct (Lex_main SM L0 L _ _ HM Hlex) as [Hforeign Hmain].
  rewrite (skipn_pred _ _ _ R1 R3) in HL |- *.
  destruct (FromMain SM (PPTok st)) eqn:Hm.
  - (* a token of the main file *)
    specialize (Hmain eq_refl).
    assert (Hk : is_ (RawTok st) tok_eof = false).
    { destruct (is_ (RawTok st) tok_eof) eqn:Hk; [|reflexivity].
      exfalso. rewrite (PlainExpansion_eof _ _ _ Hk) in HL.
      assert (HF : [] = filter (FromMain SM) L) by (inversion HL; congruence).
      destruct Hmain as [[_ [Ha _]] | [L' [_ [_ Hf]]]].
      - unfold LoopCond, isNot in HC. rewrite Hk, Ha in HC. discriminate.
      - rewrite Hf in HF. discriminate. }
    destruct (LoopBody_quiet fuel st st1 Hm HB ltac:(congruence))
      as [[Hd [HW [HP1 [HP2 [T [C [G HSk]]]]]]] | [Hd [Hsame [G HLx]]]].
    + (* a directive line, skipped *)
      apply andb_true_iff in Hd. destruct Hd as [Hh Hsl].
      pose proof (hash_not_comment _ Hh) as Hnc.
      assert (Hdl : OnDirectiveLine false (RawTok st) = true)
        by (unfold OnDirectiveLine; rewrite Hh, Hsl; reflexivity).
      rewrite (PlainExpansion_directive false _ _ Hk Hdl) in HL.
      destruct (skip_path fuel SkippingLine (CurRawTok st) T C
                  (RawTok st1) (CurRawTok st1) ltac:(discriminate) G HSk)
        as [[P1 P2] | [i [X [I1 [I2 [I3 I4]]]]]].
      * assert (HA1 : Aligned SM RawTokens L0 st1).
        { split; [exact Hrb1|]. split; [exact HR1|].
          exists L. split; [|rewrite HP1, HP2; exact Hlex].
          rewrite <- P1. exact HL. }
        destruct (IH st1 st' HA1 HMn HRB) as [Q1 [Q2 Q3]].
        destruct (P2 Q1 Q2 Q3) as [N1 N2].
        split; [exact Hnc|]. split.
        -- cbn [NoCommentedDirective]. rewrite HW, andb_false_r. exact N1.
        -- cbn [CursorOnTrack]. rewrite Hnc. unfold Returned, Held.
           rewrite Hk, Hnc, Hh, Hsl. exact N2.
      * exfalso. cbn [OnLine] in I4. rewrite I4 in HL.
        destruct Hmain as [[-> _] | [L' [_ [_ Hf]]]]; [inversion HL|].
        rewrite Hf in HL.
        inversion HL as [|x p xs ys [_ [Hne [Hoffs _]]] _ Hx1 Hx2]; subst.
        apply (MainLoop_behind fuel st1 st' HR1); auto.
        -- rewrite HP1. exact Hm.
        -- rewrite HP1. exact Hne.
        -- intros j B Hj HBj. rewrite HP1, Hoffs.
           apply (HS i j X B); [lia | exact I3 | exact HBj].
        -- congruence.
    + (* the two tokens matched *)
      destruct (is_ (RawTok st) tok_comment) eqn:Hnc.
      * (* a comment held matches nothing *)
        exfalso. apply andb_true_iff in Hsame. destruct Hsame as [Ho Hs].
        apply N.eqb_eq in Ho.
        assert (Hf0 : OnDirectiveLine false (RawTok st) = false)
          by (unfold OnDirectiveLine; rewrite (comment_not_hash _ Hnc);
              reflexivity).
        rewrite (PlainExpansion_comment false _ _ Hnc), Hf0 in HL.
        destruct Hmain as [[_ [Ha _]] | [L' [_ [_ Hf]]]].
        -- rewrite Ha, (isSameToken_EofToken _ _ Hk) in Hs. discriminate.
        -- rewrite Hf in HL.
           inversion HL as [|Y p xs ys [_ [_ [Hoffs _]]] _ Hx1 Hx2]; subst.
           assert (HIn : In Y (skipn (CurRawTok st) RawTokens)).
           { apply (PlainExpansion_In _ false). rewrite <- Hx1.
             left. reflexivity. }
           destruct (In_skipn _ _ _ HIn) as [j [Hj HY]].
           pose proof (HS (pred (CurRawTok st)) j _ _ ltac:(lia) R3 HY).
           lia.
      * (* a token the preprocessor returns *)
        rewrite (PlainExpansion_plain _ _ Hk Hnc Hd) in HL.
        destruct Hmain as [[-> _] | [L' [_ [HP Hf]]]]; [inversion HL|].
        rewrite Hf in HL.
        inversion HL as [|x p xs ys _ HL' Hx1 Hx2]; subst.
        destruct (fetch_facts Aligning (CurRawTok st) _ _ G)
          as [m1 [M1 [_ [F0 [F1 [F2 [F3 [F4 F5]]]]]]]].
        rewrite (M1 eq_refl) in F3, F5. cbn [OnLine] in F3.
        assert (HA1 : Aligned SM RawTokens L0 st1).
        { split; [exact Hrb1|]. split; [exact HR1|].
          exists L'. split; [rewrite <- F3; exact HL'|].
          rewrite HLx, HP. reflexivity. }
        destruct (IH st1 st' HA1 HMn HRB) as [Q1 [Q2 Q3]].
        destruct HR1 as [R1' [_ R3']].
        rewrite (skipn_pred _ _ _ R1' R3') in Q3.
        cbn [CursorOnTrack] in Q3. rewrite Q1 in Q3.
        split; [reflexivity|]. split.
        -- cbn [NoCommentedDirective]. rewrite Hd. apply (F4 Q2).
        -- cbn [CursorOnTrack]. rewrite Hnc. unfold Returned, Held.
           rewrite Hk, Hnc, Hd. apply (F5 Q3).
  - (* a token of another file, dropped *)
    destruct (Hforeign eq_refl) as [L' [-> [HP Hf]]].
    assert (Hst1 : CurRawTok st1 = CurRawTok st /\ RawTok st1 = RawTok st /\
                   (PPTok st1, PP st1) = Lex (PP st)).
    { unfold LoopBody in HB. rewrite Hm in HB. cbn [negb] in HB.
      destruct (Lex (PP st)) as [T' P']. inversion HB; subst. auto. }
    destruct Hst1 as [E1 [E2 E3]].
    assert (HA1 : Aligned SM RawTokens L0 st1).
    { split; [exact Hrb1|]. split; [exact HR1|].
      exists L'. rewrite E1, (skipn_pred _ _ _ R1 R3). split.
      - rewrite <- Hf. exact HL.
      - rewrite E3, HP. reflexivity. }
    destruct (IH st1 st' HA1 HMn HRB) as [Q1 [Q2 Q3]].
    rewrite E1, E2, (skipn_pred _ _ _ R1 R3) in *. auto.
Qed.

End Disturbed.

(** C7, as the code has it.  Take a file with no macro invocation and no
    excluded text: the preprocessor returns the raw tokens without the
    comments and the directive lines, with the tokens of included files
    in between.  The loop issues no edit and the run reports no changes
    when the file has no [#warning] and no [#pragma mark] line (those get
    their [//] edit) and its comments are where the raw cursor steps over
    them: the cursor, which steps over one comment at a time, never
    returns a comment for the loop to hold, and the skip over a directive
    line never runs on over tokens of the next line.  For raw tokens as
    lexed, at strictly increasing offsets and with end-of-file last and
    only last, these are the only files without edits: a run that
    reports no changes is a run over such a file. *)
Theorem no_macro_no_edit (SM : SourceManager) (RawTokens : list Token)
    (E : Token) (P : Preprocessor) :
  EndsWithEof RawTokens E ->
  IdentifiersResolved RawTokens ->
  Unexpanded SM RawTokens P ->
  (NoCommentedDirective RawTokens = true ->
   CursorOnTrack Aligning RawTokens = true ->
   exists fuel0, forall fuel, fuel0 <= fuel ->
     RewriteMacrosInInput SM RawTokens fuel P = Done NoChanges) /\
  (StrictlyInOrder SM RawTokens -> EofOnlyLast RawTokens ->
   forall fuel,
     RewriteMacrosInInput SM RawTokens fuel P = Done NoChanges ->
     NoCommentedDirective RawTokens = true /\
     CursorOnTrack Aligning RawTokens = true).
Proof.
  intros HE HI [HU HM]. split.
  - intros HW HC.
    exists (S (List.length RawTokens + S (List.length (Pending P)))).
    intros fuel Hfuel.
    destruct (InitState_plain SM RawTokens E (EofLoc P) HE HM P eq_refl HU HC)
      as [st0 [H0 [HInv Hsteps]]].
    unfold RewriteMacrosInInput. rewrite H0. cbn [bind].
    destruct (MainLoop_plain SM RawTokens E (EofLoc P) HE HI HW HM fuel _ HInv)
      as [st' [H1 H2]]; [lia|].
    rewrite H1. cbn [bind]. rewrite H2. reflexivity.
  - intros HS H1 fuel. unfold RewriteMacrosInInput, InitState.
    destruct (GetNextRawTok RawTokens 0 false) as [[T C]| |] eqn:G;
      cbn [bind]; try discriminate.
    destruct (Lex P) as [T' P'] eqn:HLex. cbn [bind].
    destruct (MainLoop SM RawTokens fuel (mkState C T T' P' []))
      as [st| |] eqn:HMn; cbn [bind]; try discriminate.
    destruct (RB st) as [|Ed Es] eqn:HRB; [|discriminate]. intros _.
    destruct (fetch_facts RawTokens Aligning 0 T C G)
      as [m1 [M1 [_ [F0 [F1 [F2 [F3 [F4 F5]]]]]]]].
    rewrite (M1 eq_refl) in F3, F5. cbn [OnLine skipn] in F3, F4, F5.
    assert (HA : Aligned SM RawTokens (EofLoc P) (mkState C T T' P' [])).
    { split; [reflexivity|]. split; [repeat split; simpl; auto; lia|].
      exists (Pending P). simpl. split; [rewrite <- F3; exact HU|].
      rewrite <- HLex. destruct P; reflexivity. }
    destruct (MainLoop_undisturbed SM RawTokens (EofLoc P) HS H1 HM fuel
                _ _ HA HMn HRB) as [Q1 [Q2 Q3]].
    simpl in Q1, Q2, Q3. split; [apply (F4 Q2)|]. apply F5.
    rewrite (skipn_pred RawTokens C T ltac:(lia) F2) in Q3.
    cbn [CursorOnTrack] in Q3. rewrite Q1 in Q3. exact Q3.
Qed.

(** ** The theorems at work on the example streams *)

Section OnExamples.

Import Examples.

Lemma Pragma_in_file_order : InFileOrder FileSM Pragma_raw.
Proof.
  intros [|[|[|[|[|[|[|[|[|[|i]]]]]]]]]] A B HA HB; simpl in HA, HB;
    try discriminate; try (destruct i; discriminate);
    inversion HA; inversion HB; subst; vm_compute;
    (split; [discriminate | reflexivity]).
Defined.

Lemma Pragma_st1_reachable :
  Reachable FileSM Pragma_raw Pragma_pp Pragma_st1.
Proof.
  apply (reach_step FileSM Pragma_raw Pragma_pp 10 Pragma_st0 Pragma_st1);
    [|reflexivity|reflexivity].
  apply reach_init. reflexivity.
Defined.

(** The [#include] line of [Pragma_raw], from offset 18: the iteration
    issues no edit and takes the raw cursor from 5 to 10, on to the
    end-of-file token at offset 31, and the buffer the loop ends with has
    no edit between the offsets 18 and 31. *)
Lemma directive_line_edit_witness :
  RB Pragma_st2 = RB Pragma_st1 /\
  CurRawTok Pragma_st1 = 5 /\ CurRawTok Pragma_st2 = 10 /\
  is_ (RawTok Pragma_st2) tok_eof = true /\
  (forall st'', MainLoop FileSM Pragma_raw 10 Pragma_st2 = Done st'' ->
     Forall (OutsideOf 18 31) (RB st'')) /\
  exists st', LoopBody FileSM Pragma_raw 10 Pragma_st1 = Done st'.
Proof.
  assert (HR : RawInv Pragma_raw Pragma_st1)
    by (repeat split; simpl; lia).
  pose proof (directive_line_edit FileSM Pragma_raw Pragma_pp 10 Pragma_st1
                eq_refl eq_refl eq_refl HR) as [H1 H2].
  destruct (H1 Pragma_st2 eq_refl)
    as [_ [Hno [_ [_ [_ [_ [_ [_ Hrest]]]]]]]].
  split; [exact (Hno eq_refl)|].
  split; [reflexivity|]. split; [reflexivity|]. split; [reflexivity|].
  split.
  - intros st'' HM.
    apply (Hrest Pragma_in_file_order Pragma_st1_reachable) with (fuel' := 10);
      [|exact HM].
    intros T [<- | []] _. right. vm_compute. discriminate.
  - apply (H2 (RawEof 31)).
    + exists (firstn 9 Pragma_raw). split; reflexivity.
    + intros T HIn Hi. simpl in HIn.
      repeat (destruct HIn as [<- | HIn];
              [vm_compute in Hi |- *; discriminate|]).
      contradiction.
    + vm_compute. lia.
Defined.

(** The deletion run over [EMPTY] in [Empty_raw]: the comment at index
    1 stops it, [EMPTY] at offsets 0 to 5 is the one token deleted, and
    the edits are the opener at 0 and the closer at 5. *)
Lemma deletion_run_edits_witness :
  (exists j Last Stop,
     1 <= j /\
     nth_error Empty_raw (pred j) = Some Last /\
     nth_error Empty_raw j = Some Stop /\
     (forall i X, 1 <= i < j -> nth_error Empty_raw i = Some X ->
        is_ X tok_comment = false /\
        StaysInRun FileSM 12 (PPTok Empty_st0) X = true) /\
     (is_ Stop tok_comment = true \/
      StaysInRun FileSM 12 (PPTok Empty_st0) Stop = false) /\
     RB Empty_st1 =
       [InsertTextAfter 0 " /*";
        InsertTextBefore (uadd (RawOffsOf FileSM Last) (getLength Last))
          "*/"]) /\
  RB Empty_st1 = [InsertTextAfter 0 " /*"; InsertTextBefore 5 "*/"] /\
  exists st', LoopBody FileSM Empty_raw 10 Empty_st0 = Done st'.
Proof.
  assert (Hle : (RawOffsOf FileSM (RawTok Empty_st0)
                 <= PPOffsOf FileSM (PPTok Empty_st0))%N)
    by (vm_compute; discriminate).
  assert (HR : RawInv Empty_raw Empty_st0)
    by (repeat split; simpl; lia).
  pose proof (deletion_run_edits FileSM Empty_raw 10 Empty_st0
                eq_refl eq_refl eq_refl Hle HR) as [H1 H2].
  split; [exact (H1 Empty_st1 eq_refl)|]. split; [reflexivity|].
  apply (H2 (RawEof 18)).
  - exists (firstn 5 Empty_raw). split; reflexivity.
  - reflexivity.
  - left. reflexivity.
  - vm_compute. lia.
Defined.

Lemma Empty_in_file_order : InFileOrder FileSM Empty_raw.
Proof.
  intros [|[|[|[|[|[|i]]]]]] A B HA HB; simpl in HA, HB;
    try discriminate; try (destruct i; discriminate);
    inversion HA; inversion HB; subst; vm_compute;
    (split; [discriminate | reflexivity]).
Defined.

(** The comment of [Empty_raw] ends the run: the end position is 5, the
    end of [EMPTY], the cursor goes on to [int], and the comment begins
    at offset 6. *)
Lemma deletion_run_stops_before_comment_witness :
  (exists T C,
     DeletionRun FileSM Empty_raw 1 12 (PPTok Empty_st0) 0
       (RawTok Empty_st0) 1 = Done (5%N, T, C) /\
     GetNextRawTok Empty_raw 2 false = Done (T, C) /\ 2 < C) /\
  (5 <= RawOffsOf FileSM (Comment "/*c*/" 6 false true))%N.
Proof.
  assert (HE : EndsWithEof Empty_raw (RawEof 18))
    by (exists (firstn 5 Empty_raw); split; reflexivity).
  pose proof (deletion_run_stops_before_comment FileSM Empty_raw 0 12
                (PPTok Empty_st0) 0 (RawTok Empty_st0) 1
                (RawEof 18) (Comment "/*c*/" 6 false true)
                HE eq_refl eq_refl) as [H1 H2].
  split; [exact H1|].
  apply (H2 Empty_in_file_order); [lia | reflexivity | reflexivity].
Defined.

(** The insertion run of [MacroX]: the text [" 1 "] goes before offset 0,
    the offset of the preprocessed token, while the raw token [;] is at
    offset 1. *)
Lemma insertion_run_edit_witness :
  RawOffsOf FileSM (RawTok MacroX_st1) = 1%N /\
  RB MacroX_st2 = RB MacroX_st1 ++ [InsertTextBefore 0 " 1 "] /\
  exists st', LoopBody FileSM MacroX_raw 10 MacroX_st1 = Done st'.
Proof.
  pose proof (insertion_run_edit FileSM MacroX_raw 10 MacroX_st1
                eq_refl eq_refl eq_refl) as [H1 H2].
  split; [reflexivity|]. split.
  - exact (proj1 (H1 MacroX_st2 eq_refl)).
  - apply H2.
    + split; [discriminate | repeat constructor].
    + reflexivity.
    + vm_compute. lia.
Defined.

(** C1 as the specification words it does not hold: the text of the
    insertion run of [MacroX] is not inserted before the raw token's
    offset. *)
Lemma insertion_not_at_raw_offset :
  ~ (forall (SM : SourceManager) (RawTokens : list Token) (fuel : nat)
            (st st' : State),
       FromMain SM (PPTok st) = true ->
       is_ (RawTok st) tok_hash && isAtStartOfLine (RawTok st) = false ->
       (PPOffsOf SM (PPTok st) < RawOffsOf SM (RawTok st))%N ->
       LoopBody SM RawTokens fuel st = Done st' ->
       exists Text,
         RB st' = RB st ++
           [InsertTextBefore (RawOffsOf SM (RawTok st)) Text]).
Proof.
  intros H.
  destruct (H FileSM MacroX_raw 10 MacroX_st1 MacroX_st2
              eq_refl eq_refl eq_refl eq_refl) as [Text HT].
  vm_compute in HT. discriminate HT.
Qed.

(** C2 as the specification words it does not hold: in [Empty_raw] the
    closer is inserted at offset 5, in front of the comment at offset 6,
    so the comment is not between the opener and the closer. *)
Lemma comment_left_outside_span :
  ~ (forall (SM : SourceManager) (RawTokens : list Token) (fuel : nat)
            (PO : N) (PPT : Token) (RO : N) (Tok : Token) (Cur : nat)
            (Cmt : Token) (EndPos : N) (T : Token) (C : nat),
       nth_error RawTokens Cur = Some Cmt ->
       is_ Cmt tok_comment = true ->
       DeletionRun SM RawTokens fuel PO PPT RO Tok Cur = Done (EndPos, T, C) ->
       (RawOffsOf SM Cmt < EndPos)%N).
Proof.
  intros H.
  assert (K := H FileSM Empty_raw 10 12%N (PPTok Empty_st0) 0%N
                 (RawTok Empty_st0) 1 (Comment "/*c*/" 6 false true)
                 5%N (RawTok Empty_st1) 3 eq_refl eq_refl eq_refl).
  vm_compute in K. discriminate K.
Qed.

(** The cursor on [/*a*/] in [TwoComments_raw] returns [/*b*/]. *)
Lemma GetNextRawTok_returns_second_comment_witness :
  GetNextRawTok TwoComments_raw 1 false
    = Done (Comment "/*b*/" 10 false true, 3) /\
  is_ (Comment "/*b*/" 10 false true) tok_comment = true.
Proof.
  apply (GetNextRawTok_returns_second_comment TwoComments_raw 1
           (Comment "/*a*/" 4 false true) (Comment "/*b*/" 10 false true));
    reflexivity.
Defined.

(** [MacroX] is made of streams of one file. *)
Lemma MacroX_ends_with_eof : EndsWithEof MacroX_raw (RawEof 2).
Proof. exists (firstn 2 MacroX_raw). split; reflexivity. Defined.

Lemma MacroX_within_file : ExpansionWithinFile FileSM (RawEof 2) MacroX_pp.
Proof.
  intros T [<- | [<- | [<- | []]]] _.
  - right. repeat split; reflexivity.
  - left. reflexivity.
  - left. reflexivity.
Defined.

Lemma MacroX_resolved : IdentifiersResolved MacroX_raw.
Proof.
  intros T [<- | [<- | [<- | []]]] Hi; vm_compute in Hi |- *; discriminate.
Defined.

Lemma MacroX_ends_file : ExpansionEndsFile FileSM MacroX_raw MacroX_pp.
Proof.
  split; [reflexivity|]. split.
  - repeat constructor.
  - intros T [<- | [<- | [<- | []]]]; vm_compute; discriminate.
Defined.

Lemma raw_cursor_never_overruns_witness :
  RewriteMacrosInInput FileSM MacroX_raw 10 MacroX_pp <> Abort OverranEof /\
  RewriteMacrosInInput FileSM MacroX_raw 10 MacroX_pp <> Abort OutOfBounds.
Proof.
  apply (raw_cursor_never_overruns FileSM MacroX_raw (RawEof 2) MacroX_pp 10
           MacroX_ends_with_eof MacroX_within_file).
Defined.

(** The condition on the preprocessed stream is used.  [Beyond_pp]
    reports end-of-file one past the raw end-of-file token, which the
    preprocessor of a file never does; with it the deletion run over [X]
    asks for a token past the end of [Beyond_raw]. *)
Remark overrun_with_eof_terminated_list :
  ~ (forall (SM : SourceManager) (RawTokens : list Token) (E : Token)
            (P : Preprocessor) (fuel : nat),
       EndsWithEof RawTokens E ->
       RewriteMacrosInInput SM RawTokens fuel P <> Abort OverranEof).
Proof.
  intros H.
  apply (H FileSM Beyond_raw (RawEof 1) Beyond_pp 10).
  - exists (firstn 1 Beyond_raw). split; reflexivity.
  - reflexivity.
Qed.

Lemma alignment_loop_terminates_witness :
  (exists fuel st0 st,
     InitState MacroX_raw MacroX_pp = Done st0 /\
     MainLoop FileSM MacroX_raw fuel st0 = Done st /\
     is_ (RawTok st) tok_eof = true /\ is_ (PPTok st) tok_eof = true) /\
  (exists fuel0, forall fuel, fuel0 <= fuel ->
   exists st',
     LoopBody FileSM MacroX_raw fuel MacroX_st0 = Done st' /\
     CurRawTok MacroX_st0 <= CurRawTok st' /\
     ExpansionLeft st' <= ExpansionLeft MacroX_st0 /\
     (CurRawTok MacroX_st0 < CurRawTok st' \/
      ExpansionLeft st' < ExpansionLeft MacroX_st0)).
Proof.
  pose proof (alignment_loop_terminates FileSM MacroX_raw (RawEof 2)
                MacroX_pp MacroX_ends_with_eof MacroX_resolved
                MacroX_within_file MacroX_ends_file) as [H1 [H2 _]].
  split; [exact H1|].
  apply (H2 MacroX_st0); [|reflexivity].
  apply reach_init. reflexivity.
Defined.

Lemma Behind_never_done (fuel : nat) :
  MainLoop FileSM Behind_raw fuel Behind_st0 = OutOfFuel.
Proof.
  destruct fuel as [|fuel]; [reflexivity|].
  pose proof (InsertionRun_stuck FileSM fuel 4%N 0%N "" eq_refl) as HS.
  simpl. unfold LoopBody. simpl. unfold EofToken in HS.
  unfold RawOffsOf. simpl. rewrite HS. reflexivity.
Qed.

(** The conditions on the preprocessed stream are used.  [Behind_pp]
    reports end-of-file at an offset before the raw token, which the
    preprocessor of a file never does; with it the insertion run takes
    the end-of-file token again and again, and the loop returns for no
    amount of fuel. *)
Remark loop_runs_forever_behind_eof :
  ~ (forall (SM : SourceManager) (RawTokens : list Token) (E : Token)
            (P : Preprocessor),
       EndsWithEof RawTokens E ->
       exists fuel st0 st,
         InitState RawTokens P = Done st0 /\
         MainLoop SM RawTokens fuel st0 = Done st).
Proof.
  intros H.
  destruct (H FileSM Behind_raw (RawEof 5) Behind_pp) as [fuel [st0 [st [H0 H1]]]].
  - exists (firstn 1 Behind_raw). split; reflexivity.
  - assert (st0 = Behind_st0) by (vm_compute in H0; now inversion H0).
    subst st0. rewrite Behind_never_done in H1. discriminate.
Qed.

Lemma MacroX_in_file_order : InFileOrder FileSM MacroX_raw.
Proof.
  intros [|[|[|i]]] A B HA HB; simpl in HA, HB;
    try discriminate; try (destruct i; discriminate);
    inversion HA; inversion HB; subst; vm_compute;
    (split; [discriminate | reflexivity]).
Defined.

(** The markers of the run over [MacroX], at offsets 0 and 1, after two
    iterations and in the result. *)
Lemma marker_edit_offsets_nondecreasing_witness :
  NonDecreasing (map EditOffset (MarkerEdits (RB MacroX_st2))) /\
  NonDecreasing
    (map EditOffset
       (MarkerEdits [InsertTextAfter 0 " /*"; InsertTextBefore 1 "*/";
                     InsertTextBefore 0 " 1 "])).
Proof.
  pose proof (marker_edit_offsets_nondecreasing FileSM MacroX_raw MacroX_pp
                MacroX_in_file_order) as [H1 H2].
  split.
  - apply H1.
    apply (reach_step FileSM MacroX_raw MacroX_pp 10 MacroX_st1 MacroX_st2);
      [|reflexivity|reflexivity].
    apply (reach_step FileSM MacroX_raw MacroX_pp 10 MacroX_st0 MacroX_st1);
      [|reflexivity|reflexivity].
    apply reach_init. reflexivity.
  - apply (H2 10). reflexivity.
Defined.

(** C4 as the specification words it does not hold: the run over
    [MacroX] issues its edits at the offsets 0, 1 and 0. *)
Lemma edit_offsets_go_back :
  ~ (forall (SM : SourceManager) (RawTokens : list Token)
            (P : Preprocessor) (fuel : nat) (Edits : list Edit),
       RewriteMacrosInInput SM RawTokens fuel P = Done (Changed Edits) ->
       NonDecreasing (map EditOffset Edits)).
Proof.
  intros H.
  pose proof (H FileSM MacroX_raw MacroX_pp 10 _ eq_refl) as K.
  simpl in K. destruct K as [_ [K _]].
  inversion K as [|? ? Hle _]. vm_compute in Hle. apply Hle. reflexivity.
Qed.

(** [Quiet_raw] as a file with no macro invocation. *)
Lemma Quiet_ends_with_eof : EndsWithEof Quiet_raw (RawEof 48).
Proof. exists (firstn 14 Quiet_raw). split; reflexivity. Defined.

Lemma Quiet_resolved : IdentifiersResolved Quiet_raw.
Proof.
  intros T HIn Hi. simpl in HIn.
  repeat (destruct HIn as [<- | HIn];
          [vm_compute in Hi |- *; discriminate|]).
  contradiction.
Defined.

Lemma Quiet_unexpanded : Unexpanded FileSM Quiet_raw Quiet_pp.
Proof.
  split; [|reflexivity]. simpl.
  repeat (constructor; [repeat split; reflexivity|]). constructor.
Defined.

Lemma strictly_in_order_by_steps (SM : SourceManager)
    (RawTokens : list Token) :
  (forall i A B,
     nth_error RawTokens i = Some A -> nth_error RawTokens (S i) = Some B ->
     (RawOffsOf SM A < RawOffsOf SM B)%N) ->
  StrictlyInOrder SM RawTokens.
Proof.
  intros Hstep i j. revert i.
  induction j as [|j IH]; intros i A B Hlt HA HB; [lia|].
  destruct (nth_error RawTokens j) as [M|] eqn:HMid.
  - pose proof (Hstep j M B HMid HB).
    destruct (Nat.eq_dec i j) as [->|Hne].
    + assert (A = M) by congruence. subst. assumption.
    + pose proof (IH i A M ltac:(lia) HA eq_refl). lia.
  - apply nth_error_None in HMid.
    assert (S j < List.length RawTokens) by (apply nth_error_Some; congruence).
    lia.
Defined.

Lemma Quiet_strictly_in_order : StrictlyInOrder FileSM Quiet_raw.
Proof.
  apply strictly_in_order_by_steps.
  intros [|[|[|[|[|[|[|[|[|[|[|[|[|[|[|i]]]]]]]]]]]]]]] A B HA HB;
    simpl in HA, HB; try discriminate; try (destruct i; discriminate);
    inversion HA; inversion HB; subst; reflexivity.
Defined.

Lemma Quiet_eof_only_last : EofOnlyLast Quiet_raw.
Proof.
  intros [|[|[|[|[|[|[|[|[|[|[|[|[|[|[|i]]]]]]]]]]]]]]] T HT Hk;
    simpl in HT; try (destruct i; discriminate);
    inversion HT; subst; try discriminate Hk; reflexivity.
Defined.

(** The run over [Quiet_raw] reports no changes, the tokens of the
    included file and the two comments of the [#define] line
    notwithstanding; and from the report alone the file has no line to
    comment out and its comments are where the cursor steps over
    them. *)
Lemma no_macro_no_edit_witness :
  (exists fuel0, forall fuel, fuel0 <= fuel ->
     RewriteMacrosInInput FileSM Quiet_raw fuel Quiet_pp = Done NoChanges) /\
  NoCommentedDirective Quiet_raw = true /\
  CursorOnTrack Aligning Quiet_raw = true.
Proof.
  pose proof (no_macro_no_edit FileSM Quiet_raw (RawEof 48) Quiet_pp
                Quiet_ends_with_eof Quiet_resolved Quiet_unexpanded)
    as [H1 H2].
  split; [apply H1; reflexivity|].
  apply (H2 Quiet_strictly_in_order Quiet_eof_only_last 30). reflexivity.
Defined.

(** C7 as the specification words it does not hold: [Warning_raw] has no
    macro invocation, the preprocessor returns its tokens unexpanded, and
    the run issues the [//] edit of the warning line. *)
Lemma warning_line_edited_without_macros :
  ~ (forall (SM : SourceManager) (RawTokens : list Token) (E : Token)
            (P : Preprocessor) (fuel : nat) (Edits : list Edit),
       EndsWithEof RawTokens E ->
       IdentifiersResolved RawTokens ->
       Unexpanded SM RawTokens P ->
       RewriteMacrosInInput SM RawTokens fuel P <> Done (Changed Edits)).
Proof.
  intros H.
  apply (H FileSM Warning_raw (RawEof 21) WarningPlain_pp 20
           [InsertTextAfter 0 "//"]).
  - exists (firstn 6 Warning_raw). split; reflexivity.
  - intros T HIn Hi. simpl in HIn.
    repeat (destruct HIn as [<- | HIn];
            [vm_compute in Hi |- *; discriminate|]).
    contradiction.
  - split; [|reflexivity]. simpl.
    repeat (constructor; [repeat split; reflexivity|]). constructor.
  - reflexivity.
Qed.

(** In [Pragma_raw] the [#pragma mark] line at offset 0 gets its [//]
    and the [#include] line at offset 18 gets no edit. *)
Example pragma_mark_commented_out :
  RewriteMacrosInInput FileSM Pragma_raw 20 Pragma_pp
    = Done (Changed [InsertTextAfter 0 "//"]).
Proof. reflexivity. Qed.

(** Two comments in a row after a token the preprocessor returns: the
    raw cursor steps over the first, the second becomes the raw token,
    and a deletion run wraps it in a comment of its own. *)
Example second_comment_wrapped :
  CursorOnTrack Aligning TwoComments_raw = false /\
  RewriteMacrosInInput FileSM TwoComments_raw 20 TwoComments_pp
    = Done (Changed [InsertTextAfter 10 "/*"; InsertTextBefore 15 "*/"]).
Proof. split; reflexivity. Qed.

(** A comment that begins the line after a directive line: the skip
    steps over it and runs on over [int z;], which the preprocessor
    returns; an insertion run then puts the three tokens in a second
    time. *)
Example line_after_directive_skipped :
  CursorOnTrack Aligning Overrun_raw = false /\
  RewriteMacrosInInput FileSM Overrun_raw 20 Overrun_pp
    = Done (Changed [InsertTextBefore 16 " int z ; "]).
Proof. split; reflexivity. Qed.

(** Text the preprocessor leaves out is commented out, macros or no
    macros: that is what a deletion run is for. *)
Example excluded_text_commented_out :
  RewriteMacrosInInput FileSM Excluded_raw 20 Excluded_pp
    = Done (Changed [InsertTextAfter 6 " /*"; InsertTextBefore 12 "*/"]).
Proof. reflexivity. Qed.

End OnExamples.

(** ** The further properties on the example streams *)

Section ExtrasOnExamples.

Import Examples.

(** The raw identifier [int], the keyword [int] and the raw identifier
    again. *)
Lemma isSameToken_equivalence_witness :
  isSameToken (Ident "int" 12 false true)
              (mkToken tok_kw_int (Some (mkII "int")) 12%N 3%N false true "int")
    = true /\
  isSameToken (mkToken tok_kw_int (Some (mkII "int")) 12%N 3%N false true "int")
              (Ident "int" 0 true false) = true /\
  isSameToken (Ident "int" 12 false true) (Ident "int" 0 true false) = true.
Proof.
  split; [reflexivity|]. split; [reflexivity|].
  apply (proj2 (proj2 isSameToken_equivalence)
           (Ident "int" 12 false true)
           (mkToken tok_kw_int (Some (mkII "int")) 12%N 3%N false true "int")
           (Ident "int" 0 true false)); reflexivity.
Defined.

Lemma GetNextRawTok_comment_returned_witness :
  exists K, nth_error TwoComments_raw 1 = Some K /\
            is_ K tok_comment = true /\
            nth_error TwoComments_raw 2
              = Some (Comment "/*b*/" 10 false true) /\
            3 = 3.
Proof.
  apply (proj2 (GetNextRawTok_comment_returned TwoComments_raw 1 false
                  (Comment "/*b*/" 10 false true) 3 eq_refl));
    reflexivity.
Defined.

(** Lexing [X;] gives [MacroX_raw]. *)
Lemma LexRawTokensFromMainFile_returns_witness :
  exists fuel0, forall fuel, fuel0 <= fuel ->
    LexRawTokensFromMainFile SpellingTable fuel MacroX_lexer [] =
    Done MacroX_raw.
Proof.
  exact (proj1 (LexRawTokensFromMainFile_returns SpellingTable
                  MacroX_lexer [])).
Defined.

Lemma lexed_tokens_well_formed_witness :
  (exists Body E,
     MacroX_raw = Body ++ [E] /\ is_ E tok_eof = true /\
     Forall (fun X => is_ X tok_eof = false) Body) /\
  IdentifiersResolved MacroX_raw.
Proof.
  apply (lexed_tokens_well_formed SpellingTable MacroX_lexer 10 MacroX_raw).
  reflexivity.
Defined.

Lemma LexAndRewrite_no_fault_witness :
  LexAndRewrite SpellingTable FileSM 10 MacroX_lexer MacroX_pp
    <> Abort NullIdentifierInfo.
Proof.
  apply (LexAndRewrite_no_fault FileSM SpellingTable MacroX_lexer MacroX_pp
           10 NullIdentifierInfo).
  exact MacroX_within_file.
Defined.

Lemma MacroX_st0_reachable : Reachable FileSM MacroX_raw MacroX_pp MacroX_st0.
Proof. apply reach_init. reflexivity. Defined.

Lemma MacroX_st2_reachable : Reachable FileSM MacroX_raw MacroX_pp MacroX_st2.
Proof.
  apply (reach_step FileSM MacroX_raw MacroX_pp 10 MacroX_st1 MacroX_st2);
    [|reflexivity|reflexivity].
  apply (reach_step FileSM MacroX_raw MacroX_pp 10 MacroX_st0 MacroX_st1);
    [|reflexivity|reflexivity].
  exact MacroX_st0_reachable.
Defined.

Lemma cursors_never_rewind_witness :
  CursorInv MacroX_raw MacroX_pp MacroX_st2 /\
  CurRawTok MacroX_st0 <= CurRawTok MacroX_st1 /\
  exists n, Pending (PP MacroX_st1) = skipn n (Pending (PP MacroX_st0)).
Proof.
  pose proof (cursors_never_rewind FileSM MacroX_raw MacroX_pp) as [H1 H2].
  split; [apply H1; exact MacroX_st2_reachable|].
  apply (H2 10 MacroX_st0 MacroX_st1 MacroX_st0_reachable). reflexivity.
Defined.

Lemma edits_only_appended_witness :
  (exists Delta, RB MacroX_st1 = RB MacroX_st0 ++ Delta /\
                 List.length Delta <= 2) /\
  (exists st',
     MainLoop FileSM MacroX_raw 10 MacroX_st1 = Done st' /\
     exists Delta, RB st' = RB MacroX_st1 ++ Delta).
Proof.
  pose proof (edits_only_appended FileSM MacroX_raw) as [H1 H2].
  split.
  - apply (H1 10 MacroX_st0 MacroX_st1). reflexivity.
  - eexists. split; [reflexivity|].
    apply (H2 10 MacroX_st1). reflexivity.
Defined.

Lemma edits_well_shaped_witness :
  Forall (fun Ed => WellShaped Ed = true) (RB MacroX_st2) /\
  Forall (fun Ed => WellShaped Ed = true)
    [InsertTextAfter 0 " /*"; InsertTextBefore 1 "*/";
     InsertTextBefore 0 " 1 "].
Proof.
  pose proof (edits_well_shaped FileSM MacroX_raw MacroX_pp) as [H1 H2].
  split; [apply H1; exact MacroX_st2_reachable|].
  apply (H2 10). reflexivity.
Defined.

Lemma openers_always_closed_witness :
  OpenersClosed (RB MacroX_st2) = true /\
  OpenersClosed [InsertTextAfter 0 " /*"; InsertTextBefore 1 "*/";
                 InsertTextBefore 0 " 1 "] = true.
Proof.
  pose proof (openers_always_closed FileSM MacroX_raw MacroX_pp) as [H1 H2].
  split; [apply H1; exact MacroX_st2_reachable|].
  apply (H2 10). reflexivity.
Defined.

Lemma edits_anchored_on_tokens_witness :
  Forall (Anchored FileSM MacroX_raw
            (EofToken (EofLoc MacroX_pp) :: Pending MacroX_pp))
         (RB MacroX_st2) /\
  Forall (Anchored FileSM MacroX_raw
            (EofToken (EofLoc MacroX_pp) :: Pending MacroX_pp))
    [InsertTextAfter 0 " /*"; InsertTextBefore 1 "*/";
     InsertTextBefore 0 " 1 "].
Proof.
  pose proof (edits_anchored_on_tokens FileSM MacroX_raw MacroX_pp)
    as [H1 H2].
  split; [apply H1; exact MacroX_st2_reachable|].
  apply (H2 10). reflexivity.
Defined.

(** A closer at offset 0 of [MacroX], where no raw token ends, is not
    on a token, although a preprocessed token stands at that offset. *)
Remark closer_off_token_not_anchored :
  ~ Anchored FileSM MacroX_raw
      (EofToken (EofLoc MacroX_pp) :: Pending MacroX_pp)
      (InsertTextBefore 0 "*/").
Proof.
  intros [[_ [D [HD HO]]] | [Hsp _]]; [|discriminate Hsp].
  simpl in HD. destruct HD as [<- | [<- | [<- | []]]]; discriminate HO.
Qed.

(** The warning line of [Warning_raw]: the raw cursor goes from 1 to 4,
    on to [int], which starts a line. *)
Lemma directive_line_skipped_witness :
  PPTok Warning_st1 = PPTok Warning_st0 /\ PP Warning_st1 = PP Warning_st0 /\
  CurRawTok Warning_st0 < CurRawTok Warning_st1 /\
  (isAtStartOfLine (RawTok Warning_st1) = true \/
   is_ (RawTok Warning_st1) tok_eof = true).
Proof.
  apply (directive_line_skipped FileSM Warning_raw 10 Warning_st0
           Warning_st1); reflexivity.
Defined.

Lemma insertion_run_catches_up_witness :
  (RawOffsOf FileSM (RawTok MacroX_st2)
   <= PPOffsOf FileSM (PPTok MacroX_st2))%N /\
  PPTok MacroX_st2 <> PPTok MacroX_st1.
Proof.
  apply (insertion_run_catches_up FileSM MacroX_raw 10 MacroX_st1 MacroX_st2);
    reflexivity.
Defined.

(** The run over [EMPTY] stops on the comment at index 1. *)
Lemma deletion_run_extent_witness :
  exists j Stop,
    1 <= j /\ nth_error Empty_raw j = Some Stop /\
    (forall i X, 1 <= i < j -> nth_error Empty_raw i = Some X ->
       is_ X tok_comment = false /\
       StaysInRun FileSM 12 (PPTok Empty_st0) X = true) /\
    ((is_ Stop tok_comment = true /\
      GetNextRawTok Empty_raw (S j) false = Done (RawTok Empty_st1, 3)) \/
     (is_ Stop tok_comment = false /\
      StaysInRun FileSM 12 (PPTok Empty_st0) Stop = false /\
      RawTok Empty_st1 = Stop /\ 3 = S j)) /\
    ((j = 1 /\ 5%N = uadd 0 (getLength (RawTok Empty_st0))) \/
     (1 < j /\ exists D, nth_error Empty_raw (pred j) = Some D /\
                5%N = uadd (RawOffsOf FileSM D) (getLength D))).
Proof.
  apply (deletion_run_extent FileSM Empty_raw 10 12 (PPTok Empty_st0)
           0 (RawTok Empty_st0) 1 5 (RawTok Empty_st1) 3).
  reflexivity.
Defined.

Lemma empty_main_file_unchanged_witness :
  exists fuel0, forall fuel, fuel0 <= fuel ->
    RewriteMacrosInInput FileSM [RawEof 0] fuel Header_pp = Done NoChanges.
Proof.
  apply (empty_main_file_unchanged FileSM (RawEof 0) Header_pp).
  - reflexivity.
  - repeat constructor.
Defined.

Lemma LexAndRewrite_returns_witness :
  exists fuel0, forall fuel, fuel0 <= fuel ->
    exists Out,
      LexAndRewrite SpellingTable FileSM fuel MacroX_lexer MacroX_pp
        = Done Out.
Proof.
  apply (LexAndRewrite_returns FileSM SpellingTable MacroX_lexer MacroX_pp).
  - exact MacroX_within_file.
  - reflexivity.
  - repeat constructor.
  - intros T [<- | [<- | [<- | []]]]; vm_compute; discriminate.
Defined.

End ExtrasOnExamples.
